(** * Block-marker engine of the CodeMirror driver ([CMBlockMarkerHelperV2])

    A shallow embedding of [CMBlockMarkerHelperV2.process] and
    [CMBlockMarkerHelperV2._markRanges] together with the part of the host
    (JavaScript regular expressions, the CodeMirror decoration store) that the
    two methods drive.

    Line numbers, character offsets and [lastIndex] values are JavaScript
    numbers holding integers; they are [Z] here (the scanner uses [-1] as a
    sentinel), string indices are [nat]. *)

From Stdlib Require Import ZArith String Ascii Bool Lia Floats.
From stdpp Require Import base tactics option list numbers sorting gmap strings pretty.

Local Open Scope string_scope.
Local Open Scope Z_scope.

(** ** Completion records: a call either returns or throws *)

Inductive Exn : Type :=
| TypeError                (* property access on [undefined] *)
| CallbackError (msg : string).   (* thrown by a caller-supplied callback *)

Inductive Result (A : Type) : Type :=
| Ok (a : A)
| Throw (e : Exn).
Arguments Ok {A} a.
Arguments Throw {A} e.

Definition isOk {A} (r : Result A) : bool :=
  match r with Ok _ => true | Throw _ => false end.

(** ** JavaScript regular expressions

    A pattern is given by its matcher: [re_matcher s i] tries the pattern at
    index [i] of [s] and yields the end index and the captures.  The flags
    [g] and [y] decide whether [lastIndex] is read and written
    (ECMAScript, RegExpBuiltinExec). *)

Record RegExp : Type := {
  re_matcher : string -> nat -> option (nat * list string);
  re_global : bool;
  re_sticky : bool
}.

Definition re_stateful (r : RegExp) : bool := re_global r || re_sticky r.

(** Result of one successful exec: index, end index, captures. *)
Definition MatchData : Type := (nat * nat * list string)%type.

(** Try the start positions [i], [i+1], ..., [i+n-1] in turn. *)
Fixpoint searchFrom (r : RegExp) (s : string) (n i : nat) : option MatchData :=
  match n with
  | O => None
  | S n' =>
      match re_matcher r s i with
      | Some (e, caps) => Some (i, e, caps)
      | None => searchFrom r s n' (S i)
      end
  end.

(** RegExpBuiltinExec: the match found and the new value of [lastIndex]. *)
Definition regexpExec (r : RegExp) (s : string) (lastIndex : nat)
  : option MatchData * nat :=
  let start := if re_stateful r then lastIndex else O in
  if (String.length s <? start)%nat then
    (None, if re_stateful r then O else lastIndex)
  else if re_sticky r then
    match re_matcher r s start with
    | Some (e, caps) => (Some (start, e, caps), e)
    | None => (None, O)
    end
  else
    match searchFrom r s (S (String.length s) - start) start with
    | Some (i, e, caps) => (Some (i, e, caps), if re_global r then e else lastIndex)
    | None => (None, if re_global r then O else lastIndex)
    end.

(** [RegExp.prototype.test]. *)
Definition test (r : RegExp) (s : string) (lastIndex : nat) : bool * nat :=
  let '(m, li) := regexpExec r s lastIndex in
  (match m with Some _ => true | None => false end, li).

(** The array a match evaluates to: the matched text, then the captures
    (without [g]); every matched text (with [g]). *)
Definition Match : Type := list string.

Definition matchedText (s : string) (m : MatchData) : string :=
  let '(i, e, _) := m in substring i (e - i) s.

Definition matchArray (s : string) (m : MatchData) : Match :=
  let '(_, _, caps) := m in matchedText s m :: caps.

(** The loop of [RegExp.prototype[Symbol.match]] for a global pattern. *)
Fixpoint matchAllLoop (r : RegExp) (s : string) (fuel lastIndex : nat)
    (acc : list string) : list string * nat :=
  match fuel with
  | O => (acc, lastIndex)
  | S fuel' =>
      let '(m, li) := regexpExec r s lastIndex in
      match m with
      | None => (acc, li)
      | Some md =>
          let str := matchedText s md in
          let li' := if (String.length str =? 0)%nat then S li else li in
          matchAllLoop r s fuel' li' (acc ++ [str])
      end
  end.

(** [String.prototype.match]: [null] is [None]. *)
Definition strMatch (s : string) (r : RegExp) (lastIndex : nat)
  : option Match * nat :=
  if re_global r then
    let '(acc, li) := matchAllLoop r s (String.length s + 2) O [] in
    (match acc with [] => None | _ => Some acc end, li)
  else
    let '(m, li) := regexpExec r s lastIndex in
    (option_map (matchArray s) m, li).

(** ** The document and the viewport *)

Record Viewport : Type := { vp_from : Z; vp_to : Z }.

Record Pos : Type := { line : Z; ch : Z }.

Definition docLine (lines : list string) (i : Z) : option string :=
  if i <? 0 then None else lines !! Z.to_nat i.

Definition lineCountOf (lines : list string) : Z := Z.of_nat (length lines).

(** [String(undefined)], the coercion [test] applies to a missing line. *)
Definition toStr (l : option string) : string :=
  match l with Some s => s | None => "undefined" end.

(** The integers [lo], [lo+1], ..., [hi-1]: the index set of
    [for (let i = lo; i < hi; i++)]. *)
Definition zrange (lo hi : Z) : list Z :=
  map (fun k => lo + Z.of_nat k) (seq 0 (Z.to_nat (hi - lo))).

(** ** State and exceptions

    A computation reads and writes a state and either returns or throws;
    the state at the throw is kept. *)

Definition M (S A : Type) : Type := S -> Result A * S.

Definition ret {S A} (a : A) : M S A := fun s => (Ok a, s).
Definition throw {S A} (e : Exn) : M S A := fun s => (Throw e, s).
Definition bind {S A B} (m : M S A) (k : A -> M S B) : M S B :=
  fun s => match m s with
           | (Ok a, s') => k a s'
           | (Throw e, s') => (Throw e, s')
           end.
Definition get {S} : M S S := fun s => (Ok s, s).
Definition modify {S} (f : S -> S) : M S unit := fun s => (Ok tt, f s).

Notation "x <- m ;; k" := (bind m (fun x => k))
  (at level 63, m at next level, right associativity).
Notation "m ;;; k" := (bind m (fun _ => k))
  (at level 63, right associativity).

(** A loop that carries local variables [b] from one iteration to the next. *)
Fixpoint foldM {S A B} (f : B -> A -> M S B) (b : B) (xs : list A) : M S B :=
  match xs with
  | [] => ret b
  | x :: xs' => b' <- f b x ;; foldM f b' xs'
  end.

(** [for (const x of xs) body(x)]. *)
Fixpoint forEach {S A} (body : A -> M S unit) (xs : list A) : M S unit :=
  match xs with
  | [] => ret tt
  | x :: xs' => body x ;;; forEach body xs'
  end.

(** ** The range scanner of [process] *)

Record BlockRange : Type := {
  from : Z;
  to : Z;
  beginMatch : option Match;
  endMatch : option Match
}.

(** The local variables of [process] and the [lastIndex] of the two token
    patterns. *)
Record ScanState : Type := {
  blockRangeList : list BlockRange;
  meetBeginToken : bool;
  prevBeginTokenLineNumber : Z;
  curBeginMatch : option Match;
  startLastIndex : nat;
  endLastIndex : nat
}.

Definition initScan (sli eli : nat) : ScanState :=
  {| blockRangeList := []; meetBeginToken := false;
     prevBeginTokenLineNumber := -1; curBeginMatch := None;
     startLastIndex := sli; endLastIndex := eli |}.

Definition setStartLastIndex (n : nat) (st : ScanState) : ScanState :=
  {| blockRangeList := blockRangeList st;
     meetBeginToken := meetBeginToken st;
     prevBeginTokenLineNumber := prevBeginTokenLineNumber st;
     curBeginMatch := curBeginMatch st;
     startLastIndex := n;
     endLastIndex := endLastIndex st |}.

Definition setEndLastIndex (n : nat) (st : ScanState) : ScanState :=
  {| blockRangeList := blockRangeList st;
     meetBeginToken := meetBeginToken st;
     prevBeginTokenLineNumber := prevBeginTokenLineNumber st;
     curBeginMatch := curBeginMatch st;
     startLastIndex := startLastIndex st;
     endLastIndex := n |}.

(** [meetBeginToken = true; prevBeginTokenLineNumber = i]. *)
Definition openBlock (i : Z) (m : option Match) (st : ScanState) : ScanState :=
  {| blockRangeList := blockRangeList st;
     meetBeginToken := true;
     prevBeginTokenLineNumber := i;
     curBeginMatch := m;
     startLastIndex := startLastIndex st;
     endLastIndex := endLastIndex st |}.

(** [meetBeginToken = false; prevBeginTokenLineNumber = -1]. *)
Definition closeBlock (st : ScanState) : ScanState :=
  {| blockRangeList := blockRangeList st;
     meetBeginToken := false;
     prevBeginTokenLineNumber := -1;
     curBeginMatch := curBeginMatch st;
     startLastIndex := startLastIndex st;
     endLastIndex := endLastIndex st |}.

(** [blockRangeList.push({from: prevBeginTokenLineNumber, to: i, ...})]. *)
Definition pushRange (i : Z) (m : option Match) (st : ScanState) : ScanState :=
  {| blockRangeList :=
       blockRangeList st ++
         [{| from := prevBeginTokenLineNumber st; to := i;
             beginMatch := curBeginMatch st; endMatch := m |}];
     meetBeginToken := meetBeginToken st;
     prevBeginTokenLineNumber := prevBeginTokenLineNumber st;
     curBeginMatch := curBeginMatch st;
     startLastIndex := startLastIndex st;
     endLastIndex := endLastIndex st |}.

Section Scanner.

Variable blockStartTokenRegexp : RegExp.
Variable blockEndTokenRegex : RegExp.
Variable lines : list string.

(** [this.blockStartTokenRegexp.test(line)]. *)
Definition testStart (l : option string) : M ScanState bool :=
  fun st =>
    let '(b, n) := test blockStartTokenRegexp (toStr l) (startLastIndex st) in
    (Ok b, setStartLastIndex n st).

(** [this.blockEndTokenRegex.test(line)]. *)
Definition testEnd (l : option string) : M ScanState bool :=
  fun st =>
    let '(b, n) := test blockEndTokenRegex (toStr l) (endLastIndex st) in
    (Ok b, setEndLastIndex n st).

(** [line.match(this.blockStartTokenRegexp)]; [line] may be [undefined]. *)
Definition matchStart (l : option string) : M ScanState (option Match) :=
  fun st =>
    match l with
    | None => (Throw TypeError, st)
    | Some s =>
        let '(m, n) := strMatch s blockStartTokenRegexp (startLastIndex st) in
        (Ok m, setStartLastIndex n st)
    end.

(** [line.match(this.blockEndTokenRegex)]. *)
Definition matchEnd (l : option string) : M ScanState (option Match) :=
  fun st =>
    match l with
    | None => (Throw TypeError, st)
    | Some s =>
        let '(m, n) := strMatch s blockEndTokenRegex (endLastIndex st) in
        (Ok m, setEndLastIndex n st)
    end.

(** One iteration of the bounded loop, at line [i]. *)
Definition scanStep (fromLine : Z) (i : Z) : M ScanState unit :=
  fun st =>
    let l := docLine lines i in
    if negb (meetBeginToken st) then
      (b <- testStart l ;;
       if b then
         m <- matchStart l ;;
         modify (openBlock i m)
       else ret tt) st
    else
      (b <- testEnd l ;;
       if b then
         (if fromLine <=? i then
            m <- matchEnd l ;;
            modify (pushRange i m)
          else ret tt) ;;;
         modify closeBlock
       else ret tt) st.

(** [for (let i = 0; i < toLine; i++)]. *)
Definition scanMain (fromLine toLine : Z) : M ScanState unit :=
  forEach (scanStep fromLine) (zrange 0 toLine).

(** The second loop: look for the end token on the given lines and push
    one range at the first hit ([break]). *)
Fixpoint backoffLoop (ixs : list Z) : M ScanState unit :=
  match ixs with
  | [] => ret tt
  | i :: ixs' =>
      let l := docLine lines i in
      b <- testEnd l ;;
      if b then
        m <- matchEnd l ;;
        modify (pushRange i m)
      else backoffLoop ixs'
  end.

(** The window of a pass: the viewport, or the whole document after
    [setValue]. *)
Definition windowOf (viewport : Viewport) (afterSetValue : bool) : Z * Z :=
  if afterSetValue then (0, lineCountOf lines)
  else (vp_from viewport, vp_to viewport).

(** The discovery half of [process]: both loops. *)
Definition scanRanges (viewport : Viewport) (afterSetValue : bool)
  : M ScanState unit :=
  let '(fromLine, toLine) := windowOf viewport afterSetValue in
  scanMain fromLine toLine ;;;
  st <- get ;;
  if meetBeginToken st then
    backoffLoop (zrange (vp_to viewport) (lineCountOf lines))
  else ret tt.

End Scanner.

(** ** DOM elements *)

#[warnings="-register-all"]
Inductive HTMLElement : Type :=
| Element (tag : string) (classes : list string) (cssText : string)
    (handlers : list string) (children : list HTMLElement)
| RawHTML (markup : string).

Definition createDiv : HTMLElement := Element "div" [] "" [] [].

(** [el.classList.add(c)]. *)
Definition classListAdd (c : string) (el : HTMLElement) : HTMLElement :=
  match el with
  | Element t cs css hs ch =>
      Element t (if existsb (String.eqb c) cs then cs else cs ++ [c]) css hs ch
  | RawHTML m => RawHTML m
  end.

(** [el.appendChild(child)]. *)
Definition appendChild (child : HTMLElement) (el : HTMLElement) : HTMLElement :=
  match el with
  | Element t cs css hs ch => Element t cs css hs (ch ++ [child])
  | RawHTML m => RawHTML m
  end.

(** [el.innerHTML = '']. *)
Definition clearChildren (el : HTMLElement) : HTMLElement :=
  match el with
  | Element t cs css hs _ => Element t cs css hs []
  | RawHTML m => RawHTML m
  end.

(** [el.style.cssText = css]. *)
Definition setCssText (css : string) (el : HTMLElement) : HTMLElement :=
  match el with
  | Element t cs _ hs ch => Element t cs css hs ch
  | RawHTML m => RawHTML m
  end.

(** [el.on<name> = handler]. *)
Definition setHandler (name : string) (el : HTMLElement) : HTMLElement :=
  match el with
  | Element t cs css hs ch =>
      Element t cs css (if existsb (String.eqb name) hs then hs else hs ++ [name]) ch
  | RawHTML m => RawHTML m
  end.

Definition wrapperCss : string :=
  "border: 2px solid transparent; padding: 4px; width: 100%; border-radius: 4px; background-color: var(--joplin-background-color) !important; transition: border-color 500ms;".

Definition editButtonCss : string :=
  "position: absolute; top: 8px; right: 10px; width: 24px; height: 24px;background-color: #19a2f0 !important; color: #f2f2f2; border-radius: 5px; display: flex; align-items: center; justify-content: center; transition: opacity 500ms; opacity: 0;".

(** The edit button of [setStyleAndLogical]. *)
Definition editButton : HTMLElement :=
  Element "div" [] editButtonCss ["onclick"] [RawHTML "<svg class=code-glyph>"].

(** ** The decoration store of the editor

    Markers and line widgets are objects of the host; an object is the index
    at which it was allocated, and [clear] marks it as cleared.  Cleared
    objects are no longer attached to the document. *)

Record TextMarker : Type := {
  mk_className : option string;
  mk_from : Pos;
  mk_to : Pos;
  mk_replacedWith : option HTMLElement;
  mk_cleared : bool
}.

Record LineWidget : Type := {
  lw_line : Z;
  lw_className : option string;
  lw_node : HTMLElement;
  lw_cleared : bool
}.

(** What a pass did to the decorations and to attached nodes. *)
Inductive Mutation : Type :=
| MarkText (marker : nat)
| AddLineWidget (widget : nat)
| ClearMarker (marker : nat)
| ClearWidget (widget : nat)
| SetInnerHTML (widget : nat)
| AppendChild (widget : nat)
| SetStyle (widget : nat)
| SetMarkerHandler (marker : nat)
| SetWidgetHandlers (widget : nat).

Record Editor : Type := {
  ed_lines : list string;
  ed_viewport : Viewport;
  ed_cursor : Pos;
  ed_selections : list (Pos * Pos);
  ed_markers : list TextMarker;
  ed_widgets : list LineWidget;
  ed_log : list Mutation
}.

Definition setMarkers (ms : list TextMarker) (ed : Editor) : Editor :=
  {| ed_lines := ed_lines ed; ed_viewport := ed_viewport ed;
     ed_cursor := ed_cursor ed; ed_selections := ed_selections ed;
     ed_markers := ms; ed_widgets := ed_widgets ed; ed_log := ed_log ed |}.

Definition setWidgets (ws : list LineWidget) (ed : Editor) : Editor :=
  {| ed_lines := ed_lines ed; ed_viewport := ed_viewport ed;
     ed_cursor := ed_cursor ed; ed_selections := ed_selections ed;
     ed_markers := ed_markers ed; ed_widgets := ws; ed_log := ed_log ed |}.

Definition logMutation (m : Mutation) (ed : Editor) : Editor :=
  {| ed_lines := ed_lines ed; ed_viewport := ed_viewport ed;
     ed_cursor := ed_cursor ed; ed_selections := ed_selections ed;
     ed_markers := ed_markers ed; ed_widgets := ed_widgets ed;
     ed_log := ed_log ed ++ [m] |}.

Definition posLt (a b : Pos) : bool :=
  (line a <? line b) || ((line a =? line b) && (ch a <? ch b)).

Definition optStrEq (a : option string) (b : string) : bool :=
  match a with Some s => String.eqb s b | None => false end.

Definition clearedMarker (m : TextMarker) : TextMarker :=
  {| mk_className := mk_className m; mk_from := mk_from m; mk_to := mk_to m;
     mk_replacedWith := mk_replacedWith m; mk_cleared := true |}.

Definition clearedWidget (w : LineWidget) : LineWidget :=
  {| lw_line := lw_line w; lw_className := lw_className w;
     lw_node := lw_node w; lw_cleared := true |}.

Definition withNode (n : HTMLElement) (w : LineWidget) : LineWidget :=
  {| lw_line := lw_line w; lw_className := lw_className w;
     lw_node := n; lw_cleared := lw_cleared w |}.

Definition withReplacedWith (el : HTMLElement) (m : TextMarker) : TextMarker :=
  {| mk_className := mk_className m; mk_from := mk_from m; mk_to := mk_to m;
     mk_replacedWith := Some el; mk_cleared := mk_cleared m |}.

(** [marker.clear()]: nothing happens on a marker that is already cleared. *)
Definition clearMarker (i : nat) (ed : Editor) : Editor :=
  match ed_markers ed !! i with
  | Some m =>
      if mk_cleared m then ed
      else logMutation (ClearMarker i)
             (setMarkers (<[i := clearedMarker m]> (ed_markers ed)) ed)
  | None => ed
  end.

(** [lineWidget.clear()]. *)
Definition clearWidget (j : nat) (ed : Editor) : Editor :=
  match ed_widgets ed !! j with
  | Some w =>
      if lw_cleared w then ed
      else logMutation (ClearWidget j)
             (setWidgets (<[j := clearedWidget w]> (ed_widgets ed)) ed)
  | None => ed
  end.

(** [marker.find()]: the span of an attached marker, [undefined] once it is
    cleared. *)
Definition markerFind (m : TextMarker) : option (Pos * Pos) :=
  if mk_cleared m then None else Some (mk_from m, mk_to m).

(** The spans of a marker and of the queried range overlap. *)
Definition spanOverlaps (from to : Pos) (m : TextMarker) : bool :=
  (line from <=? line to) && posLt from (mk_to m) && posLt (mk_from m) to.

(** An attached marker overlaps the queried range. *)
Definition markOverlaps (from to : Pos) (m : TextMarker) : bool :=
  negb (mk_cleared m) && spanOverlaps from to m.

Definition overlapsAt (from to : Pos) (ms : list TextMarker) (i : nat) : bool :=
  match ms !! i with
  | Some m => markOverlaps from to m
  | None => false
  end.

(** [editor.findMarks(from, to)]: the attached markers that overlap the
    range, in the order of the store. *)
Definition findMarks (from to : Pos) (ed : Editor) : list nat :=
  filter (fun i => overlapsAt from to (ed_markers ed) i = true)
    (seq 0 (length (ed_markers ed))).

(** [doc.markText(from, to, {replacedWith, className, ...})]. *)
Definition markText (from to : Pos) (replacedWith : HTMLElement)
    (className : string) : M Editor nat :=
  fun ed =>
    let i := length (ed_markers ed) in
    let m := {| mk_className := Some className; mk_from := from; mk_to := to;
                mk_replacedWith := Some replacedWith; mk_cleared := false |} in
    (Ok i, logMutation (MarkText i) (setMarkers (ed_markers ed ++ [m]) ed)).

(** [doc.addLineWidget(line, node, {className})]. *)
Definition addLineWidget (l : Z) (node : HTMLElement) (className : string)
  : M Editor nat :=
  fun ed =>
    let j := length (ed_widgets ed) in
    let w := {| lw_line := l; lw_className := Some className;
                lw_node := node; lw_cleared := false |} in
    (Ok j, logMutation (AddLineWidget j) (setWidgets (ed_widgets ed ++ [w]) ed)).

(** Modelled from the spec: [findLineWidgetAtLine] of [cm-utils], which is
    not among the sources: the "lookup of widgets at a line", filtered by
    the widget class name; the first attached widget of that class at the
    line, if any. *)
Definition widgetAt (l : Z) (className : string) (w : LineWidget) : bool :=
  negb (lw_cleared w) && (lw_line w =? l) && optStrEq (lw_className w) className.

Definition findLineWidgetAtLine (ed : Editor) (l : Z) (className : string)
  : option nat :=
  fst <$> list_find (fun w => widgetAt l className w = true) (ed_widgets ed).

(** Update the node of an attached widget in place. *)
Definition updateNode (j : nat) (f : HTMLElement -> HTMLElement)
    (m : Mutation) (ed : Editor) : Editor :=
  match ed_widgets ed !! j with
  | Some w =>
      logMutation m (setWidgets (<[j := withNode (f (lw_node w)) w]> (ed_widgets ed)) ed)
  | None => ed
  end.

(** ** The reconciler: [_markRanges] *)

Definition newline : string := String (ascii_of_nat 10) EmptyString.

(** The lines strictly between the two token lines, joined by a newline;
    [join] prints a missing element as the empty string. *)
Definition blockContent (lines : list string) (fromLine toLine : Z) : string :=
  String.concat newline
    (map (fun i => match docLine lines i with Some s => s | None => "" end)
       (zrange (fromLine + 1) toLine)).

(** Update the element of a marker in place. *)
Definition updateMarkerEl (i : nat) (f : HTMLElement -> HTMLElement)
    (m : Mutation) (ed : Editor) : Editor :=
  match ed_markers ed !! i with
  | Some mk =>
      match mk_replacedWith mk with
      | Some el =>
          logMutation m
            (setMarkers (<[i := withReplacedWith (f el) mk]> (ed_markers ed)) ed)
      | None => ed
      end
  | None => ed
  end.

Section Reconciler.

(** The constructor arguments of the helper. *)
Variable renderer :
  option Match -> option Match -> string -> Z -> Z -> Result HTMLElement.
Variable spanRenderer : unit -> Result HTMLElement.
Variable MARKER_CLASS_NAME : string.
Variable clearOnClick : bool.
Variable renderWhenEditing : bool.

(** [isCursorOutRange] and [isRangeSelected] of [cm-utils] are not among
    the sources; they are parameters.  [isRangeSelected] is given the
    selections of the editor it is called with. *)
Variable isCursorOutRange : Pos -> Pos -> Pos -> bool.
Variable isRangeSelected : Pos -> Pos -> list (Pos * Pos) -> bool.

Definition lineWidgetClassName : string :=
  (MARKER_CLASS_NAME ++ "-line-widget")%string.

Definition callRenderer (r : BlockRange) (content : string)
    (fromLine toLine : Z) : M Editor HTMLElement :=
  fun ed => (renderer (beginMatch r) (endMatch r) content fromLine toLine, ed).

Definition callSpanRenderer : M Editor HTMLElement :=
  fun ed => (spanRenderer tt, ed).

Definition createLineWidgetForMarker (l : Z) (element : HTMLElement)
  : M Editor nat :=
  addLineWidget l element lineWidgetClassName.

(** [setStyleAndLogical]: style the wrapper, append the edit button and
    install the handlers. *)
Definition setStyleAndLogical (textMarker wrapperLineWidget : nat)
  : M Editor unit :=
  modify (updateNode wrapperLineWidget (setCssText wrapperCss)
            (SetStyle wrapperLineWidget)) ;;;
  (if clearOnClick then
     modify (updateMarkerEl textMarker (setHandler "onclick")
               (SetMarkerHandler textMarker))
   else ret tt) ;;;
  modify (updateNode wrapperLineWidget (appendChild editButton)
            (AppendChild wrapperLineWidget)) ;;;
  modify (updateNode wrapperLineWidget
            (fun el => setHandler "onmouseleave" (setHandler "onmouseover" el))
            (SetWidgetHandlers wrapperLineWidget)).

(** The callback given to [findMarks(from, to).find]: it returns nothing,
    so every marker found is visited.  [vars] are [existingMarker] and
    [existingLineWidget]. *)
Definition checkMarker (fromP toP : Pos) (vars : option nat * option nat)
    (i : nat) : M Editor (option nat * option nat) :=
  ed <- get ;;
  match ed_markers ed !! i with
  | None => ret vars
  | Some marker =>
      if optStrEq (mk_className marker) MARKER_CLASS_NAME then
        let existingLineWidget :=
          findLineWidgetAtLine ed (line toP) lineWidgetClassName in
        let existingMarker :=
          match existingLineWidget with Some _ => Some i | None => fst vars end in
        match markerFind marker with
        | None => throw TypeError
        | Some (mf, mt) =>
            if negb (line mf =? line fromP) || negb (line mt =? line toP) then
              modify (clearMarker i) ;;;
              match existingLineWidget with
              | Some j => modify (clearWidget j)
              | None => ret tt
              end ;;;
              ret (existingMarker, existingLineWidget)
            else
              match existingMarker with
              | None =>
                  modify (clearMarker i) ;;;
                  ret (existingMarker, existingLineWidget)
              | Some _ => ret (existingMarker, existingLineWidget)
              end
        end
      else ret vars
  end.

(** "we do not allow a line widget in a marked range". *)
Definition sweepLine (i : Z) : M Editor unit :=
  ed <- get ;;
  match findLineWidgetAtLine ed i lineWidgetClassName with
  | Some j => modify (clearWidget j)
  | None => ret tt
  end.

(** Cursor outside, nothing there yet: marker, then widget. *)
Definition createPair (r : BlockRange) (fromP toP : Pos) (content : string)
  : M Editor unit :=
  ed <- get ;;
  match findLineWidgetAtLine ed (line toP) lineWidgetClassName with
  | Some j => modify (clearWidget j)
  | None => ret tt
  end ;;;
  markerEl0 <- callSpanRenderer ;;
  let markerEl := classListAdd MARKER_CLASS_NAME markerEl0 in
  textMarker <- markText fromP toP markerEl MARKER_CLASS_NAME ;;
  element <- callRenderer r content (line fromP) (line toP) ;;
  let wrapper := appendChild element createDiv in
  lineWidget <- createLineWidgetForMarker (line toP) wrapper ;;
  setStyleAndLogical textMarker lineWidget.

(** Cursor inside: no marker, and a widget only when rendering while
    editing. *)
Definition editingState (r : BlockRange) (fromP toP : Pos) (content : string)
    (existingMarker : option nat) : M Editor unit :=
  match existingMarker with
  | Some i => modify (clearMarker i)
  | None => ret tt
  end ;;;
  ed <- get ;;
  let existingLineWidget :=
    findLineWidgetAtLine ed (line toP) lineWidgetClassName in
  if renderWhenEditing then
    match existingLineWidget with
    | Some j =>
        modify (updateNode j clearChildren (SetInnerHTML j)) ;;;
        element <- callRenderer r content (line fromP) (line toP) ;;
        modify (updateNode j (appendChild element) (AppendChild j))
    | None =>
        element <- callRenderer r content (line fromP) (line toP) ;;
        let wrapper := appendChild element createDiv in
        createLineWidgetForMarker (line toP) wrapper ;;;
        ret tt
    end
  else
    match existingLineWidget with
    | Some j => modify (clearWidget j)
    | None => ret tt
    end.

(** The body of the loop of [_markRanges] for one range. *)
Definition markRange (cursor : Pos) (blockRange : BlockRange) : M Editor unit :=
  ed0 <- get ;;
  match docLine (ed_lines ed0) (to blockRange) with
  | None => throw TypeError
  | Some toText =>
      let fromP := {| line := from blockRange; ch := 0 |} in
      let toP := {| line := to blockRange;
                    ch := Z.of_nat (String.length toText) |} in
      let cursorOutRange := isCursorOutRange cursor fromP toP in
      let selected := isRangeSelected fromP toP (ed_selections ed0) in
      vars <- foldM (checkMarker fromP toP) (None, None)
                (findMarks fromP toP ed0) ;;
      let '(existingMarker, existingLineWidget) := vars in
      forEach sweepLine (zrange (line fromP) (line toP)) ;;;
      if selected && cursorOutRange then
        match existingMarker with
        | Some i =>
            modify (clearMarker i) ;;;
            match existingLineWidget with
            | Some j => modify (clearWidget j)
            | None => throw TypeError
            end
        | None => ret tt
        end
      else
        let content :=
          blockContent (ed_lines ed0) (line fromP) (line toP) in
        if cursorOutRange then
          match existingMarker with
          | Some _ => ret tt
          | None => createPair blockRange fromP toP content
          end
        else editingState blockRange fromP toP content existingMarker
  end.

Definition _markRanges (blockRangeList : list BlockRange) : M Editor unit :=
  ed <- get ;;
  let cursor := ed_cursor ed in
  forEach (markRange cursor) blockRangeList.

(** ** [process] *)

Variable blockStartTokenRegexp : RegExp.
Variable blockEndTokenRegex : RegExp.

(** The editor and the mutable part of the helper: the [lastIndex] of its
    two patterns. *)
Record World : Type := {
  w_editor : Editor;
  w_startLastIndex : nat;
  w_endLastIndex : nat
}.

Definition process (afterSetValue : bool) : M World unit :=
  fun w =>
    let ed := w_editor w in
    let '(r, st) :=
      scanRanges blockStartTokenRegexp blockEndTokenRegex (ed_lines ed)
        (ed_viewport ed) afterSetValue
        (initScan (w_startLastIndex w) (w_endLastIndex w)) in
    let w1 := {| w_editor := ed;
                 w_startLastIndex := startLastIndex st;
                 w_endLastIndex := endLastIndex st |} in
    match r with
    | Throw e => (Throw e, w1)
    | Ok _ =>
        match blockRangeList st with
        | [] => (Ok tt, w1)
        | _ =>
            let '(r', ed') := _markRanges (blockRangeList st) ed in
            (r', {| w_editor := ed';
                    w_startLastIndex := startLastIndex st;
                    w_endLastIndex := endLastIndex st |})
        end
    end.

End Reconciler.

(** ** Literal token patterns and the sample document *)

(** The pattern that matches the text [pat] itself (no captures). *)
Definition literalAt (pat s : string) (i : nat) : option (nat * list string) :=
  if String.eqb (substring i (String.length pat) s) pat
  then Some ((i + String.length pat)%nat, [])
  else None.

Definition literal (pat : string) (g y : bool) : RegExp :=
  {| re_matcher := literalAt pat; re_global := g; re_sticky := y |}.

Definition sampleDoc : list string :=
  ["pre"; "<<<BEGIN"; "a"; "b"; "END>>>"; "post"].

Definition beginRe : RegExp := literal "<<<BEGIN" false false.
Definition endRe : RegExp := literal "END>>>" false false.

(** Modelled from the spec: [isCursorOutRange] of [cm-utils], which is not
    among the sources: "cursor outside [fromLine, toLine]". *)
Definition cursorOutsideLines (cursor fromP toP : Pos) : bool :=
  (line cursor <? line fromP) || (line toP <? line cursor).

(** Modelled from the spec: [isRangeSelected] of [cm-utils], which is not
    among the sources: "current selection overlaps [fromLine, toLine]"; an
    empty selection (a bare cursor) selects nothing. *)
Definition selectionOverlaps (fromP toP : Pos) (sels : list (Pos * Pos)) : bool :=
  existsb (fun s =>
             let a := fst s in
             let h := snd s in
             (posLt a h || posLt h a)
             && (Z.min (line a) (line h) <=? line toP)
             && (line fromP <=? Z.max (line a) (line h)))
    sels.

(** A renderer that shows the content it is given. *)
Definition echoRenderer (bm em : option Match) (content : string)
    (fromLine toLine : Z) : Result HTMLElement :=
  Ok (Element "pre" [] "" [] [RawHTML content]).

Definition spanOk (_ : unit) : Result HTMLElement :=
  Ok (Element "span" [] "" [] []).


(** The sample document in an editor without decorations. *)
Definition sampleEditor (cursor : Pos) (viewport : Viewport) : Editor :=
  {| ed_lines := sampleDoc; ed_viewport := viewport; ed_cursor := cursor;
     ed_selections := []; ed_markers := []; ed_widgets := []; ed_log := [] |}.

Definition freshWorld (ed : Editor) : World :=
  {| w_editor := ed; w_startLastIndex := 0; w_endLastIndex := 0 |}.

(** ** Predicates used in the statements *)

(** [updateMarkerEl] on one marker. *)
Definition withOptEl (f : HTMLElement -> HTMLElement) (m : TextMarker) : TextMarker :=
  match mk_replacedWith m with
  | Some el => withReplacedWith (f el) m
  | None => m
  end.

(** [a] ends above the line where [b] begins. *)
Definition rangeBefore (a b : BlockRange) : Prop := to a < from b.

(** What holds of the scanner state before line [k] is read. *)
Record ScanInv (k : Z) (st : ScanState) : Prop := {
  inv_sorted : StronglySorted rangeBefore (blockRangeList st);
  inv_ranges :
    Forall (fun r => 0 <= from r /\ from r < to r /\ to r < k) (blockRangeList st);
  inv_open :
    meetBeginToken st = true ->
    0 <= prevBeginTokenLineNumber st < k /\
    Forall (fun r => to r < prevBeginTokenLineNumber st) (blockRangeList st)
}.

(** Two scanner states that agree on everything but the ranges emitted and
    the [lastIndex] of the patterns. *)
Definition sameScanner (a b : ScanState) : Prop :=
  meetBeginToken a = meetBeginToken b /\
  prevBeginTokenLineNumber a = prevBeginTokenLineNumber b /\
  curBeginMatch a = curBeginMatch b.

Definition withLastIndex (sl el : nat) (st : ScanState) : ScanState :=
  setEndLastIndex el (setStartLastIndex sl st).

(** [m] keeps the invariant [I] of the state, whether it returns or throws;
    what it returns has [Q], and what it throws has [X]. *)
Definition keeps {S A} (X : Exn -> Prop) (I : S -> Prop) (m : M S A)
    (Q : A -> Prop) : Prop :=
  forall s, I s ->
    match m s with
    | (Ok a, s') => I s' /\ Q a
    | (Throw e, s') => X e /\ I s'
    end.

Definition anyExn (e : Exn) : Prop := True.

(** The decorations of the engine: markers with its class tag, widgets with
    the derived class name. *)
Definition taggedMarker (cls : string) (m : TextMarker) : bool :=
  optStrEq (mk_className m) cls.

Definition taggedWidget (cls : string) (w : LineWidget) : bool :=
  optStrEq (lw_className w) (lineWidgetClassName cls).

(** What reconciling the range [[fromP, toP]] may do to the store: it
    changes only attached markers of the engine that overlapped the range or
    span it, and widgets of the engine on the lines of the range; what it
    creates is a marker over the range and a widget at its end line. *)
Record touches (cls : string) (fromP toP : Pos) (ed ed' : Editor) : Prop := {
  t_lines : ed_lines ed' = ed_lines ed;
  t_viewport : ed_viewport ed' = ed_viewport ed;
  t_cursor : ed_cursor ed' = ed_cursor ed;
  t_selections : ed_selections ed' = ed_selections ed;
  t_mlen : (length (ed_markers ed) <= length (ed_markers ed'))%nat;
  t_wlen : (length (ed_widgets ed) <= length (ed_widgets ed'))%nat;
  t_markers :
    forall i m, ed_markers ed !! i = Some m ->
      ed_markers ed' !! i = Some m \/
      (exists m', ed_markers ed' !! i = Some m' /\
         mk_className m' = mk_className m /\
         mk_from m' = mk_from m /\ mk_to m' = mk_to m /\
         taggedMarker cls m = true /\ mk_cleared m = false /\
         (spanOverlaps fromP toP m = true \/
          (mk_from m = fromP /\ mk_to m = toP)));
  t_newmarkers :
    forall i m', ed_markers ed' !! i = Some m' ->
      (length (ed_markers ed) <= i)%nat ->
      mk_className m' = Some cls /\ mk_from m' = fromP /\ mk_to m' = toP;
  t_widgets :
    forall j w, ed_widgets ed !! j = Some w ->
      ed_widgets ed' !! j = Some w \/
      (exists w', ed_widgets ed' !! j = Some w' /\
         lw_line w' = lw_line w /\ lw_className w' = lw_className w /\
         taggedWidget cls w = true /\ lw_cleared w = false /\
         (lw_line w = line toP \/ line fromP <= lw_line w < line toP));
  t_newwidgets :
    forall j w', ed_widgets ed' !! j = Some w' ->
      (length (ed_widgets ed) <= j)%nat ->
      lw_className w' = Some (lineWidgetClassName cls) /\ lw_line w' = line toP
}.

(** The marker [i] is one the step may change: it is new, or it was an
    attached marker of the engine on the range. *)
Definition updatableM (cls : string) (fromP toP : Pos) (ed0 : Editor) (i : nat) : Prop :=
  (length (ed_markers ed0) <= i)%nat \/
  exists m, ed_markers ed0 !! i = Some m /\
    taggedMarker cls m = true /\ mk_cleared m = false /\
    (spanOverlaps fromP toP m = true \/ (mk_from m = fromP /\ mk_to m = toP)).

Definition updatableW (cls : string) (fromP toP : Pos) (ed0 : Editor) (j : nat) : Prop :=
  (length (ed_widgets ed0) <= j)%nat \/
  exists w, ed_widgets ed0 !! j = Some w /\
    taggedWidget cls w = true /\ lw_cleared w = false /\
    (lw_line w = line toP \/ line fromP <= lw_line w < line toP).

(** The markers and widgets the loop over the markers remembers are ones
    the step may change. *)
Definition varsOK (cls : string) (fromP toP : Pos) (ed0 : Editor)
    (vars : option nat * option nat) : Prop :=
  (forall i, fst vars = Some i -> updatableM cls fromP toP ed0 i) /\
  (forall j, snd vars = Some j -> updatableW cls fromP toP ed0 j).

(** The positions [from] and [to] that [_markRanges] computes for a range. *)
Definition fromPos (r : BlockRange) : Pos := {| line := from r; ch := 0 |}.
Definition toPos (toText : string) (r : BlockRange) : Pos :=
  {| line := to r; ch := Z.of_nat (String.length toText) |}.

(** A pass leaves the decorations of other kinds alone: only decorations of
    the engine change, and only decorations of the engine are created. *)
Record ownOnly (cls : string) (ed ed' : Editor) : Prop := {
  o_lines : ed_lines ed' = ed_lines ed;
  o_viewport : ed_viewport ed' = ed_viewport ed;
  o_cursor : ed_cursor ed' = ed_cursor ed;
  o_selections : ed_selections ed' = ed_selections ed;
  o_markers :
    forall i m, ed_markers ed !! i = Some m ->
      exists m', ed_markers ed' !! i = Some m' /\
        mk_className m' = mk_className m /\
        (taggedMarker cls m = false -> m' = m);
  o_newmarkers :
    forall i m', ed_markers ed' !! i = Some m' ->
      (length (ed_markers ed) <= i)%nat -> mk_className m' = Some cls;
  o_widgets :
    forall j w, ed_widgets ed !! j = Some w ->
      exists w', ed_widgets ed' !! j = Some w' /\
        lw_className w' = lw_className w /\
        (taggedWidget cls w = false -> w' = w);
  o_newwidgets :
    forall j w', ed_widgets ed' !! j = Some w' ->
      (length (ed_widgets ed) <= j)%nat ->
      lw_className w' = Some (lineWidgetClassName cls)
}.

(** ** Views of the store, closed forms and sample data *)

Definition sampleRange : BlockRange :=
  {| from := 1; to := 4;
     beginMatch := Some ["<<<BEGIN"]; endMatch := Some ["END>>>"] |}.

(** The wrapper of a rendered element after [setStyleAndLogical]. *)
Definition styledWrapper (element : HTMLElement) : HTMLElement :=
  Element "div" [] wrapperCss ["onmouseover"; "onmouseleave"] [element; editButton].

(** The marker at index [i] carries the class tag. *)
Definition taggedAt (cls : string) (ms : list TextMarker) (i : nat) : bool :=
  match ms !! i with
  | Some m => taggedMarker cls m
  | None => false
  end.

(** The marker at index [i] is an attached marker of the engine that
    overlaps the range. *)
Definition ownOverlapAt (cls : string) (fromP toP : Pos) (ms : list TextMarker)
    (i : nat) : bool :=
  overlapsAt fromP toP ms i && taggedAt cls ms i.

(** The widget at index [j] is an attached widget of class [c] at line [l]. *)
Definition widgetFlagAt (l : Z) (c : string) (ws : list LineWidget) (j : nat) : bool :=
  match ws !! j with
  | Some w => widgetAt l c w
  | None => false
  end.

Section FindLoopDefs.
Variables (cls : string) (fromP toP : Pos).
Local Abbreviation lwc := (lineWidgetClassName cls).

(** The span of the marker differs from the lines of the range. *)
Definition spanMoved (m : TextMarker) : bool :=
  negb (line (mk_from m) =? line fromP) || negb (line (mk_to m) =? line toP).

(** What the callback does with an attached marker of the engine. *)
Definition checkOwn (vars : option nat * option nat) (i : nat) (m : TextMarker)
    (ed : Editor) : (option nat * option nat) * Editor :=
  let existingLineWidget := findLineWidgetAtLine ed (line toP) lwc in
  let existingMarker :=
    match existingLineWidget with Some _ => Some i | None => fst vars end in
  ((existingMarker, existingLineWidget),
   if spanMoved m then
     match existingLineWidget with
     | Some j => clearWidget j (clearMarker i ed)
     | None => clearMarker i ed
     end
   else
     match existingMarker with
     | None => clearMarker i ed
     | Some _ => ed
     end).

End FindLoopDefs.

Section SweepDefs.
Variable cls : string.
Local Abbreviation lwc := (lineWidgetClassName cls).

(** Clear the widget of the engine found at line [l], if any. *)
Definition clearFound (ed : Editor) (l : Z) : Editor :=
  match findLineWidgetAtLine ed l lwc with
  | Some j => clearWidget j ed
  | None => ed
  end.

Definition sweepEd (ls : list Z) (ed : Editor) : Editor :=
  fold_left clearFound ls ed.

End SweepDefs.

Section BranchDefs.
Variable renderer :
  option Match -> option Match -> string -> Z -> Z -> Result HTMLElement.
Variable cls : string.
Variable clearOnClick : bool.
Local Abbreviation lwc := (lineWidgetClassName cls).

(** The state after [setStyleAndLogical]. *)
Definition decorated (textMarker lineWidget : nat) (ed : Editor) : Editor :=
  updateNode lineWidget
    (fun el => setHandler "onmouseleave" (setHandler "onmouseover" el))
    (SetWidgetHandlers lineWidget)
    (updateNode lineWidget (appendChild editButton) (AppendChild lineWidget)
       ((if clearOnClick
         then updateMarkerEl textMarker (setHandler "onclick")
                (SetMarkerHandler textMarker)
         else fun ed => ed)
          (updateNode lineWidget (setCssText wrapperCss) (SetStyle lineWidget) ed))).

(** The call of the renderer for a range. *)
Definition rendererCall (lines : list string) (r : BlockRange) : Result HTMLElement :=
  renderer (beginMatch r) (endMatch r) (blockContent lines (from r) (to r))
    (from r) (to r).

(** The marker that [createPair] attaches. *)
Definition newMarker (fromP toP : Pos) (el : HTMLElement) : TextMarker :=
  {| mk_className := Some cls; mk_from := fromP; mk_to := toP;
     mk_replacedWith := Some (classListAdd cls el); mk_cleared := false |}.

Definition newWidget (l : Z) (element : HTMLElement) : LineWidget :=
  {| lw_line := l; lw_className := Some lwc;
     lw_node := appendChild element createDiv; lw_cleared := false |}.

Definition addMarker (m : TextMarker) (ed : Editor) : Editor :=
  logMutation (MarkText (length (ed_markers ed)))
    (setMarkers (ed_markers ed ++ [m]) ed).

Definition addWidget (w : LineWidget) (ed : Editor) : Editor :=
  logMutation (AddLineWidget (length (ed_widgets ed)))
    (setWidgets (ed_widgets ed ++ [w]) ed).

End BranchDefs.

Definition atMostOneMarker (cls : string) (fromP toP : Pos) (ms : list TextMarker) : Prop :=
  forall i i', ownOverlapAt cls fromP toP ms i = true ->
               ownOverlapAt cls fromP toP ms i' = true -> i = i'.

Definition atMostOneWidget (l : Z) (c : string) (ws : list LineWidget) : Prop :=
  forall j j', widgetFlagAt l c ws j = true -> widgetFlagAt l c ws j' = true -> j = j'.

(** No attached marker of the engine on the range has left the lines of the
    range. *)
Definition noneMoved (cls : string) (fromP toP : Pos) (ms : list TextMarker) : Prop :=
  forall i m, ms !! i = Some m -> markOverlaps fromP toP m = true ->
    taggedMarker cls m = true -> spanMoved fromP toP m = false.

Section LoopPostDefs.
Variables (cls : string) (fromP toP : Pos).
Local Abbreviation lwc := (lineWidgetClassName cls).

(** What the loop leaves behind, whatever it found. *)
Record LoopPost (ed : Editor) (em ew : option nat) (ed1 : Editor) : Prop := {
  lp_lines : ed_lines ed1 = ed_lines ed;
  lp_mlen : length (ed_markers ed1) = length (ed_markers ed);
  lp_wlen : length (ed_widgets ed1) = length (ed_widgets ed);
  lp_own : forall k, ownOverlapAt cls fromP toP (ed_markers ed1) k = true -> em = Some k;
  lp_own_mono : forall k, ownOverlapAt cls fromP toP (ed_markers ed1) k = true ->
                          ownOverlapAt cls fromP toP (ed_markers ed) k = true;
  lp_flag_mono : forall l c k, widgetFlagAt l c (ed_widgets ed1) k = true ->
                               widgetFlagAt l c (ed_widgets ed) k = true;
  lp_flag_other : forall l c k, l <> line toP ->
                    widgetFlagAt l c (ed_widgets ed1) k = widgetFlagAt l c (ed_widgets ed) k;
  lp_lookup : forall k, widgetFlagAt (line toP) lwc (ed_widgets ed1) k = true ->
                        ed_widgets ed1 !! k = ed_widgets ed !! k;
  lp_widget : em <> None -> ew <> None;
  lp_find :
    findLineWidgetAtLine ed1 (line toP) lwc = findLineWidgetAtLine ed (line toP) lwc \/
    (findLineWidgetAtLine ed1 (line toP) lwc = None /\
     ~ noneMoved cls fromP toP (ed_markers ed))
}.

End LoopPostDefs.

Section PreBranchDefs.
Variables (cls : string) (r : BlockRange) (toText : string).
Local Abbreviation lwc := (lineWidgetClassName cls).
Local Abbreviation fromP := (fromPos r).
Local Abbreviation toP := (toPos toText r).

(** The state in which the branches of the step run: after the loop over
    the markers and the sweep of the interior lines. *)
Record PreBranch (ed : Editor) (em ew : option nat) (ed2 : Editor) : Prop := {
  pb_lines : ed_lines ed2 = ed_lines ed;
  pb_mlen : length (ed_markers ed2) = length (ed_markers ed);
  pb_wlen : length (ed_widgets ed2) = length (ed_widgets ed);
  pb_own : forall k, ownOverlapAt cls fromP toP (ed_markers ed2) k = true -> em = Some k;
  pb_flag_mono : forall l c k, widgetFlagAt l c (ed_widgets ed2) k = true ->
                               widgetFlagAt l c (ed_widgets ed) k = true;
  pb_lookup : forall k, widgetFlagAt (to r) lwc (ed_widgets ed2) k = true ->
                        ed_widgets ed2 !! k = ed_widgets ed !! k;
  pb_widget : em <> None -> ew <> None;
  pb_find :
    findLineWidgetAtLine ed2 (to r) lwc = findLineWidgetAtLine ed (to r) lwc \/
    (findLineWidgetAtLine ed2 (to r) lwc = None /\
     ~ noneMoved cls fromP toP (ed_markers ed));
  pb_interior :
    (forall l, from r <= l < to r -> atMostOneWidget l lwc (ed_widgets ed)) ->
    forall l, from r <= l < to r ->
      forall k, widgetFlagAt l lwc (ed_widgets ed2) k = false;
  pb_em :
    forall i, em = Some i -> noneMoved cls fromP toP (ed_markers ed) ->
      ed_markers ed2 = ed_markers ed /\
      ownOverlapAt cls fromP toP (ed_markers ed) i = true /\
      ew = findLineWidgetAtLine ed (to r) lwc
}.

End PreBranchDefs.


(** The number of markers and of widgets in the store. *)
Definition sizes (n k : nat) (ed : Editor) : Prop :=
  length (ed_markers ed) = n /\ length (ed_widgets ed) = k.

Definition sampleMarker (fromLine : Z) : TextMarker :=
  {| mk_className := Some "blk";
     mk_from := {| line := fromLine; ch := 0 |};
     mk_to := {| line := 4; ch := 6 |};
     mk_replacedWith := Some (Element "span" ["blk"] "" ["onclick"] []);
     mk_cleared := false |}.

Definition sampleWidget : LineWidget :=
  {| lw_line := 4; lw_className := Some "blk-line-widget";
     lw_node := styledWrapper (Element "pre" [] "" [] [RawHTML ("a" ++ newline ++ "b")]);
     lw_cleared := false |}.

(** The sample document with one marker of the engine, from line [fromLine]
    to the end of line 4, and its widget at line 4. *)
Definition decoratedEditor (fromLine : Z) (cursor : Pos) : Editor :=
  {| ed_lines := sampleDoc; ed_viewport := {| vp_from := 0; vp_to := 6 |};
     ed_cursor := cursor; ed_selections := [];
     ed_markers := [sampleMarker fromLine]; ed_widgets := [sampleWidget];
     ed_log := [] |}.

(** A marker and a widget of another kind on the lines of the block. *)
Definition foreignMarker : TextMarker :=
  {| mk_className := Some "other";
     mk_from := {| line := 1; ch := 0 |}; mk_to := {| line := 4; ch := 6 |};
     mk_replacedWith := None; mk_cleared := false |}.

Definition foreignWidget : LineWidget :=
  {| lw_line := 4; lw_className := Some "other-line-widget";
     lw_node := createDiv; lw_cleared := false |}.

Definition mixedEditor (cursor : Pos) : Editor :=
  {| ed_lines := sampleDoc; ed_viewport := {| vp_from := 0; vp_to := 6 |};
     ed_cursor := cursor; ed_selections := [];
     ed_markers := [foreignMarker; sampleMarker 1];
     ed_widgets := [foreignWidget; sampleWidget];
     ed_log := [] |}.


(** ** A store that is well formed, and a range that is settled *)

(** The mutations that rebuild the content of a widget in place. *)
Definition isRebuild (m : Mutation) : Prop :=
  match m with
  | SetInnerHTML _ | AppendChild _ => True
  | _ => False
  end.

Definition withLog (l : list Mutation) (ed : Editor) : Editor :=
  {| ed_lines := ed_lines ed; ed_viewport := ed_viewport ed;
     ed_cursor := ed_cursor ed; ed_selections := ed_selections ed;
     ed_markers := ed_markers ed; ed_widgets := ed_widgets ed; ed_log := l |}.

(** The invariant of the data model for one block: at most one attached
    marker of the engine on the range, spanning the lines of the range, and
    at most one attached widget of the engine on each line of the range. *)
Record rangeWF (cls : string) (r : BlockRange) (toText : string) (ed : Editor)
  : Prop := {
  wf_marker : atMostOneMarker cls (fromPos r) (toPos toText r) (ed_markers ed);
  wf_span : noneMoved cls (fromPos r) (toPos toText r) (ed_markers ed);
  wf_widget :
    forall l, from r <= l <= to r ->
      atMostOneWidget l (lineWidgetClassName cls) (ed_widgets ed)
}.

Definition storeWF (cls : string) (rs : list BlockRange) (ed : Editor) : Prop :=
  forall r toText, r ∈ rs -> docLine (ed_lines ed) (to r) = Some toText ->
    rangeWF cls r toText ed.

(** The ranges of a pass are proper and lie one below the other. *)
Record rangesOK (rs : list BlockRange) : Prop := {
  ok_sorted : StronglySorted rangeBefore rs;
  ok_proper : Forall (fun r => 0 <= from r /\ from r < to r) rs
}.

Section Settled.
Variable renderer :
  option Match -> option Match -> string -> Z -> Z -> Result HTMLElement.
Variable cls : string.
Variable renderWhenEditing : bool.
Variable isCursorOutRange : Pos -> Pos -> Pos -> bool.
Variable isRangeSelected : Pos -> Pos -> list (Pos * Pos) -> bool.

(** The decorations of a range are what a pass makes them: the interior
    lines carry no widget of the engine, and the marker and the widget at
    the end line are as the state of the cursor and the selection asks. *)
Definition settled (cursor : Pos) (r : BlockRange) (toText : string)
    (ed : Editor) : Prop :=
  let fromP := fromPos r in
  let toP := toPos toText r in
  let lwc := lineWidgetClassName cls in
  let own := ownOverlapAt cls fromP toP (ed_markers ed) in
  (forall l, from r <= l < to r ->
     forall k, widgetFlagAt l lwc (ed_widgets ed) k = false) /\
  if isRangeSelected fromP toP (ed_selections ed) && isCursorOutRange cursor fromP toP
  then forall k, own k = false
  else if isCursorOutRange cursor fromP toP
  then exists i m j,
         ed_markers ed !! i = Some m /\ own i = true /\
         spanMoved fromP toP m = false /\
         (forall k, own k = true -> k = i) /\
         findLineWidgetAtLine ed (to r) lwc = Some j
  else (forall k, own k = false) /\
       if renderWhenEditing
       then exists j w element,
              findLineWidgetAtLine ed (to r) lwc = Some j /\
              ed_widgets ed !! j = Some w /\
              rendererCall renderer (ed_lines ed) r = Ok element /\
              lw_node w = appendChild element (clearChildren (lw_node w))
       else findLineWidgetAtLine ed (to r) lwc = None.

End Settled.

(** The views of a range: what the step for the range looks at. *)
Record sameViews (cls : string) (r : BlockRange) (t : string) (ed ed' : Editor)
  : Prop := {
  sv_lines : ed_lines ed' = ed_lines ed;
  sv_selections : ed_selections ed' = ed_selections ed;
  sv_own : forall k,
    ownOverlapAt cls (fromPos r) (toPos t r) (ed_markers ed') k =
    ownOverlapAt cls (fromPos r) (toPos t r) (ed_markers ed) k;
  sv_marker : forall k,
    ownOverlapAt cls (fromPos r) (toPos t r) (ed_markers ed) k = true ->
    ed_markers ed' !! k = ed_markers ed !! k;
  sv_flag : forall l, from r <= l <= to r -> forall k,
    widgetFlagAt l (lineWidgetClassName cls) (ed_widgets ed') k =
    widgetFlagAt l (lineWidgetClassName cls) (ed_widgets ed) k;
  sv_widget : forall l, from r <= l <= to r -> forall k,
    widgetFlagAt l (lineWidgetClassName cls) (ed_widgets ed) k = true ->
    ed_widgets ed' !! k = ed_widgets ed !! k
}.

(** * The client of the papers service ([PapersLib]) *)

(** ** JavaScript values

    What [response.json()] returns, with [undefined] for what reading a
    missing property gives. Numbers are IEEE 754 doubles. *)

#[warnings="-register-all"]
Inductive JSValue : Type :=
| JUndefined
| JNull
| JBool (b : bool)
| JNum (n : float)
| JStr (s : string)
| JArr (xs : list JSValue)
| JObj (o : gmap string JSValue).

(** [ToBoolean]. *)
Definition truthy (v : JSValue) : bool :=
  match v with
  | JUndefined | JNull => false
  | JBool b => b
  | JNum n => negb (PrimFloat.eqb n 0%float) && PrimFloat.eqb n n
  | JStr s => negb (String.eqb s "")
  | JArr _ | JObj _ => true
  end.

(** [v.k], for a name [k] that is neither an index nor a name of a built-in
    prototype (the names the client reads, [length] apart, are such):
    reading a property of [undefined] or [null] throws, a missing property
    reads as [undefined]. *)
Definition getProp (v : JSValue) (k : string) : Result JSValue :=
  match v with
  | JUndefined | JNull => Throw TypeError
  | JObj o => Ok (default JUndefined (o !! k))
  | _ => Ok JUndefined
  end.

(** [k in v], for such a name: the right operand must be an object. *)
Definition hasKey (k : string) (v : JSValue) : Result bool :=
  match v with
  | JObj o => Ok (bool_decide (is_Some (o !! k)))
  | JArr _ => Ok false
  | _ => Throw TypeError
  end.

(** What [for (... of v)] goes through: the elements of an array, the
    characters of a string; other values are not iterable. *)
Definition iterate (v : JSValue) : Result (list JSValue) :=
  match v with
  | JArr xs => Ok xs
  | JStr s => Ok (map (fun c => JStr (String c EmptyString)) (list_ascii_of_string s))
  | _ => Throw TypeError
  end.

(** [v.length] of an array or of a string. *)
Definition lengthOf (v : JSValue) : nat :=
  match v with
  | JArr xs => length xs
  | JStr s => String.length s
  | _ => O
  end.

(** Objects and arrays: what [in] accepts on its right. *)
Definition isObject (v : JSValue) : bool :=
  match v with
  | JObj _ | JArr _ => true
  | _ => false
  end.

(** [v === s] for a string literal [s]. *)
Definition strictEqStr (v : JSValue) (s : string) : bool :=
  match v with
  | JStr t => String.eqb t s
  | _ => false
  end.

(** Sequencing of calls that may throw and have no state. *)
Definition bindR {A B} (r : Result A) (k : A -> Result B) : Result B :=
  match r with
  | Ok a => k a
  | Throw e => Throw e
  end.

Notation "x <-? r ;; k" := (bindR r (fun x => k))
  (at level 63, r at next level, right associativity).

Definition liftR {S A} (r : Result A) : M S A := fun s => (r, s).

(** ** The records of the client *)

Record PaperItem : Type := {
  pi_title : JSValue;
  pi_journal : JSValue;
  pi_authors : JSValue;
  pi_tags : JSValue;
  pi_rating : JSValue;
  pi_abstract : JSValue;
  pi_collection_id : JSValue;
  pi_year : JSValue;
  pi_id : JSValue;
  pi_notes : JSValue;
  pi_annotations : list JSValue;
  pi_issn : JSValue;
  pi_volume : JSValue;
  pi_url : JSValue;
  pi_pagination : JSValue;
  pi_journal_abbrev : JSValue
}.

Record CollectionItem : Type := { col_id : JSValue }.

Record AnnotationItem : Type := {
  an_id : JSValue;
  an_type : JSValue;
  an_text : JSValue;
  an_note : JSValue;
  an_color_id : JSValue
}.

(** ** [parseItemJson] *)

(** ['k' in itemData.part ? itemData.part.k : dflt]. *)
Definition fieldOr (itemData : JSValue) (part k : string) (dflt : JSValue)
  : Result JSValue :=
  p <-? getProp itemData part ;;
  b <-? hasKey k p ;;
  if b then
    p' <-? getProp itemData part ;;
    getProp p' k
  else Ok dflt.

(** The field of an object or array: the value under the key when the key
    is there, the default otherwise. *)
Definition fieldValue (p : JSValue) (k : string) (dflt : JSValue) : JSValue :=
  match p with
  | JObj o => default dflt (o !! k)
  | _ => dflt
  end.

(** The rating of an item: the rating of [user_data] when it is truthy, and
    [-1] otherwise. *)
Definition ratingValue (u : JSValue) : JSValue :=
  let r := fieldValue u "rating" JUndefined in
  if truthy r then r else JNum (-1)%float.

(** ['rating' in user_data ? (user_data.rating ? user_data.rating : -1) : -1]. *)
Definition ratingOf (itemData : JSValue) : Result JSValue :=
  u <-? getProp itemData "user_data" ;;
  b <-? hasKey "rating" u ;;
  if b then
    u1 <-? getProp itemData "user_data" ;;
    r <-? getProp u1 "rating" ;;
    if truthy r then
      u2 <-? getProp itemData "user_data" ;;
      getProp u2 "rating"
    else Ok (JNum (-1)%float)
  else Ok (JNum (-1)%float).

Definition parseItemJson (itemData collection_id : JSValue) : Result PaperItem :=
  title <-? fieldOr itemData "article" "title" (JStr "") ;;
  journal <-? fieldOr itemData "article" "journal" (JStr "Unknown") ;;
  authors <-? fieldOr itemData "article" "authors" (JArr []) ;;
  tags <-? fieldOr itemData "user_data" "tags" (JArr []) ;;
  rating <-? ratingOf itemData ;;
  abstract <-? fieldOr itemData "article" "abstract" (JStr "") ;;
  id <-? getProp itemData "id" ;;
  notes <-? fieldOr itemData "user_data" "notes" (JStr "") ;;
  year <-? fieldOr itemData "article" "year" (JNum 1000%float) ;;
  issn <-? fieldOr itemData "article" "issn" (JStr "") ;;
  volume <-? fieldOr itemData "article" "volume" (JStr "") ;;
  url <-? fieldOr itemData "article" "url" (JStr "") ;;
  pagination <-? fieldOr itemData "article" "pagination" (JStr "") ;;
  journal_abbrev <-? fieldOr itemData "article" "journal_abbrev" (JStr "") ;;
  Ok {| pi_title := title; pi_journal := journal; pi_authors := authors;
        pi_tags := tags; pi_rating := rating; pi_abstract := abstract;
        pi_collection_id := collection_id; pi_year := year; pi_id := id;
        pi_notes := notes; pi_annotations := []; pi_issn := issn;
        pi_volume := volume; pi_url := url; pi_pagination := pagination;
        pi_journal_abbrev := journal_abbrev |}.

(** [f] on every element, from left to right, up to the first throw. *)
Fixpoint mapR {A B} (f : A -> Result B) (xs : list A) : Result (list B) :=
  match xs with
  | [] => Ok []
  | x :: xs' =>
      b <-? f x ;;
      bs <-? mapR f xs' ;;
      Ok (b :: bs)
  end.

(** ** The requests *)

(** What [console.log] is called with. *)
Inductive ConsoleEntry : Type :=
| LogFetching
| LogProgress (n : nat) (total : JSValue).

(** The server and the console. *)
Record Net (Server : Type) : Type := {
  net_server : Server;
  net_console : list ConsoleEntry
}.
Arguments net_server {Server} _.
Arguments net_console {Server} _.

(** The state after [console.log], and after an answer of the server. *)
Definition logged {Server} (e : ConsoleEntry) (n : Net Server) : Net Server :=
  {| net_server := net_server n; net_console := (net_console n ++ [e])%list |}.

Definition answered {Server} (s : Server) (n : Net Server) : Net Server :=
  {| net_server := s; net_console := net_console n |}.

Section PapersLib.

Variable Server : Type.

(** [fetch(url, {headers: {cookie}})] followed by [response.json()]: the
    body of the answer, or a rejection. *)
Variable fetchJson : string -> JSValue -> M Server JSValue.

(** [Number::toString]. *)
Variable numberToString : float -> string.

(** The constructor argument. *)
Variable cookie : JSValue.

(** [ToString], as a template literal applies it. *)
Fixpoint toStringJS (v : JSValue) : string :=
  match v with
  | JUndefined => "undefined"
  | JNull => "null"
  | JBool true => "true"
  | JBool false => "false"
  | JNum n => numberToString n
  | JStr s => s
  | JArr xs =>
      String.concat ","
        (map (fun x => match x with
                       | JUndefined | JNull => ""
                       | _ => toStringJS x
                       end) xs)
  | JObj _ => "[object Object]"
  end.

Definition fetch (requestUrl : string) : M (Net Server) JSValue :=
  fun n =>
    let '(r, s') := fetchJson requestUrl cookie (net_server n) in
    (r, answered s' n).

Definition consoleLog (e : ConsoleEntry) : M (Net Server) unit :=
  modify (logged e).

Definition collectionsUrl : string := "https://sync.readcube.com/collections/".

Definition getCollections : M (Net Server) (list CollectionItem) :=
  resJson <- fetch collectionsUrl ;;
  ok <- (if truthy resJson then
           status <- liftR (getProp resJson "status") ;;
           ret (strictEqStr status "ok")
         else ret false) ;;
  if ok then
    collections <- liftR (getProp resJson "collections") ;;
    items <- liftR (iterate collections) ;;
    foldM (fun results item =>
             i <- liftR (getProp item "id") ;;
             ret (results ++ [{| col_id := i |}])%list)
      [] items
  else ret [].

Definition firstPageUrl (collection_id : JSValue) : string :=
  "https://sync.readcube.com/collections/" ++ toStringJS collection_id
    ++ "/items?size=50".

Definition nextPageUrl (collection_id scroll_id : JSValue) : string :=
  "https://sync.readcube.com/collections/" ++ toStringJS collection_id
    ++ "/items?sort%5B%5D=title,asc&size=50&scroll_id=" ++ toStringJS scroll_id.

(** The [while (true)] loop of [getItems]; [None] when [fuel] rounds were
    not enough to leave it. *)
Fixpoint getItemsLoop (fuel : nat) (collection_id : JSValue) (requestUrl : string)
    (results : list PaperItem) : M (Net Server) (option (list PaperItem)) :=
  match fuel with
  | O => ret None
  | S fuel' =>
      consoleLog LogFetching ;;;
      resJson <- fetch requestUrl ;;
      status <- liftR (getProp resJson "status") ;;
      if strictEqStr status "ok" then
        items <- liftR (getProp resJson "items") ;;
        its <- liftR (iterate items) ;;
        results' <- foldM (fun acc item =>
                             p <- liftR (parseItemJson item collection_id) ;;
                             ret (acc ++ [p])%list)
                      results its ;;
        total <- liftR (getProp resJson "total") ;;
        consoleLog (LogProgress (length results') total) ;;;
        if negb (lengthOf items =? 0)%nat then
          scroll_id <- liftR (getProp resJson "scroll_id") ;;
          getItemsLoop fuel' collection_id (nextPageUrl collection_id scroll_id) results'
        else ret (Some results')
      else ret (Some results)
  end.

Definition getItems (fuel : nat) (collection_id : JSValue)
  : M (Net Server) (option (list PaperItem)) :=
  getItemsLoop fuel collection_id (firstPageUrl collection_id) [].

Definition itemUrl (collection_id item_id : JSValue) : string :=
  "https://sync.readcube.com/collections/" ++ toStringJS collection_id
    ++ "/items/" ++ toStringJS item_id.

(** [None] is [null]. *)
Definition getItem (collection_id item_id : JSValue)
  : M (Net Server) (option PaperItem) :=
  resJson <- fetch (itemUrl collection_id item_id) ;;
  status <- liftR (getProp resJson "status") ;;
  if strictEqStr status "ok" then
    item <- liftR (getProp resJson "item") ;;
    p <- liftR (parseItemJson item collection_id) ;;
    ret (Some p)
  else ret None.

Definition annotationsUrl (collection_id item_id : JSValue) : string :=
  itemUrl collection_id item_id ++ "/annotations".

Definition annotationOf (anno : JSValue) : Result AnnotationItem :=
  i <-? getProp anno "id" ;;
  ty <-? getProp anno "type" ;;
  text <-? getProp anno "text" ;;
  note <-? getProp anno "note" ;;
  color_id <-? getProp anno "color_id" ;;
  Ok {| an_id := i; an_type := ty; an_text := text; an_note := note;
        an_color_id := color_id |}.

Definition getAnnotation (collection_id item_id : JSValue)
  : M (Net Server) (list AnnotationItem) :=
  resJson <- fetch (annotationsUrl collection_id item_id) ;;
  status <- liftR (getProp resJson "status") ;;
  if strictEqStr status "ok" then
    annotations <- liftR (getProp resJson "annotations") ;;
    items <- liftR (iterate annotations) ;;
    foldM (fun results anno =>
             a <- liftR (annotationOf anno) ;;
             ret (results ++ [a])%list)
      [] items
  else ret [].

(** The annotation read from an element that is not [null]. *)
Definition annotationFields (anno : JSValue) : AnnotationItem :=
  {| an_id := fieldValue anno "id" JUndefined;
     an_type := fieldValue anno "type" JUndefined;
     an_text := fieldValue anno "text" JUndefined;
     an_note := fieldValue anno "note" JUndefined;
     an_color_id := fieldValue anno "color_id" JUndefined |}.

(** *** Answers of the server, as the statements name them *)

(** The answer has [status === 'ok']. *)
Definition okStatus (resJson : JSValue) : bool :=
  match getProp resJson "status" with
  | Ok status => strictEqStr status "ok"
  | Throw _ => false
  end.

(** The items of a page, when they are an array. *)
Definition pageItems (resJson : JSValue) : list JSValue :=
  match getProp resJson "items" with
  | Ok (JArr xs) => xs
  | _ => []
  end.

Definition scrollOf (resJson : JSValue) : JSValue :=
  match getProp resJson "scroll_id" with
  | Ok v => v
  | Throw _ => JUndefined
  end.

(** A page that lets [getItems] go on: status ok and at least one item,
    every item one that [parseItemJson] accepts. *)
Definition fullPage (collection_id : JSValue) (resJson : JSValue)
    (parsed : list PaperItem) : Prop :=
  okStatus resJson = true /\ pageItems resJson <> [] /\
  mapR (fun item => parseItemJson item collection_id) (pageItems resJson) = Ok parsed.

(** A page that ends the loop: a status other than ok, or no item. *)
Definition lastPage (resJson : JSValue) : Prop :=
  (exists status, getProp resJson "status" = Ok status) /\
  (okStatus resJson = false \/ getProp resJson "items" = Ok (JArr [])).

(** Asked [requestUrl] in state [s], the server answers with the first of
    [pages]; asked then for the page after it, with the second; and so on,
    then with [stop], which leaves it in state [s']. *)
Fixpoint serves (collection_id : JSValue) (s : Server) (requestUrl : string)
    (pages : list JSValue) (stop : JSValue) (s' : Server) : Prop :=
  match pages with
  | [] => fetchJson requestUrl cookie s = (Ok stop, s')
  | p :: ps =>
      exists s1, fetchJson requestUrl cookie s = (Ok p, s1) /\
        serves collection_id s1 (nextPageUrl collection_id (scrollOf p)) ps stop s'
  end.

(** [collections[0].id] throws when there is no collection. *)
Definition getAllItems (fuel : nat) : M (Net Server) (option (list PaperItem)) :=
  collections <- getCollections ;;
  match collections with
  | [] => throw TypeError
  | c :: _ => getItems fuel (col_id c)
  end.

End PapersLib.

(** ** Sample answers and servers *)

Definition samplePaperJson : JSValue :=
  JObj (list_to_map
    [("id", JStr "p1");
     ("collection_id", JStr "elsewhere");
     ("article", JObj (list_to_map
        [("title", JStr "On blocks"); ("journal", JNull); ("year", JNum 2020%float)]));
     ("user_data", JObj (list_to_map
        [("rating", JNum 0%float); ("tags", JArr [JStr "cm"])]))]).

(** What [parseItemJson] makes of the sample for the collection [c1]. *)
Definition samplePaper : PaperItem :=
  {| pi_title := JStr "On blocks"; pi_journal := JNull; pi_authors := JArr [];
     pi_tags := JArr [JStr "cm"]; pi_rating := JNum (-1)%float;
     pi_abstract := JStr ""; pi_collection_id := JStr "c1";
     pi_year := JNum 2020%float; pi_id := JStr "p1"; pi_notes := JStr "";
     pi_annotations := []; pi_issn := JStr ""; pi_volume := JStr "";
     pi_url := JStr ""; pi_pagination := JStr ""; pi_journal_abbrev := JStr "" |}.

Definition itemsPage (items : list JSValue) (scroll_id : string) : JSValue :=
  JObj (list_to_map
    [("status", JStr "ok"); ("items", JArr items);
     ("scroll_id", JStr scroll_id); ("total", JNum 1%float)]).

Definition errorAnswer : JSValue :=
  JObj (list_to_map [("status", JStr "error")]).

(** A server that answers from a script, one answer per request. *)
Definition scriptedFetch (requestUrl : string) (cookie : JSValue)
  : M (list JSValue) JSValue :=
  fun s =>
    match s with
    | [] => (Throw (CallbackError "fetch"), [])
    | a :: rest => (Ok a, rest)
    end.

(** A server that gives every request the same answer. *)
Definition constantFetch (body : JSValue) (requestUrl : string) (cookie : JSValue)
  : M unit JSValue :=
  fun s => (Ok body, s).

Definition sampleNumberToString (n : float) : string := "0".

Definition freshNet {Server} (s : Server) : Net Server :=
  {| net_server := s; net_console := [] |}.

(** * The block-marker engine, continued *)

(** ** Tokens on the lines of a range *)

(** The pattern, read at [lastIndex] 0, finds its token on line [i]
    ([undefined] is read as the text "undefined"). *)
Definition lineTests (re : RegExp) (lines : list string) (i : Z) : bool :=
  fst (test re (toStr (docLine lines i)) 0).

(** The two ends of the range are lines of the document that hold the begin
    and the end token, no line between them holds the end token, and the
    matches of the range are those of its two end lines. *)
Record tokensAt (startRe endRe : RegExp) (lines : list string) (r : BlockRange)
  : Prop := {
  ta_begin : lineTests startRe lines (from r) = true;
  ta_end : lineTests endRe lines (to r) = true;
  ta_between : forall l, from r < l < to r -> lineTests endRe lines l = false;
  ta_beginMatch :
    exists s, docLine lines (from r) = Some s /\
              beginMatch r = fst (strMatch s startRe 0);
  ta_endMatch :
    exists s, docLine lines (to r) = Some s /\
              endMatch r = fst (strMatch s endRe 0)
}.

(** What the scanner knows of the block that is open before line [k]. *)
Definition openAt (startRe endRe : RegExp) (lines : list string) (k : Z)
    (st : ScanState) : Prop :=
  meetBeginToken st = true ->
  lineTests startRe lines (prevBeginTokenLineNumber st) = true /\
  (forall l, prevBeginTokenLineNumber st < l < k -> lineTests endRe lines l = false) /\
  exists s, docLine lines (prevBeginTokenLineNumber st) = Some s /\
            curBeginMatch st = fst (strMatch s startRe 0).

(** What holds of the ranges and of the open block before line [k] is
    read. *)
Definition TokenInv (startRe endRe : RegExp) (lines : list string) (k : Z)
    (st : ScanState) : Prop :=
  Forall (tokensAt startRe endRe lines) (blockRangeList st) /\
  openAt startRe endRe lines k st.

(** ** The edit button of a rendered block

    [editButton.onclick] of [setStyleAndLogical]. *)

(** The host keeps positions inside the document. *)
Definition clipPos (lines : list string) (p : Pos) : Pos :=
  let len l := Z.of_nat (String.length (default "" (docLine lines l))) in
  if line p <? 0 then {| line := 0; ch := 0 |}
  else
    let last := lineCountOf lines - 1 in
    if last <? line p then {| line := last; ch := len last |}
    else if len (line p) <? ch p then {| line := line p; ch := len (line p) |}
    else if ch p <? 0 then {| line := line p; ch := 0 |}
    else p.

(** [doc.setSelection(anchor, head)]: one selection, the cursor at its
    head. *)
Definition setSelection (anchor head : Pos) (ed : Editor) : Editor :=
  let a := clipPos (ed_lines ed) anchor in
  let h := clipPos (ed_lines ed) head in
  {| ed_lines := ed_lines ed; ed_viewport := ed_viewport ed;
     ed_cursor := h; ed_selections := [(a, h)];
     ed_markers := ed_markers ed; ed_widgets := ed_widgets ed;
     ed_log := ed_log ed |}.

(** The handler, for the marker [textMarker] of the block. An index
    without marker stands for a falsy [textMarker]. *)
Definition editButtonClick (textMarker : nat) : M Editor unit :=
  ed <- get ;;
  match ed_markers ed !! textMarker with
  | None => ret tt
  | Some m =>
      match markerFind m with
      | None => throw TypeError
      | Some (from, to) =>
          modify (clearMarker textMarker) ;;;
          match docLine (ed_lines ed) (line to - 1) with
          | None => throw TypeError
          | Some text =>
              modify (setSelection
                        {| line := line from + 1; ch := 0 |}
                        {| line := line to - 1;
                           ch := Z.of_nat (String.length text) |})
          end
      end
  end.



(** * The renderers of tasks and of headings

    [markdownRenderTasks] and [markdownRenderHTags] drive the editor through
    its interface only; the editor is a parameter here, and what the
    renderers ask of it is recorded. *)

(** The element a marker is replaced with: the checkbox of a task, or the
    tag of a heading ([div.heading-tag] around a [span] with the text). *)
Inductive Replaced : Type :=
| Checkbox (checked disabled : bool)
| HeadingTag (textContent : string).

(** One call of [cm.markText(from, to, {replacedWith, ...})]. *)
Record MarkCall : Type := {
  mc_from : Pos;
  mc_to : Pos;
  mc_replacedWith : Replaced
}.

(** The editor, the [lastIndex] of the pattern of the renderer, and the
    calls of [markText] made so far. *)
Record RenderState (Host : Type) : Type := {
  rs_host : Host;
  rs_lastIndex : nat;
  rs_calls : list MarkCall
}.
Arguments rs_host {Host} _.
Arguments rs_lastIndex {Host} _.
Arguments rs_calls {Host} _.

Section Renderers.

Variable Host : Type.

(** The editor: [cm.lineCount()], [cm.getViewport()], [cm.getLine(i)],
    [cm.getModeAt(pos).name], [cm.isReadOnly()], [canRenderElement(cm, from,
    to, flag)] (a function of [utils], taken to read the editor only),
    [cm.markText], [textMarker.on('hide', ...)] and
    [cm.on('optionChange', ...)]. *)
Variable lineCount : Host -> Z.
Variable getViewport : Host -> Viewport.
Variable getLine : Host -> Z -> option string.
Variable getModeName : Host -> Pos -> string.
Variable isReadOnly : Host -> bool.
Variable canRenderElement : Host -> Pos -> Pos -> bool -> bool.
Variable markText : Pos -> Pos -> Replaced -> M Host nat.
Variable onHide : nat -> M Host unit.
Variable onOptionChange : nat -> M Host unit.

(** [getTaskRE()] and [getHeadRE()]. *)
Variable taskRE : RegExp.
Variable headRE : RegExp.

Definition onHost {A} (m : M Host A) : M (RenderState Host) A :=
  fun st =>
    let '(r, h) := m (rs_host st) in
    (r, {| rs_host := h; rs_lastIndex := rs_lastIndex st; rs_calls := rs_calls st |}).

Definition hostMarkText (from to : Pos) (el : Replaced) : M (RenderState Host) nat :=
  fun st =>
    let '(r, h) := markText from to el (rs_host st) in
    (r, {| rs_host := h; rs_lastIndex := rs_lastIndex st;
           rs_calls := (rs_calls st ++
                          [{| mc_from := from; mc_to := to;
                              mc_replacedWith := el |}])%list |}).

(** [re.lastIndex = 0; match = re.exec(line)]. *)
Definition execFromStart (re : RegExp) (l : option string)
  : M (RenderState Host) (option Match) :=
  fun st =>
    let '(m, li) := regexpExec re (toStr l) 0 in
    (Ok (option_map (matchArray (toStr l)) m),
     {| rs_host := rs_host st; rs_lastIndex := li; rs_calls := rs_calls st |}).

(** The window of a pass: the viewport, or the first lines of the
    document. *)
Definition renderWindow (viewPort : bool) (h : Host) : Z * Z :=
  if viewPort then (vp_from (getViewport h), vp_to (getViewport h))
  else (0, Z.min 60 (lineCount h)).

(** The body of the loop of [markdownRenderTasks], at line [i]. *)
Definition renderTaskLine (viewPort : bool) (i : Z) : M (RenderState Host) unit :=
  st <- get ;;
  let h := rs_host st in
  if negb (String.eqb (getModeName h {| line := i; ch := 0 |}) "markdown") then ret tt
  else
    m <- execFromStart taskRE (getLine h i) ;;
    match m with
    | None => ret tt
    | Some arr =>
        match arr !! 1%nat with
        | None => throw TypeError
        | Some spaces =>
            let leadingSpaces := Z.of_nat (String.length spaces) in
            let curFrom := {| line := i; ch := 0 + leadingSpaces |} in
            let curTo := {| line := i; ch := 5 + leadingSpaces |} in
            if negb (canRenderElement h curFrom curTo (negb viewPort)) then ret tt
            else
              let checked :=
                match arr !! 3%nat with
                | Some mark => String.eqb mark "x"
                | None => false
                end in
              let cbox := Checkbox checked (isReadOnly h) in
              textMarker <- hostMarkText curFrom curTo cbox ;;
              onHost (onHide textMarker) ;;;
              onHost (onOptionChange textMarker)
        end
    end.

(** [for (let i = fromLine; i <= toLine; i++)]. *)
Definition markdownRenderTasks (viewPort : bool) : M (RenderState Host) unit :=
  st <- get ;;
  let '(fromLine, toLine) := renderWindow viewPort (rs_host st) in
  forEach (renderTaskLine viewPort) (zrange fromLine (toLine + 1)).

(** The body of the loop of [markdownRenderHTags], at line [i]. *)
Definition renderHeadingLine (viewPort : bool) (i : Z) : M (RenderState Host) unit :=
  st <- get ;;
  let h := rs_host st in
  if negb (String.eqb (getModeName h {| line := i; ch := 0 |}) "markdown") then ret tt
  else
    m <- execFromStart headRE (getLine h i) ;;
    match m with
    | None => ret tt
    | Some arr =>
        match arr !! 1%nat with
        | None => throw TypeError
        | Some hashes =>
            let headingLevel := String.length hashes in
            let curFrom := {| line := i; ch := 0 |} in
            let curTo := {| line := i; ch := Z.of_nat headingLevel |} in
            if negb (canRenderElement h curFrom curTo (negb viewPort)) then ret tt
            else
              let hTagWrapper := HeadingTag ("h" ++ pretty headingLevel) in
              textMarker <- hostMarkText curFrom curTo hTagWrapper ;;
              ret tt
        end
    end.

(** [for (let i = fromLine; i < toLine; i++)]. *)
Definition markdownRenderHTags (viewPort : bool) : M (RenderState Host) unit :=
  st <- get ;;
  let '(fromLine, toLine) := renderWindow viewPort (rs_host st) in
  forEach (renderHeadingLine viewPort) (zrange fromLine toLine).

End Renderers.

(** What a call of [markText] by the task renderer looks like: five
    columns of the line [i], a checkbox in their place. *)
Definition taskCall (i : Z) (c : MarkCall) : Prop :=
  line (mc_from c) = i /\ line (mc_to c) = i /\
  0 <= ch (mc_from c) /\ ch (mc_to c) = ch (mc_from c) + 5 /\
  exists checked disabled, mc_replacedWith c = Checkbox checked disabled.

(** What a call of [markText] by the heading renderer looks like: the
    first columns of the line [i], the tag with their number in their
    place. *)
Definition headingCall (i : Z) (c : MarkCall) : Prop :=
  line (mc_from c) = i /\ line (mc_to c) = i /\
  ch (mc_from c) = 0 /\
  exists level : nat, ch (mc_to c) = Z.of_nat level /\
    mc_replacedWith c = HeadingTag ("h" ++ pretty level).

(** The two states hold the same editor and the same calls. *)
Definition sameButLastIndex {Host} (a b : RenderState Host) : Prop :=
  rs_host a = rs_host b /\ rs_calls a = rs_calls b.

(** The calls follow the lines: one after the other, each on a later line
    than the one before, all on lines of [[lo, hi)]. *)
Definition ascending (P : Z -> MarkCall -> Prop) (lo hi : Z) (new : list MarkCall)
  : Prop :=
  StronglySorted (fun a b => line (mc_from a) < line (mc_from b)) new /\
  Forall (fun c => exists i, lo <= i < hi /\ line (mc_from c) = i /\ P i c) new.

(** ** What the renderers mark, read off the editor *)

Section RendererViews.

Variable Host : Type.
Variable getLine : Host -> Z -> option string.
Variable getModeName : Host -> Pos -> string.
Variable isReadOnly : Host -> bool.
Variable canRenderElement : Host -> Pos -> Pos -> bool -> bool.
Variable markText : Pos -> Pos -> Replaced -> M Host nat.
Variable onHide : nat -> M Host unit.
Variable onOptionChange : nat -> M Host unit.

(** The marker of the task on line [i], when the line is in markdown mode,
    holds a task and can be rendered. *)
Definition taskCallAt (taskRE : RegExp) (viewPort : bool) (h : Host) (i : Z)
  : option MarkCall :=
  if negb (String.eqb (getModeName h {| line := i; ch := 0 |}) "markdown") then None
  else
    match fst (regexpExec taskRE (toStr (getLine h i)) 0) with
    | None => None
    | Some md =>
        match matchArray (toStr (getLine h i)) md !! 1%nat with
        | None => None
        | Some spaces =>
            let leadingSpaces := Z.of_nat (String.length spaces) in
            let curFrom := {| line := i; ch := 0 + leadingSpaces |} in
            let curTo := {| line := i; ch := 5 + leadingSpaces |} in
            if negb (canRenderElement h curFrom curTo (negb viewPort)) then None
            else
              Some {| mc_from := curFrom; mc_to := curTo;
                      mc_replacedWith :=
                        Checkbox
                          match matchArray (toStr (getLine h i)) md !! 3%nat with
                          | Some mark => String.eqb mark "x"
                          | None => false
                          end
                          (isReadOnly h) |}
        end
    end.

(** The marker of the heading on line [i]. *)
Definition headingCallAt (headRE : RegExp) (viewPort : bool) (h : Host) (i : Z)
  : option MarkCall :=
  if negb (String.eqb (getModeName h {| line := i; ch := 0 |}) "markdown") then None
  else
    match fst (regexpExec headRE (toStr (getLine h i)) 0) with
    | None => None
    | Some md =>
        match matchArray (toStr (getLine h i)) md !! 1%nat with
        | None => None
        | Some hashes =>
            let curFrom := {| line := i; ch := 0 |} in
            let curTo := {| line := i; ch := Z.of_nat (String.length hashes) |} in
            if negb (canRenderElement h curFrom curTo (negb viewPort)) then None
            else
              Some {| mc_from := curFrom; mc_to := curTo;
                      mc_replacedWith :=
                        HeadingTag ("h" ++ pretty (String.length hashes)) |}
        end
    end.

(** The editor [h'] reads as the editor [h] does. *)
Definition sameReads (h h' : Host) : Prop :=
  (forall i, getLine h' i = getLine h i) /\
  (forall p, getModeName h' p = getModeName h p) /\
  isReadOnly h' = isReadOnly h /\
  (forall a b f, canRenderElement h' a b f = canRenderElement h a b f).

(** Marking and registering a handler return, and change nothing of what the
    renderers read. *)
Definition quietHost : Prop :=
  (forall a b el h, exists textMarker h',
      markText a b el h = (Ok textMarker, h') /\ sameReads h h') /\
  (forall textMarker h, exists h',
      onHide textMarker h = (Ok tt, h') /\ sameReads h h') /\
  (forall textMarker h, exists h',
      onOptionChange textMarker h = (Ok tt, h') /\ sameReads h h').

End RendererViews.

(** Every match of the pattern has a first group. *)
Definition hasFirstGroup (re : RegExp) : Prop :=
  forall s md, fst (regexpExec re s 0) = Some md ->
    is_Some (matchArray s md !! 1%nat).

(** ** A sample editor for the renderers *)

(** A pattern for [- [ ]] and [- [x]] at the start of a line, with the
    groups of the task pattern: the leading blanks (none here), the list
    sign and the mark. *)
Definition sampleTaskMatcher (s : string) (i : nat) : option (nat * list string) :=
  if negb (i =? 0)%nat then None
  else if String.prefix "- [x]" s then Some (5%nat, [""; "-"; "x"])
  else if String.prefix "- [ ]" s then Some (5%nat, [""; "-"; " "])
  else None.

Definition sampleTaskRE : RegExp :=
  {| re_matcher := sampleTaskMatcher; re_global := true; re_sticky := false |}.

(** An editor that is its lines, in markdown mode, writable, that lets
    every element be rendered and records nothing. *)
Definition linesMarkText (from to : Pos) (el : Replaced) : M (list string) nat :=
  fun h => (Ok O, h).

Definition linesRegister (textMarker : nat) : M (list string) unit :=
  fun h => (Ok tt, h).

(** A pattern for [# ] and [## ] at the start of a line; its group is the
    run of hash signs. *)
Definition sampleHeadMatcher (s : string) (i : nat) : option (nat * list string) :=
  if negb (i =? 0)%nat then None
  else if String.prefix "# " s then Some (2%nat, ["#"])
  else if String.prefix "## " s then Some (3%nat, ["##"])
  else None.

Definition sampleHeadRE : RegExp :=
  {| re_matcher := sampleHeadMatcher; re_global := true; re_sticky := false |}.

Definition sampleNote : list string :=
  ["## Tasks"; "- [x] done"; "text"; "- [ ] open"].

(** * Properties of the scanner *)

Lemma zrange_nil lo hi : hi <= lo -> zrange lo hi = [].
Proof.
  intros H. unfold zrange. replace (Z.to_nat (hi - lo)) with O by lia. reflexivity.
Qed.

Lemma zrange_cons lo hi : lo < hi -> zrange lo hi = lo :: zrange (lo + 1) hi.
Proof.
  intros H. unfold zrange.
  replace (Z.to_nat (hi - lo)) with (S (Z.to_nat (hi - (lo + 1)))) by lia.
  simpl. f_equal; [lia|].
  rewrite <- seq_shift, map_map. apply map_ext. intros k. lia.
Qed.

(** Induction over the index set of a counting loop. *)
Lemma zrange_ind (hi : Z) (P : Z -> list Z -> Prop) :
  (forall lo, hi <= lo -> P lo []) ->
  (forall lo, lo < hi -> P (lo + 1) (zrange (lo + 1) hi) -> P lo (lo :: zrange (lo + 1) hi)) ->
  forall lo, P lo (zrange lo hi).
Proof.
  intros Hnil Hcons lo.
  remember (Z.to_nat (hi - lo)) as n eqn:Hn.
  revert lo Hn. induction n as [|n IH]; intros lo Hn.
  - rewrite zrange_nil by lia. apply Hnil. lia.
  - rewrite zrange_cons by lia. apply Hcons; [lia|]. apply IH. lia.
Qed.

Lemma docLine_Some lines i : 0 <= i < lineCountOf lines -> exists s, docLine lines i = Some s.
Proof.
  unfold docLine, lineCountOf. intros [H0 H1].
  destruct (Z.ltb_spec i 0); [lia|].
  destruct (lookup_lt_is_Some_2 lines (Z.to_nat i)) as [s Hs]; [lia|]. eauto.
Qed.

Section ScannerFacts.
Variables (startRe endRe : RegExp) (lines : list string).

Local Abbreviation step := (scanStep startRe endRe lines).


Lemma ScanInv_mono k k' st : k <= k' -> ScanInv k st -> ScanInv k' st.
Proof.
  intros Hk [H1 H2 H3]. split; [done| |].
  - eapply Forall_impl; [exact H2|]. simpl. intros; lia.
  - intros Hm. destruct (H3 Hm). split; [lia|done].
Qed.

Lemma ScanInv_init sli eli : ScanInv 0 (initScan sli eli).
Proof. split; simpl; [constructor|constructor|discriminate]. Qed.

Lemma scanStep_inv fromLine i st :
  0 <= i -> ScanInv i st -> ScanInv (i + 1) (snd (step fromLine i st)).
Proof.
  intros Hi [H1 H2 H3]. unfold scanStep.
  destruct (meetBeginToken st) eqn:Hm; simpl.
  - (* inside a block *)
    destruct (H3 eq_refl) as [Hp Hlt].
    unfold bind, testEnd. destruct (test endRe _ _) as [b n]. simpl.
    assert (ScanInv (i + 1) (setEndLastIndex n st)) as Hst.
    { split; simpl; [done| |].
      - eapply Forall_impl; [exact H2|]. simpl; intros; lia.
      - rewrite Hm. intros _. split; [lia|done]. }
    destruct b; [|exact Hst].
    destruct (fromLine <=? i).
    + unfold matchEnd. destruct (docLine lines i) as [s|]; simpl; [|exact Hst].
      destruct (strMatch s endRe n) as [m n']. simpl.
      split; simpl; [| |discriminate].
      * apply StronglySorted_app_2; [|done|repeat constructor].
        intros x1 x2 Hx1 Hx2. apply list_elem_of_singleton in Hx2. subst x2. simpl.
        rewrite Forall_forall in Hlt. by apply Hlt.
      * apply Forall_app. split.
        -- eapply Forall_impl; [exact H2|]. simpl; intros; lia.
        -- repeat constructor; simpl; lia.
    + simpl. split; simpl; [done| |discriminate].
      eapply Forall_impl; [exact H2|]. simpl; intros; lia.
  - (* outside *)
    unfold bind, testStart. destruct (test startRe _ _) as [b n]. simpl.
    assert (ScanInv (i + 1) (setStartLastIndex n st)) as Hst.
    { split; simpl; [done| |].
      - eapply Forall_impl; [exact H2|]. simpl; intros; lia.
      - rewrite Hm. discriminate. }
    destruct b; [|exact Hst].
    unfold matchStart. destruct (docLine lines i) as [s|]; simpl; [|exact Hst].
    destruct (strMatch s startRe n) as [m n']. simpl.
    split; simpl; [done| |].
    + eapply Forall_impl; [exact H2|]. simpl; intros; lia.
    + intros _. split; [lia|].
      eapply Forall_impl; [exact H2|]. simpl; intros; lia.
Qed.

Lemma scanLoop_inv fromLine hi lo st :
  0 <= lo -> ScanInv lo st ->
  ScanInv (Z.max lo hi) (snd (forEach (step fromLine) (zrange lo hi) st)).
Proof.
  revert st. pattern lo, (zrange lo hi). apply zrange_ind; clear lo.
  - intros lo Hle st H0 Hinv. simpl. eapply ScanInv_mono; [|exact Hinv]. lia.
  - intros lo Hlt IH st H0 Hinv. simpl. unfold bind at 1.
    pose proof (scanStep_inv fromLine lo st H0 Hinv) as Hs.
    destruct (step fromLine lo st) as [[[]|e] st']; simpl in *.
    + replace (Z.max lo hi) with (Z.max (lo + 1) hi) by lia. apply IH; [lia|done].
    + eapply ScanInv_mono; [|exact Hs]. lia.
Qed.

End ScannerFacts.


Lemma forEach_cons {S A} (body : A -> M S unit) x xs s :
  forEach body (x :: xs) s =
    match body x s with
    | (Ok _, s') => forEach body xs s'
    | (Throw e, s') => (Throw e, s')
    end.
Proof. reflexivity. Qed.

(** ** Patterns without the [g] and [y] flags keep no state *)

Lemma stateless_flags r :
  re_stateful r = false -> re_global r = false /\ re_sticky r = false.
Proof. unfold re_stateful. destruct (re_global r), (re_sticky r); auto. Qed.

Lemma regexpExec_stateless r s n :
  re_stateful r = false -> regexpExec r s n = (fst (regexpExec r s 0), n).
Proof.
  intros H. destruct (stateless_flags r H) as [Hg Hy].
  unfold regexpExec. rewrite H, Hg, Hy. cbv beta iota zeta.
  destruct (Nat.ltb_spec (String.length s) 0); [lia|].
  generalize (searchFrom r s (S (String.length s) - 0) 0%nat).
  intros [[[i e] caps]|]; reflexivity.
Qed.

Lemma test_stateless r s n :
  re_stateful r = false -> test r s n = (fst (test r s 0), n).
Proof.
  intros H. unfold test. rewrite (regexpExec_stateless r s n H).
  destruct (regexpExec r s 0) as [m k]. reflexivity.
Qed.

Lemma strMatch_stateless r s n :
  re_stateful r = false -> strMatch s r n = (fst (strMatch s r 0), n).
Proof.
  intros H. destruct (stateless_flags r H) as [Hg Hy].
  unfold strMatch. rewrite Hg. rewrite (regexpExec_stateless r s n H).
  destruct (regexpExec r s 0) as [m k]. reflexivity.
Qed.

(** Move every [lastIndex] argument of a stateless pattern out of the way. *)
Ltac stateless :=
  repeat match goal with
    | |- context [test ?r ?s ?n] =>
        lazymatch n with
        | O => fail
        | _ => rewrite (test_stateless r s n) by assumption
        end
    | |- context [strMatch ?s ?r ?n] =>
        lazymatch n with
        | O => fail
        | _ => rewrite (strMatch_stateless r s n) by assumption
        end
    end.

Section StatelessScan.
Variables (startRe endRe : RegExp) (lines : list string).
Hypothesis Hstart : re_stateful startRe = false.
Hypothesis Hend : re_stateful endRe = false.

Local Abbreviation step := (scanStep startRe endRe lines).


(** The step of the bounded loop on a line of the document, for patterns
    without state. *)
Lemma scanStep_stateless fromLine i s st :
  docLine lines i = Some s ->
  step fromLine i st =
    (Ok tt,
     if meetBeginToken st then
       if fst (test endRe s 0) then
         if fromLine <=? i
         then closeBlock (pushRange i (fst (strMatch s endRe 0)) st)
         else closeBlock st
       else st
     else
       if fst (test startRe s 0)
       then openBlock i (fst (strMatch s startRe 0)) st
       else st).
Proof using Hstart Hend.
  intros Hl. destruct st as [l m p bm sl el].
  unfold scanStep, bind, testStart, testEnd, matchStart, matchEnd, ret, modify.
  rewrite Hl. cbn [meetBeginToken startLastIndex endLastIndex toStr].
  destruct m; cbn [negb].
  - stateless. destruct (fst (test endRe s 0)); [|reflexivity].
    destruct (fromLine <=? i); cbn; [|reflexivity].
    stateless. reflexivity.
  - stateless. destruct (fst (test startRe s 0)); [|reflexivity].
    cbn. stateless. reflexivity.
Qed.

Lemma scanStep_lastIndex fromLine i st :
  startLastIndex (snd (step fromLine i st)) = startLastIndex st /\
  endLastIndex (snd (step fromLine i st)) = endLastIndex st.
Proof using Hstart Hend.
  destruct st as [l m p bm sl el].
  unfold scanStep, bind, testStart, testEnd, matchStart, matchEnd, ret, modify, throw.
  cbn [meetBeginToken startLastIndex endLastIndex].
  destruct m; cbn [negb].
  - stateless. destruct (fst (test endRe _ 0)); [|done].
    destruct (fromLine <=? i); cbn; [|done].
    destruct (docLine lines i) as [s|]; cbn; [|done].
    stateless. done.
  - stateless. destruct (fst (test startRe _ 0)); [|done].
    destruct (docLine lines i) as [s|]; cbn; [|done].
    stateless. done.
Qed.



End StatelessScan.

Lemma forEach_commute {S A} (body : A -> M S unit) (t : S -> S) (xs : list A) :
  (forall x s, body x (t s) = (fst (body x s), t (snd (body x s)))) ->
  forall s, forEach body xs (t s) = (fst (forEach body xs s), t (snd (forEach body xs s))).
Proof.
  intros Hb. induction xs as [|x xs IH]; intros s; [reflexivity|].
  rewrite !forEach_cons, Hb.
  destruct (body x s) as [[[]|e] s']; cbn [fst snd]; [apply IH|reflexivity].
Qed.

Section StatelessRuns.
Variables (startRe endRe : RegExp) (lines : list string).
Hypothesis Hstart : re_stateful startRe = false.
Hypothesis Hend : re_stateful endRe = false.

Lemma scanStep_withLastIndex fromLine sl el i st :
  scanStep startRe endRe lines fromLine i (withLastIndex sl el st) =
    (fst (scanStep startRe endRe lines fromLine i st),
     withLastIndex sl el (snd (scanStep startRe endRe lines fromLine i st))).
Proof using Hstart Hend.
  destruct st as [l m p bm sl0 el0].
  unfold scanStep, bind, testStart, testEnd, matchStart, matchEnd, ret, modify,
    throw, withLastIndex.
  cbn [meetBeginToken startLastIndex endLastIndex setStartLastIndex setEndLastIndex].
  destruct m; cbn [negb].
  - stateless. destruct (fst (test endRe _ 0)); [|reflexivity].
    destruct (fromLine <=? i); cbn; [|reflexivity].
    destruct (docLine lines i) as [s|]; cbn; [|reflexivity].
    stateless. reflexivity.
  - stateless. destruct (fst (test startRe _ 0)); [|reflexivity].
    destruct (docLine lines i) as [s|]; cbn; [|reflexivity].
    stateless. reflexivity.
Qed.

Lemma backoffLoop_withLastIndex sl el ixs st :
  backoffLoop endRe lines ixs (withLastIndex sl el st) =
    (fst (backoffLoop endRe lines ixs st),
     withLastIndex sl el (snd (backoffLoop endRe lines ixs st))).
Proof using Hend.
  revert st. induction ixs as [|i ixs IH]; intros st; [reflexivity|].
  destruct st as [l m p bm sl0 el0].
  cbn [backoffLoop]. unfold bind at 1 3 5, testEnd, withLastIndex.
  cbn [meetBeginToken startLastIndex endLastIndex setStartLastIndex setEndLastIndex].
  stateless. destruct (fst (test endRe _ 0)).
  - unfold bind, matchEnd, modify. destruct (docLine lines i) as [s|]; cbn; [|reflexivity].
    stateless. reflexivity.
  - cbn. apply (IH (Build_ScanState l m p bm sl0 el0)).
Qed.

Lemma scanRanges_withLastIndex viewport afterSetValue sl el st :
  scanRanges startRe endRe lines viewport afterSetValue (withLastIndex sl el st) =
    (fst (scanRanges startRe endRe lines viewport afterSetValue st),
     withLastIndex sl el (snd (scanRanges startRe endRe lines viewport afterSetValue st))).
Proof using Hstart Hend.
  unfold scanRanges. destruct (windowOf lines viewport afterSetValue) as [fromLine toLine].
  unfold bind at 1 3 5, scanMain.
  rewrite (forEach_commute _ (withLastIndex sl el)) by (intros; apply scanStep_withLastIndex).
  destruct (forEach _ _ st) as [[[]|e] st']; cbn [fst snd]; [|reflexivity].
  unfold bind, get. cbn [meetBeginToken withLastIndex setStartLastIndex setEndLastIndex].
  destruct (meetBeginToken st'); [|reflexivity].
  apply backoffLoop_withLastIndex.
Qed.

End StatelessRuns.

(** * The store primitives *)

Lemma clearMarker_markers i ed :
  ed_markers (clearMarker i ed) = alter clearedMarker i (ed_markers ed).
Proof.
  unfold clearMarker. destruct (ed_markers ed !! i) as [m|] eqn:Hm.
  - destruct (mk_cleared m) eqn:Hc; simpl.
    + symmetry. apply list_eq. intros k. destruct (decide (i = k)) as [->|].
      * rewrite list_lookup_alter_eq, Hm. simpl. f_equal.
        destruct m; simpl in *; by subst.
      * by rewrite list_lookup_alter_ne.
    + apply list_eq. intros k. destruct (decide (i = k)) as [->|].
      * rewrite list_lookup_alter_eq, Hm. simpl.
        apply list_lookup_insert_eq. by eapply lookup_lt_Some.
      * by rewrite list_lookup_alter_ne, list_lookup_insert_ne.
  - symmetry. apply list_eq. intros k. destruct (decide (i = k)) as [->|].
    + by rewrite list_lookup_alter_eq, Hm.
    + by rewrite list_lookup_alter_ne.
Qed.

Lemma clearWidget_widgets j ed :
  ed_widgets (clearWidget j ed) = alter clearedWidget j (ed_widgets ed).
Proof.
  unfold clearWidget. destruct (ed_widgets ed !! j) as [w|] eqn:Hw.
  - destruct (lw_cleared w) eqn:Hc; simpl.
    + symmetry. apply list_eq. intros k. destruct (decide (j = k)) as [->|].
      * rewrite list_lookup_alter_eq, Hw. simpl. f_equal.
        destruct w; simpl in *; by subst.
      * by rewrite list_lookup_alter_ne.
    + apply list_eq. intros k. destruct (decide (j = k)) as [->|].
      * rewrite list_lookup_alter_eq, Hw. simpl.
        apply list_lookup_insert_eq. by eapply lookup_lt_Some.
      * by rewrite list_lookup_alter_ne, list_lookup_insert_ne.
  - symmetry. apply list_eq. intros k. destruct (decide (j = k)) as [->|].
    + by rewrite list_lookup_alter_eq, Hw.
    + by rewrite list_lookup_alter_ne.
Qed.

Lemma updateNode_widgets j f mu ed :
  ed_widgets (updateNode j f mu ed) =
    alter (fun w => withNode (f (lw_node w)) w) j (ed_widgets ed).
Proof.
  unfold updateNode. destruct (ed_widgets ed !! j) as [w|] eqn:Hw; simpl.
  - apply list_eq. intros k. destruct (decide (j = k)) as [->|].
    + rewrite list_lookup_alter_eq, Hw. simpl.
      apply list_lookup_insert_eq. by eapply lookup_lt_Some.
    + by rewrite list_lookup_alter_ne, list_lookup_insert_ne.
  - symmetry. apply list_eq. intros k. destruct (decide (j = k)) as [->|].
    + by rewrite list_lookup_alter_eq, Hw.
    + by rewrite list_lookup_alter_ne.
Qed.

Lemma updateMarkerEl_markers i f mu ed :
  ed_markers (updateMarkerEl i f mu ed) = alter (withOptEl f) i (ed_markers ed).
Proof.
  unfold updateMarkerEl. destruct (ed_markers ed !! i) as [m|] eqn:Hm.
  - destruct (mk_replacedWith m) as [el|] eqn:Hel; simpl.
    + apply list_eq. intros k. destruct (decide (i = k)) as [->|].
      * rewrite list_lookup_alter_eq, Hm. simpl. unfold withOptEl. rewrite Hel.
        apply list_lookup_insert_eq. by eapply lookup_lt_Some.
      * by rewrite list_lookup_alter_ne, list_lookup_insert_ne.
    + symmetry. apply list_eq. intros k. destruct (decide (i = k)) as [->|].
      * rewrite list_lookup_alter_eq, Hm. simpl. unfold withOptEl. by rewrite Hel.
      * by rewrite list_lookup_alter_ne.
  - symmetry. apply list_eq. intros k. destruct (decide (i = k)) as [->|].
    + by rewrite list_lookup_alter_eq, Hm.
    + by rewrite list_lookup_alter_ne.
Qed.

(** The fields a primitive leaves alone. *)
Lemma clearMarker_frame i ed :
  ed_lines (clearMarker i ed) = ed_lines ed /\
  ed_viewport (clearMarker i ed) = ed_viewport ed /\
  ed_cursor (clearMarker i ed) = ed_cursor ed /\
  ed_selections (clearMarker i ed) = ed_selections ed /\
  ed_widgets (clearMarker i ed) = ed_widgets ed.
Proof.
  unfold clearMarker. destruct (ed_markers ed !! i) as [m|]; [|done].
  destruct (mk_cleared m); done.
Qed.

Lemma clearWidget_frame j ed :
  ed_lines (clearWidget j ed) = ed_lines ed /\
  ed_viewport (clearWidget j ed) = ed_viewport ed /\
  ed_cursor (clearWidget j ed) = ed_cursor ed /\
  ed_selections (clearWidget j ed) = ed_selections ed /\
  ed_markers (clearWidget j ed) = ed_markers ed.
Proof.
  unfold clearWidget. destruct (ed_widgets ed !! j) as [w|]; [|done].
  destruct (lw_cleared w); done.
Qed.

Lemma updateNode_frame j f mu ed :
  ed_lines (updateNode j f mu ed) = ed_lines ed /\
  ed_viewport (updateNode j f mu ed) = ed_viewport ed /\
  ed_cursor (updateNode j f mu ed) = ed_cursor ed /\
  ed_selections (updateNode j f mu ed) = ed_selections ed /\
  ed_markers (updateNode j f mu ed) = ed_markers ed.
Proof. unfold updateNode. destruct (ed_widgets ed !! j) as [w|]; done. Qed.

Lemma updateMarkerEl_frame i f mu ed :
  ed_lines (updateMarkerEl i f mu ed) = ed_lines ed /\
  ed_viewport (updateMarkerEl i f mu ed) = ed_viewport ed /\
  ed_cursor (updateMarkerEl i f mu ed) = ed_cursor ed /\
  ed_selections (updateMarkerEl i f mu ed) = ed_selections ed /\
  ed_widgets (updateMarkerEl i f mu ed) = ed_widgets ed.
Proof.
  unfold updateMarkerEl. destruct (ed_markers ed !! i) as [m|]; [|done].
  destruct (mk_replacedWith m); done.
Qed.

(** * The store queries *)

Lemma elem_of_findMarks fromP toP ed i :
  i ∈ findMarks fromP toP ed <->
  exists m, ed_markers ed !! i = Some m /\ markOverlaps fromP toP m = true.
Proof.
  unfold findMarks. rewrite list_elem_of_filter, elem_of_seq. unfold overlapsAt.
  split.
  - intros [H _]. destruct (ed_markers ed !! i) as [m|]; [eauto|done].
  - intros (m & Hm & Ho). rewrite Hm. split; [done|].
    apply lookup_lt_Some in Hm. lia.
Qed.

Lemma findLineWidgetAtLine_Some ed l cls j :
  findLineWidgetAtLine ed l cls = Some j <->
  exists w, ed_widgets ed !! j = Some w /\ widgetAt l cls w = true /\
    forall k v, ed_widgets ed !! k = Some v -> (k < j)%nat -> widgetAt l cls v = false.
Proof.
  unfold findLineWidgetAtLine. split.
  - intros H. destruct (list_find _ _) as [[k w]|] eqn:Hf; [|done].
    simpl in H. injection H as ->. apply list_find_Some in Hf as (Hw & Hp & Hmin).
    exists w. repeat split; [done..|]. intros k v Hk Hlt.
    specialize (Hmin k v Hk Hlt). by destruct (widgetAt l cls v).
  - intros (w & Hw & Hp & Hmin).
    assert (list_find (fun w => widgetAt l cls w = true) (ed_widgets ed) = Some (j, w)) as ->; [|done].
    apply list_find_Some. repeat split; [done..|].
    intros k v Hk Hlt. rewrite (Hmin k v Hk Hlt). done.
Qed.

Lemma findLineWidgetAtLine_None ed l cls :
  findLineWidgetAtLine ed l cls = None <->
  forall k v, ed_widgets ed !! k = Some v -> widgetAt l cls v = false.
Proof.
  unfold findLineWidgetAtLine. split.
  - intros H. destruct (list_find _ _) as [[k w]|] eqn:Hf; [done|].
    rewrite list_find_None, Forall_forall in Hf. intros k v Hk.
    specialize (Hf v (list_elem_of_lookup_2 _ _ _ Hk)). by destruct (widgetAt l cls v).
  - intros H.
    assert (list_find (fun w => widgetAt l cls w = true) (ed_widgets ed) = None) as ->; [|done].
    apply list_find_None, Forall_forall. intros v Hv.
    apply list_elem_of_lookup in Hv as [k Hk]. rewrite (H k v Hk). done.
Qed.

(** * What a reconciliation step touches *)

Section Touches.
Variables (cls : string) (fromP toP : Pos).

Local Abbreviation T := (touches cls fromP toP).

Lemma touches_refl ed : T ed ed.
Proof. split; try done; eauto. all: intros k x Hx Hk; apply lookup_lt_Some in Hx; lia. Qed.

Lemma touches_alterM ed0 ed ed' i g :
  T ed0 ed ->
  ed_lines ed' = ed_lines ed -> ed_viewport ed' = ed_viewport ed ->
  ed_cursor ed' = ed_cursor ed -> ed_selections ed' = ed_selections ed ->
  ed_widgets ed' = ed_widgets ed ->
  ed_markers ed' = alter g i (ed_markers ed) ->
  (forall m, mk_className (g m) = mk_className m /\
             mk_from (g m) = mk_from m /\ mk_to (g m) = mk_to m) ->
  updatableM cls fromP toP ed0 i ->
  T ed0 ed'.
Proof.
  intros [? ? ? ? ? ? t_markers0 t_newmarkers0 t_widgets0 t_newwidgets0] Hl Hv Hc Hs Hw Hm Hg Hu.
  split; try congruence.
  - rewrite Hm, length_alter. done.
  - rewrite Hm. intros k m Hk. destruct (decide (i = k)) as [->|Hne].
    + rewrite list_lookup_alter_eq. right.
      destruct Hu as [Hu|(m0 & Hm0 & Ht & Hc0 & Ho)];
        [apply lookup_lt_Some in Hk; lia|].
      assert (m0 = m) as -> by congruence.
      destruct (t_markers0 k m Hk) as [->|(m' & -> & ? & ? & ? & _)]; simpl.
      * exists (g m). destruct (Hg m) as (? & ? & ?). done.
      * exists (g m'). destruct (Hg m') as (? & ? & ?).
        repeat split; congruence || done.
    + rewrite list_lookup_alter_ne by done. by apply t_markers0.
  - rewrite Hm. intros k m' Hk Hlen. destruct (decide (i = k)) as [->|Hne].
    + rewrite list_lookup_alter_eq in Hk.
      destruct (ed_markers ed !! k) as [m|] eqn:Hmk; [|done]. simpl in Hk.
      injection Hk as <-. destruct (Hg m) as (-> & -> & ->). by eapply t_newmarkers0.
    + rewrite list_lookup_alter_ne in Hk by done. by eapply t_newmarkers0.
  - rewrite Hw. done.
  - rewrite Hw. done.
Qed.

Lemma touches_alterW ed0 ed ed' j g :
  T ed0 ed ->
  ed_lines ed' = ed_lines ed -> ed_viewport ed' = ed_viewport ed ->
  ed_cursor ed' = ed_cursor ed -> ed_selections ed' = ed_selections ed ->
  ed_markers ed' = ed_markers ed ->
  ed_widgets ed' = alter g j (ed_widgets ed) ->
  (forall w, lw_className (g w) = lw_className w /\ lw_line (g w) = lw_line w) ->
  updatableW cls fromP toP ed0 j ->
  T ed0 ed'.
Proof.
  intros [? ? ? ? ? ? t_markers0 t_newmarkers0 t_widgets0 t_newwidgets0] Hl Hv Hc Hs Hm Hw Hg Hu.
  split; try congruence.
  - rewrite Hw, length_alter. done.
  - rewrite Hm. done.
  - rewrite Hm. done.
  - rewrite Hw. intros k w Hk. destruct (decide (j = k)) as [->|Hne].
    + rewrite list_lookup_alter_eq. right.
      destruct Hu as [Hu|(w0 & Hw0 & Ht & Hc0 & Ho)];
        [apply lookup_lt_Some in Hk; lia|].
      assert (w0 = w) as -> by congruence.
      destruct (t_widgets0 k w Hk) as [->|(w' & -> & ? & ? & _)]; simpl.
      * exists (g w). destruct (Hg w) as (? & ?). done.
      * exists (g w'). destruct (Hg w') as (? & ?).
        repeat split; congruence || done || lia.
    + rewrite list_lookup_alter_ne by done. by apply t_widgets0.
  - rewrite Hw. intros k w' Hk Hlen. destruct (decide (j = k)) as [->|Hne].
    + rewrite list_lookup_alter_eq in Hk.
      destruct (ed_widgets ed !! k) as [w|] eqn:Hwk; [|done]. simpl in Hk.
      injection Hk as <-. destruct (Hg w) as (-> & ->). by eapply t_newwidgets0.
    + rewrite list_lookup_alter_ne in Hk by done. by eapply t_newwidgets0.
Qed.

Lemma touches_clearMarker ed0 ed i :
  T ed0 ed -> updatableM cls fromP toP ed0 i -> T ed0 (clearMarker i ed).
Proof.
  intros HT Hu. destruct (clearMarker_frame i ed) as (? & ? & ? & ? & ?).
  eapply (touches_alterM ed0 ed _ i clearedMarker); try done.
  apply clearMarker_markers.
Qed.

Lemma touches_updateMarkerEl ed0 ed i f mu :
  T ed0 ed -> updatableM cls fromP toP ed0 i -> T ed0 (updateMarkerEl i f mu ed).
Proof.
  intros HT Hu. destruct (updateMarkerEl_frame i f mu ed) as (? & ? & ? & ? & ?).
  eapply (touches_alterM ed0 ed _ i (withOptEl f)); try done.
  - apply updateMarkerEl_markers.
  - intros m. unfold withOptEl. by destruct (mk_replacedWith m).
Qed.

Lemma touches_clearWidget ed0 ed j :
  T ed0 ed -> updatableW cls fromP toP ed0 j -> T ed0 (clearWidget j ed).
Proof.
  intros HT Hu. destruct (clearWidget_frame j ed) as (? & ? & ? & ? & ?).
  eapply (touches_alterW ed0 ed _ j clearedWidget); try done.
  apply clearWidget_widgets.
Qed.

Lemma touches_updateNode ed0 ed j f mu :
  T ed0 ed -> updatableW cls fromP toP ed0 j -> T ed0 (updateNode j f mu ed).
Proof.
  intros HT Hu. destruct (updateNode_frame j f mu ed) as (? & ? & ? & ? & ?).
  eapply (touches_alterW ed0 ed _ j (fun w => withNode (f (lw_node w)) w)); try done.
  apply updateNode_widgets.
Qed.

Lemma touches_markText ed0 ed el :
  T ed0 ed ->
  T ed0 (snd (markText fromP toP el cls ed)) /\
  updatableM cls fromP toP ed0 (length (ed_markers ed)).
Proof.
  intros [? ? ? ? ? ? t_markers0 t_newmarkers0 t_widgets0 t_newwidgets0]. split; [|left; done].
  split; simpl; try done.
  - rewrite length_app. lia.
  - intros k m Hk. destruct (t_markers0 k m Hk) as [H|(m' & H & ?)].
    + left. by apply lookup_app_l_Some.
    + right. exists m'. split; [by apply lookup_app_l_Some|done].
  - intros k m' Hk Hlen. apply lookup_app_Some in Hk as [Hk|[Hge Hk]].
    + by eapply t_newmarkers0.
    + apply list_lookup_singleton_Some in Hk as [_ <-]. done.
Qed.

Lemma touches_addLineWidget ed0 ed node :
  T ed0 ed ->
  T ed0 (snd (addLineWidget (line toP) node (lineWidgetClassName cls) ed)) /\
  updatableW cls fromP toP ed0 (length (ed_widgets ed)).
Proof.
  intros [? ? ? ? ? ? t_markers0 t_newmarkers0 t_widgets0 t_newwidgets0]. split; [|left; done].
  split; simpl; try done.
  - rewrite length_app. lia.
  - intros k w Hk. destruct (t_widgets0 k w Hk) as [H|(w' & H & ?)].
    + left. by apply lookup_app_l_Some.
    + right. exists w'. split; [by apply lookup_app_l_Some|done].
  - intros k w' Hk Hlen. apply lookup_app_Some in Hk as [Hk|[Hge Hk]].
    + by eapply t_newwidgets0.
    + apply list_lookup_singleton_Some in Hk as [_ <-]. done.
Qed.

(** A widget of the engine found on a line of the range may be changed. *)
Lemma touches_found_widget ed0 ed l j :
  T ed0 ed -> (l = line toP \/ line fromP <= l < line toP) ->
  findLineWidgetAtLine ed l (lineWidgetClassName cls) = Some j ->
  updatableW cls fromP toP ed0 j.
Proof.
  intros [? ? ? ? ? ? t_markers0 t_newmarkers0 t_widgets0 t_newwidgets0] Hl Hf. apply findLineWidgetAtLine_Some in Hf as (w & Hw & Hat & _).
  unfold widgetAt in Hat. apply andb_true_iff in Hat as [Hat Hcls].
  apply andb_true_iff in Hat as [Hlive Hline].
  apply negb_true_iff in Hlive. apply Z.eqb_eq in Hline.
  destruct (decide (length (ed_widgets ed0) <= j)%nat) as [|Hlt]; [by left|right].
  destruct (lookup_lt_is_Some_2 (ed_widgets ed0) j) as [w0 Hw0]; [lia|].
  exists w0. split; [done|].
  destruct (t_widgets0 j w0 Hw0) as [H|(w' & H & Hln & Hcn & Ht & Hc & Hr)].
  - assert (w0 = w) as -> by congruence. unfold taggedWidget. repeat split; try done; lia.
  - done.
Qed.

(** A marker found on the range that carries the class tag may be changed. *)
Lemma touches_found_marker ed0 ed i m :
  T ed0 ed -> i ∈ findMarks fromP toP ed0 ->
  ed_markers ed !! i = Some m -> taggedMarker cls m = true ->
  updatableM cls fromP toP ed0 i.
Proof.
  intros [? ? ? ? ? ? t_markers0 t_newmarkers0 t_widgets0 t_newwidgets0] Hi Hm Ht. right.
  apply elem_of_findMarks in Hi as (m0 & Hm0 & Ho).
  unfold markOverlaps in Ho. apply andb_true_iff in Ho as [Hlive Ho].
  apply negb_true_iff in Hlive.
  exists m0. repeat split; try done; [|by left].
  destruct (t_markers0 i m0 Hm0) as [H|(m' & H & Hc & _)].
  - congruence.
  - assert (m' = m) as -> by congruence. unfold taggedMarker in *. congruence.
Qed.

End Touches.

Lemma elem_of_zrange lo hi x : x ∈ zrange lo hi <-> lo <= x < hi.
Proof.
  unfold zrange. rewrite list_elem_of_fmap. split.
  - intros (k & -> & Hk). apply elem_of_seq in Hk. lia.
  - intros H. exists (Z.to_nat (x - lo)). split; [lia|]. apply elem_of_seq. lia.
Qed.

(** ** Computations that keep an invariant of the state *)

Section Keeps.
Context {S : Type} (X : Exn -> Prop) (I : S -> Prop).

Lemma keeps_ret {A} (a : A) (Q : A -> Prop) : Q a -> keeps X I (ret a) Q.
Proof. intros H s Hs. done. Qed.

Lemma keeps_throw {A} e (Q : A -> Prop) : X e -> keeps X I (throw e) Q.
Proof. intros H s Hs. done. Qed.

Lemma keeps_get : keeps X I get I.
Proof. intros s Hs. done. Qed.

Lemma keeps_modify (f : S -> S) (Q : unit -> Prop) :
  (forall s, I s -> I (f s)) -> Q tt -> keeps X I (modify f) Q.
Proof. intros H HQ s Hs. split; [by apply H|done]. Qed.

Lemma keeps_bind {A B} (m : M S A) (k : A -> M S B) (Q : A -> Prop) (Q' : B -> Prop) :
  keeps X I m Q -> (forall a, Q a -> keeps X I (k a) Q') -> keeps X I (bind m k) Q'.
Proof.
  intros Hm Hk s Hs. unfold bind. specialize (Hm s Hs).
  destruct (m s) as [[a|e] s']; [|done].
  destruct Hm as [Hs' Ha]. by apply (Hk a Ha).
Qed.

Lemma keeps_seq {B} (m : M S unit) (k : M S B) (Q' : B -> Prop) :
  keeps X I m (fun _ => True) -> keeps X I k Q' ->
  keeps X I (bind m (fun _ => k)) Q'.
Proof. intros Hm Hk. eapply keeps_bind; [exact Hm|]. intros _ _. exact Hk. Qed.

Lemma keeps_forEach {A} (body : A -> M S unit) (xs : list A) :
  (forall x, x ∈ xs -> keeps X I (body x) (fun _ => True)) ->
  keeps X I (forEach body xs) (fun _ => True).
Proof.
  induction xs as [|x xs IH]; intros Hb.
  - by apply keeps_ret.
  - simpl. eapply keeps_bind; [apply Hb; left|].
    intros [] _. apply IH. intros y Hy. apply Hb. by right.
Qed.

Lemma keeps_foldM {A B} (f : B -> A -> M S B) (Q : B -> Prop) (xs : list A) (b : B) :
  Q b ->
  (forall b x, x ∈ xs -> Q b -> keeps X I (f b x) Q) ->
  keeps X I (foldM f b xs) Q.
Proof.
  revert b. induction xs as [|x xs IH]; intros b Hb Hf.
  - by apply keeps_ret.
  - simpl. eapply keeps_bind; [apply Hf; [left|done]|].
    intros b' Hb'. apply IH; [done|]. intros b'' y Hy. apply Hf. by right.
Qed.

End Keeps.

Section MarkRangeTouches.
Variable renderer :
  option Match -> option Match -> string -> Z -> Z -> Result HTMLElement.
Variable spanRenderer : unit -> Result HTMLElement.
Variable cls : string.
Variables clearOnClick renderWhenEditing : bool.
Variable isCursorOutRange : Pos -> Pos -> Pos -> bool.
Variable isRangeSelected : Pos -> Pos -> list (Pos * Pos) -> bool.
Variables (fromP toP : Pos).
Variable ed0 : Editor.

Local Abbreviation T := (touches cls fromP toP ed0).
Local Abbreviation lwc := (lineWidgetClassName cls).
Local Abbreviation okM := (updatableM cls fromP toP ed0).
Local Abbreviation okW := (updatableW cls fromP toP ed0).

Lemma keeps_clearMarker i (Q : unit -> Prop) :
  okM i -> Q tt -> keeps anyExn T (modify (clearMarker i)) Q.
Proof. intros Hi HQ. apply keeps_modify; [|done]. intros s Hs. by apply touches_clearMarker. Qed.

Lemma keeps_clearWidget j (Q : unit -> Prop) :
  okW j -> Q tt -> keeps anyExn T (modify (clearWidget j)) Q.
Proof. intros Hj HQ. apply keeps_modify; [|done]. intros s Hs. by apply touches_clearWidget. Qed.

Lemma keeps_updateNode j f mu (Q : unit -> Prop) :
  okW j -> Q tt -> keeps anyExn T (modify (updateNode j f mu)) Q.
Proof. intros Hj HQ. apply keeps_modify; [|done]. intros s Hs. by apply touches_updateNode. Qed.

Lemma keeps_updateMarkerEl i f mu (Q : unit -> Prop) :
  okM i -> Q tt -> keeps anyExn T (modify (updateMarkerEl i f mu)) Q.
Proof. intros Hi HQ. apply keeps_modify; [|done]. intros s Hs. by apply touches_updateMarkerEl. Qed.

Lemma keeps_markText el : keeps anyExn T (markText fromP toP el cls) okM.
Proof. intros s Hs. by apply touches_markText. Qed.

Lemma keeps_addLineWidget node : keeps anyExn T (addLineWidget (line toP) node lwc) okW.
Proof. intros s Hs. by apply touches_addLineWidget. Qed.

Lemma keeps_callRenderer r content a b :
  keeps anyExn T (callRenderer renderer r content a b) (fun _ => True).
Proof. intros s Hs. unfold callRenderer. by destruct (renderer _ _ _ _ _). Qed.

Lemma keeps_callSpanRenderer : keeps anyExn T (callSpanRenderer spanRenderer) (fun _ => True).
Proof. intros s Hs. unfold callSpanRenderer. by destruct (spanRenderer _). Qed.

(** Clearing the widget of the engine found on a line of the range. *)
Lemma keeps_clear_found l (ed : Editor) :
  T ed -> (l = line toP \/ line fromP <= l < line toP) ->
  keeps anyExn T (match findLineWidgetAtLine ed l lwc with
           | Some j => modify (clearWidget j)
           | None => ret tt
           end) (fun _ => True).
Proof.
  intros HT Hl. destruct (findLineWidgetAtLine ed l lwc) as [j|] eqn:Hj.
  - apply keeps_clearWidget; [|done]. eapply touches_found_widget; eauto.
  - by apply keeps_ret.
Qed.

Lemma checkMarker_touches vars i :
  i ∈ findMarks fromP toP ed0 ->
  varsOK cls fromP toP ed0 vars ->
  keeps anyExn T (checkMarker cls fromP toP vars i) (varsOK cls fromP toP ed0).
Proof.
  intros Hi [Hv1 Hv2]. unfold checkMarker.
  eapply keeps_bind; [apply keeps_get|]. intros ed HT.
  destruct (ed_markers ed !! i) as [m|] eqn:Hm; [|by apply keeps_ret].
  destruct (optStrEq (mk_className m) cls) eqn:Hcls; [|by apply keeps_ret].
  assert (okM i) as Hui by (eapply touches_found_marker; eauto).
  destruct (markerFind m) as [[mf mt]|]; [|by apply keeps_throw].
  destruct (findLineWidgetAtLine ed (line toP) lwc) as [j|] eqn:Hj.
  - assert (okW j) as Huj
      by (eapply touches_found_widget; [exact HT|by left|exact Hj]).
    assert (varsOK cls fromP toP ed0 (Some i, Some j)) as Hv'.
    { split; simpl; intros k Hk; injection Hk as <-; done. }
    destruct (negb (line mf =? line fromP) || negb (line mt =? line toP)).
    + apply keeps_seq; [by apply keeps_clearMarker|].
      apply keeps_seq; [by apply keeps_clearWidget|].
      by apply keeps_ret.
    + by apply keeps_ret.
  - assert (varsOK cls fromP toP ed0 (fst vars, None)) as Hv'.
    { split; simpl; [done|discriminate]. }
    destruct (negb (line mf =? line fromP) || negb (line mt =? line toP)).
    + apply keeps_seq; [by apply keeps_clearMarker|].
      apply keeps_seq; [by apply keeps_ret|].
      by apply keeps_ret.
    + destruct (fst vars) eqn:Hf; [by apply keeps_ret|].
      apply keeps_seq; [by apply keeps_clearMarker|].
      by apply keeps_ret.
Qed.

Lemma sweepLine_touches l :
  line fromP <= l < line toP -> keeps anyExn T (sweepLine cls l) (fun _ => True).
Proof.
  intros Hl. unfold sweepLine.
  eapply keeps_bind; [apply keeps_get|]. intros ed HT.
  apply keeps_clear_found; auto.
Qed.

Lemma setStyleAndLogical_touches i j :
  okM i -> okW j -> keeps anyExn T (setStyleAndLogical clearOnClick i j) (fun _ => True).
Proof.
  intros Hi Hj. unfold setStyleAndLogical.
  apply keeps_seq; [by apply keeps_updateNode|].
  apply keeps_seq.
  { destruct clearOnClick; [by apply keeps_updateMarkerEl|by apply keeps_ret]. }
  apply keeps_seq; [by apply keeps_updateNode|].
  by apply keeps_updateNode.
Qed.

Lemma createPair_touches r content :
  keeps anyExn T (createPair renderer spanRenderer cls clearOnClick r fromP toP content)
    (fun _ => True).
Proof.
  unfold createPair.
  eapply keeps_bind; [apply keeps_get|]. intros ed HT.
  apply keeps_seq; [apply keeps_clear_found; auto|].
  eapply keeps_bind; [apply keeps_callSpanRenderer|]. intros markerEl0 _.
  eapply keeps_bind; [apply keeps_markText|]. intros textMarker Hi.
  eapply keeps_bind; [apply keeps_callRenderer|]. intros element _.
  eapply keeps_bind; [apply keeps_addLineWidget|]. intros lineWidget Hj.
  by apply setStyleAndLogical_touches.
Qed.

Lemma editingState_touches r content existingMarker :
  (forall i, existingMarker = Some i -> okM i) ->
  keeps anyExn T
    (editingState renderer cls renderWhenEditing r fromP toP content existingMarker)
    (fun _ => True).
Proof.
  intros Hem. unfold editingState.
  apply keeps_seq.
  { destruct existingMarker as [i|];
      [apply keeps_clearMarker; auto|by apply keeps_ret]. }
  eapply keeps_bind; [apply keeps_get|]. intros ed HT.
  destruct (findLineWidgetAtLine ed (line toP) lwc) as [j|] eqn:Hj.
  - assert (okW j) as Huj
      by (eapply touches_found_widget; [exact HT|by left|exact Hj]).
    destruct renderWhenEditing.
    + apply keeps_seq; [by apply keeps_updateNode|].
      eapply keeps_bind; [apply keeps_callRenderer|]. intros element _.
      by apply keeps_updateNode.
    + by apply keeps_clearWidget.
  - destruct renderWhenEditing; [|by apply keeps_ret].
    eapply keeps_bind; [apply keeps_callRenderer|]. intros element _.
    eapply keeps_bind; [apply keeps_addLineWidget|]. intros lineWidget _.
    by apply keeps_ret.
Qed.

End MarkRangeTouches.

Section PassTouches.
Variable renderer :
  option Match -> option Match -> string -> Z -> Z -> Result HTMLElement.
Variable spanRenderer : unit -> Result HTMLElement.
Variable cls : string.
Variables clearOnClick renderWhenEditing : bool.
Variable isCursorOutRange : Pos -> Pos -> Pos -> bool.
Variable isRangeSelected : Pos -> Pos -> list (Pos * Pos) -> bool.

Local Abbreviation markRange' :=
  (markRange renderer spanRenderer cls clearOnClick renderWhenEditing
     isCursorOutRange isRangeSelected).

Lemma markRange_undefined_line cursor r ed :
  docLine (ed_lines ed) (to r) = None ->
  markRange' cursor r ed = (Throw TypeError, ed).
Proof. intros H. unfold markRange, bind, get. simpl. by rewrite H. Qed.

Lemma markRange_touches cursor r ed toText :
  docLine (ed_lines ed) (to r) = Some toText ->
  touches cls (fromPos r) (toPos toText r) ed (snd (markRange' cursor r ed)).
Proof.
  intros Hl. unfold markRange. unfold bind at 1, get at 1. cbn beta iota.
  rewrite Hl. cbn zeta.
  change {| line := from r; ch := 0 |} with (fromPos r).
  change {| line := to r; ch := Z.of_nat (String.length toText) |} with (toPos toText r).
  set (fromP := fromPos r). set (toP := toPos toText r).
  match goal with |- touches _ _ _ _ (snd (?b ed)) => set (body := b) end.
  assert (keeps anyExn (touches cls fromP toP ed) body (fun _ => True)) as Hk.
  { subst body. eapply keeps_bind.
    { apply (keeps_foldM _ _ _ (varsOK cls fromP toP ed)).
      - split; simpl; discriminate.
      - intros vars i Hi Hv. by apply checkMarker_touches. }
    intros [em ew] [Hem Hew]. simpl in Hem, Hew.
    apply keeps_seq.
    { apply keeps_forEach. intros l Hl'. apply sweepLine_touches.
      by apply elem_of_zrange in Hl'. }
    destruct (isRangeSelected _ _ _ && isCursorOutRange _ _ _).
    - destruct em as [i|]; [|by apply keeps_ret].
      apply keeps_seq; [apply keeps_clearMarker; auto|].
      destruct ew as [j|]; [apply keeps_clearWidget; auto|by apply keeps_throw].
    - destruct (isCursorOutRange _ _ _).
      + destruct em as [i|]; [by apply keeps_ret|]. apply createPair_touches.
      + by apply editingState_touches. }
  specialize (Hk ed (touches_refl _ _ _ _)).
  destruct (body ed) as [[[]|e] ed']; simpl; by destruct Hk.
Qed.

End PassTouches.

(** * Decorations of other kinds are left alone *)

Lemma ownOnly_refl cls ed : ownOnly cls ed ed.
Proof.
  split; try done; eauto.
  all: intros k x Hx Hk; apply lookup_lt_Some in Hx; lia.
Qed.

Lemma ownOnly_trans cls ed1 ed2 ed3 :
  ownOnly cls ed1 ed2 -> ownOnly cls ed2 ed3 -> ownOnly cls ed1 ed3.
Proof.
  intros [Hl1 Hv1 Hc1 Hs1 Hm1 Hnm1 Hw1 Hnw1] [Hl2 Hv2 Hc2 Hs2 Hm2 Hnm2 Hw2 Hnw2].
  split; try congruence.
  - intros i m Hm. destruct (Hm1 i m Hm) as (m' & Hm' & Hc' & Hf').
    destruct (Hm2 i m' Hm') as (m'' & Hm'' & Hc'' & Hf'').
    exists m''. split; [done|]. split; [congruence|].
    intros Hf. rewrite Hf'' by (rewrite <- Hf; unfold taggedMarker; by rewrite Hc').
    by apply Hf'.
  - intros i m'' Hm'' Hlen.
    destruct (decide (length (ed_markers ed2) <= i)%nat) as [Hge|Hlt].
    + by eapply Hnm2.
    + destruct (lookup_lt_is_Some_2 (ed_markers ed2) i) as [m' Hm']; [lia|].
      destruct (Hm2 i m' Hm') as (m3 & Hm3 & Hc3 & _).
      assert (m3 = m'') as -> by congruence. rewrite Hc3. by eapply Hnm1.
  - intros j w Hw. destruct (Hw1 j w Hw) as (w' & Hw' & Hc' & Hf').
    destruct (Hw2 j w' Hw') as (w'' & Hw'' & Hc'' & Hf'').
    exists w''. split; [done|]. split; [congruence|].
    intros Hf. rewrite Hf'' by (rewrite <- Hf; unfold taggedWidget; by rewrite Hc').
    by apply Hf'.
  - intros j w'' Hw'' Hlen.
    destruct (decide (length (ed_widgets ed2) <= j)%nat) as [Hge|Hlt].
    + by eapply Hnw2.
    + destruct (lookup_lt_is_Some_2 (ed_widgets ed2) j) as [w' Hw']; [lia|].
      destruct (Hw2 j w' Hw') as (w3 & Hw3 & Hc3 & _).
      assert (w3 = w'') as -> by congruence. rewrite Hc3. by eapply Hnw1.
Qed.

Lemma touches_ownOnly cls fromP toP ed ed' :
  touches cls fromP toP ed ed' -> ownOnly cls ed ed'.
Proof.
  intros [Hl Hv Hc Hs Hml Hwl Hm Hnm Hw Hnw].
  split; try done.
  - intros i m Hi. destruct (Hm i m Hi) as [H|(m' & H & Hcn & _ & _ & Ht & _)].
    + exists m. done.
    + exists m'. repeat split; [done..|]. congruence.
  - intros i m' Hi Hlen. by destruct (Hnm i m' Hi Hlen).
  - intros j w Hj. destruct (Hw j w Hj) as [H|(w' & H & _ & Hcn & Ht & _)].
    + exists w. done.
    + exists w'. repeat split; [done..|]. congruence.
  - intros j w' Hj Hlen. by destruct (Hnw j w' Hj Hlen).
Qed.

Section PassOwnOnly.
Variable renderer :
  option Match -> option Match -> string -> Z -> Z -> Result HTMLElement.
Variable spanRenderer : unit -> Result HTMLElement.
Variable cls : string.
Variables clearOnClick renderWhenEditing : bool.
Variable isCursorOutRange : Pos -> Pos -> Pos -> bool.
Variable isRangeSelected : Pos -> Pos -> list (Pos * Pos) -> bool.

Lemma markRange_ownOnly cursor r ed :
  ownOnly cls ed
    (snd (markRange renderer spanRenderer cls clearOnClick renderWhenEditing
            isCursorOutRange isRangeSelected cursor r ed)).
Proof.
  destruct (docLine (ed_lines ed) (to r)) as [toText|] eqn:Hl.
  - eapply touches_ownOnly. by apply markRange_touches.
  - rewrite markRange_undefined_line by done. apply ownOnly_refl.
Qed.

Lemma markRanges_ownOnly rs ed :
  ownOnly cls ed
    (snd (_markRanges renderer spanRenderer cls clearOnClick renderWhenEditing
            isCursorOutRange isRangeSelected rs ed)).
Proof.
  unfold _markRanges. unfold bind at 1, get at 1. cbn beta iota.
  generalize (ed_cursor ed). intros cursor.
  assert (keeps anyExn (ownOnly cls ed)
            (forEach (markRange renderer spanRenderer cls clearOnClick
                        renderWhenEditing isCursorOutRange isRangeSelected cursor) rs)
            (fun _ => True)) as Hk.
  { apply keeps_forEach. intros r _ s Hs.
    pose proof (markRange_ownOnly cursor r s) as H.
    destruct (markRange _ _ _ _ _ _ _ _ _ s) as [[[]|e] s']; simpl in *.
    - split; [|done]. by eapply ownOnly_trans.
    - split; [done|]. by eapply ownOnly_trans. }
  specialize (Hk ed (ownOnly_refl _ _)).
  destruct (forEach _ _ ed) as [[[]|e] ed']; simpl; by destruct Hk.
Qed.

End PassOwnOnly.

(** * The claims about the scanner *)

Lemma scanMain_returns startRe endRe lines fromLine toLine st :
  toLine <= lineCountOf lines ->
  fst (scanMain startRe endRe lines fromLine toLine st) = Ok tt.
Proof.
  intros Hto. unfold scanMain.
  assert (forall lo, 0 <= lo -> forall st,
            fst (forEach (scanStep startRe endRe lines fromLine) (zrange lo toLine) st) = Ok tt)
    as H; [|by apply H].
  intros lo. pattern lo, (zrange lo toLine). apply zrange_ind; clear lo.
  - done.
  - intros lo Hlt IH Hlo st'. rewrite forEach_cons.
    destruct (docLine_Some lines lo) as [s Hs]; [lia|].
    assert (fst (scanStep startRe endRe lines fromLine lo st') = Ok tt) as Hstep.
    { unfold scanStep, bind, testStart, testEnd, matchStart, matchEnd, ret, modify.
      rewrite Hs. destruct (meetBeginToken st'); simpl.
      - destruct (test endRe s _) as [[] n]; simpl; [|done].
        destruct (fromLine <=? lo); simpl; [|done].
        by destruct (strMatch s endRe n).
      - destruct (test startRe s _) as [[] n]; simpl; [|done].
        by destruct (strMatch s startRe n). }
    destruct (scanStep _ _ _ _ _ _) as [[[]|e] st'']; [|done].
    apply IH. lia.
Qed.

(** C10. For every document and window, the ranges that the bounded scan
    holds when it ends (by reaching the window's end, or by a throw) are
    strictly increasing and pairwise disjoint: each range ends above the line
    where every later one begins, and each range begins strictly above the
    line where it ends; this holds whatever lines the token patterns
    match. The scan runs to the end when the window lies in the document. *)
Theorem main_scan_ranges_increasing startRe endRe lines fromLine toLine sli eli :
  let res := scanMain startRe endRe lines fromLine toLine (initScan sli eli) in
  StronglySorted rangeBefore (blockRangeList (snd res)) /\
  Forall (fun r => from r < to r) (blockRangeList (snd res)) /\
  (toLine <= lineCountOf lines -> fst res = Ok tt).
Proof.
  intros res.
  pose proof (scanLoop_inv startRe endRe lines fromLine toLine 0 (initScan sli eli)
                (Z.le_refl 0) (ScanInv_init sli eli)) as [H1 H2 _].
  split; [exact H1|]. split.
  - eapply Forall_impl; [exact H2|]. simpl. intros r (? & ? & ?). done.
  - intros Hto. by apply scanMain_returns.
Qed.

Lemma main_scan_ranges_increasing_witness :
  fst (scanMain beginRe endRe sampleDoc 0 6 (initScan 0 0)) = Ok tt.
Proof.
  apply (main_scan_ranges_increasing beginRe endRe sampleDoc 0 6 0 0).
  vm_compute. discriminate.
Defined.

Section WindowStart.
Variables (startRe endRe : RegExp) (lines : list string).



End WindowStart.



(** The window [[3, 6)] of the sample document: the block begins on line 1,
    above the window, and is found all the same. *)
Example window_below_begin_token :
  map (fun r => (from r, to r))
    (blockRangeList (snd (scanMain beginRe endRe sampleDoc 3 6 (initScan 0 0)))) =
  [(1, 4)].
Proof. reflexivity. Qed.

(** C8 (as stated, refuted). A pattern with the [g] flag keeps its
    [lastIndex] between uses and nothing resets it: with the end pattern
    [/END/g], the viewport [[2, 4)] and the document below, the first pass
    finds no range and leaves [lastIndex = 3]; the second pass over the same
    document then misses the end token on line 1 and emits the range
    [{0, 3}]. *)
Lemma global_pattern_runs_differ :
  let lines := ["<<<BEGIN"; "END"; "x"; "END"] in
  let endG := literal "END" true false in
  let vp := {| vp_from := 2; vp_to := 4 |} in
  let run1 := scanRanges beginRe endG lines vp false (initScan 0 0) in
  let run2 := scanRanges beginRe endG lines vp false
                (initScan (startLastIndex (snd run1)) (endLastIndex (snd run1))) in
  fst run1 = Ok tt /\ fst run2 = Ok tt /\
  endLastIndex (snd run1) = 3%nat /\
  blockRangeList (snd run1) = [] /\
  blockRangeList (snd run2) =
    [{| from := 0; to := 3; beginMatch := Some ["<<<BEGIN"]; endMatch := Some ["END"] |}] /\
  blockRangeList (snd run1) <> blockRangeList (snd run2).
Proof. vm_compute. repeat split; discriminate. Qed.

(** C8 (amended). For token patterns without the [g] and [y] flags, a match
    reads and writes no state: [test] leaves [lastIndex] as it is and its
    answer does not depend on it; hence two runs of the scanner over the same
    document and viewport end the same way and produce the same block-range
    list whatever [lastIndex] the pattern objects hold, and leave it
    unchanged. *)
Theorem stateless_patterns_scan_deterministic startRe endRe lines vp afterSetValue
    sli eli sli' eli' :
  re_stateful startRe = false -> re_stateful endRe = false ->
  let run := scanRanges startRe endRe lines vp afterSetValue (initScan sli eli) in
  let run' := scanRanges startRe endRe lines vp afterSetValue (initScan sli' eli') in
  (forall s n, test startRe s n = (fst (test startRe s 0), n)) /\
  (forall s n, test endRe s n = (fst (test endRe s 0), n)) /\
  fst run = fst run' /\
  blockRangeList (snd run) = blockRangeList (snd run') /\
  startLastIndex (snd run) = sli /\ endLastIndex (snd run) = eli.
Proof.
  intros Hs He run run'.
  split; [intros; by apply test_stateless|].
  split; [intros; by apply test_stateless|].
  subst run run'.
  change (initScan sli eli) with (withLastIndex sli eli (initScan 0 0)).
  change (initScan sli' eli') with (withLastIndex sli' eli' (initScan 0 0)).
  rewrite !(scanRanges_withLastIndex startRe endRe lines Hs He). done.
Qed.

Lemma stateless_patterns_scan_deterministic_witness :
  blockRangeList
    (snd (scanRanges beginRe endRe sampleDoc {| vp_from := 0; vp_to := 2 |} false
            (initScan 0 0))) =
  blockRangeList
    (snd (scanRanges beginRe endRe sampleDoc {| vp_from := 0; vp_to := 2 |} false
            (initScan 5 3))).
Proof.
  apply (stateless_patterns_scan_deterministic beginRe endRe sampleDoc
           {| vp_from := 0; vp_to := 2 |} false 0 0 5 3); reflexivity.
Defined.

(** C3 (the code departs from the claim). In full-document mode the second
    loop starts at the end of the viewport, not at the end of the window:
    here the bounded scan has read all four lines, found [{0, 2}] and an
    open token on line 3, and the second loop goes back to line 1 and pairs
    that open token with the end token on line 2. *)
Theorem backoff_rescans_in_full_document_mode :
  let lines := ["<<<BEGIN"; "x"; "END>>>"; "<<<BEGIN"] in
  let res := scanRanges beginRe endRe lines {| vp_from := 0; vp_to := 1 |} true
               (initScan 0 0) in
  fst res = Ok tt /\
  map (fun r => (from r, to r)) (blockRangeList (snd res)) = [(0, 2); (3, 2)].
Proof. vm_compute. done. Qed.

(** C1. On the six-line sample document, with literal token patterns for
    the BEGIN and the END line, the scan of a full-document pass returns
    with exactly one range, from line 1 to line 4, and the content between
    the two lines is "a\nb". This holds whatever the viewport and the
    [lastIndex] of the patterns are. The pass calls the renderer once, with
    the two matches, that content and the lines 1 and 4, and returns or
    throws as the renderer does; when the renderer returns an element, the
    store holds one widget with that element and one marker over the
    block. *)
Theorem sample_full_pass_discovers_one_range renderer cls clearOnClick
    renderWhenEditing vp sli eli :
  let w := {| w_editor := sampleEditor {| line := 5; ch := 0 |} vp;
              w_startLastIndex := sli; w_endLastIndex := eli |} in
  let res := process renderer spanOk cls clearOnClick renderWhenEditing
               cursorOutsideLines selectionOverlaps beginRe endRe true w in
  let call := renderer (Some ["<<<BEGIN"]) (Some ["END>>>"])
                ("a" ++ newline ++ "b") 1 4 in
  fst (scanRanges beginRe endRe sampleDoc vp true (initScan sli eli)) = Ok tt /\
  blockRangeList (snd (scanRanges beginRe endRe sampleDoc vp true (initScan sli eli)))
    = [sampleRange] /\
  blockContent sampleDoc 1 4 = "a" ++ newline ++ "b" /\
  fst res = match call with Ok _ => Ok tt | Throw e => Throw e end /\
  (forall element, call = Ok element ->
     map lw_node (ed_widgets (w_editor (snd res))) = [styledWrapper element] /\
     map (fun m => (mk_from m, mk_to m, mk_cleared m)) (ed_markers (w_editor (snd res)))
       = [({| line := 1; ch := 0 |}, {| line := 4; ch := 6 |}, false)]).
Proof.
  intros w res call.
  assert (scanRanges beginRe endRe sampleDoc vp true (initScan sli eli) =
          (Ok tt, {| blockRangeList := [sampleRange]; meetBeginToken := false;
                     prevBeginTokenLineNumber := -1;
                     curBeginMatch := Some ["<<<BEGIN"];
                     startLastIndex := sli; endLastIndex := eli |})) as Hscan.
  { change (initScan sli eli) with (withLastIndex sli eli (initScan 0 0)).
    rewrite (scanRanges_withLastIndex beginRe endRe sampleDoc eq_refl eq_refl).
    reflexivity. }
  rewrite Hscan. split; [done|]. split; [done|]. split; [reflexivity|].
  subst res. unfold process. cbn [w_editor w_startLastIndex w_endLastIndex w].
  cbn [ed_lines ed_viewport sampleEditor]. rewrite Hscan.
  cbn [blockRangeList]. subst call.
  destruct clearOnClick; vm_compute;
    destruct (renderer _ _ _ _ _) as [el|e]; (split; [reflexivity|]);
    intros element Hel; [injection Hel as ->| |injection Hel as ->| ]; done.
Qed.

Lemma sample_full_pass_discovers_one_range_witness :
  map lw_node
    (ed_widgets (w_editor (snd (process echoRenderer spanOk "blk" true false
       cursorOutsideLines selectionOverlaps beginRe endRe true
       (freshWorld (sampleEditor {| line := 5; ch := 0 |} {| vp_from := 0; vp_to := 6 |}))))))
  = [styledWrapper (Element "pre" [] "" [] [RawHTML ("a" ++ newline ++ "b")])].
Proof.
  apply (sample_full_pass_discovers_one_range echoRenderer "blk" true false
           {| vp_from := 0; vp_to := 6 |} 0 0).
  reflexivity.
Defined.

(** * Views of the store *)

Lemma findLineWidgetAtLine_flag ed l c j :
  findLineWidgetAtLine ed l c = Some j <->
  widgetFlagAt l c (ed_widgets ed) j = true /\
  forall k, (k < j)%nat -> widgetFlagAt l c (ed_widgets ed) k = false.
Proof.
  rewrite findLineWidgetAtLine_Some. unfold widgetFlagAt. split.
  - intros (w & Hw & Hat & Hmin). rewrite Hw. split; [done|].
    intros k Hk. destruct (ed_widgets ed !! k) as [v|] eqn:Hv; [|done]. eauto.
  - intros [Hj Hmin]. destruct (ed_widgets ed !! j) as [w|] eqn:Hw; [|done].
    exists w. repeat split; [done|]. intros k v Hv Hk.
    specialize (Hmin k Hk). by rewrite Hv in Hmin.
Qed.

Lemma findLineWidgetAtLine_flag_None ed l c :
  findLineWidgetAtLine ed l c = None <->
  forall k, widgetFlagAt l c (ed_widgets ed) k = false.
Proof.
  rewrite findLineWidgetAtLine_None. unfold widgetFlagAt. split.
  - intros H k. destruct (ed_widgets ed !! k) as [v|] eqn:Hv; [|done]. eauto.
  - intros H k v Hv. specialize (H k). by rewrite Hv in H.
Qed.

(** The lookup of a widget depends on the flags only. *)
Lemma findLineWidgetAtLine_ext ed ed' l c :
  (forall k, widgetFlagAt l c (ed_widgets ed') k = widgetFlagAt l c (ed_widgets ed) k) ->
  findLineWidgetAtLine ed' l c = findLineWidgetAtLine ed l c.
Proof.
  intros H. destruct (findLineWidgetAtLine ed l c) as [j|] eqn:Hf.
  - apply findLineWidgetAtLine_flag in Hf as [Hj Hmin].
    apply findLineWidgetAtLine_flag. split; [by rewrite H|].
    intros k Hk. rewrite H. by apply Hmin.
  - rewrite findLineWidgetAtLine_flag_None in Hf.
    apply findLineWidgetAtLine_flag_None. intros k. by rewrite H.
Qed.

Lemma widgetFlagAt_alter l c ws j g k :
  widgetFlagAt l c (alter g j ws) k =
    if decide (j = k)
    then match ws !! k with Some w => widgetAt l c (g w) | None => false end
    else widgetFlagAt l c ws k.
Proof.
  unfold widgetFlagAt. destruct (decide (j = k)) as [->|Hne].
  - rewrite list_lookup_alter_eq. by destruct (ws !! k).
  - by rewrite list_lookup_alter_ne.
Qed.

Lemma widgetAt_cleared l c w : widgetAt l c (clearedWidget w) = false.
Proof. reflexivity. Qed.

Lemma widgetAt_withNode l c n w : widgetAt l c (withNode n w) = widgetAt l c w.
Proof. reflexivity. Qed.

Lemma widgetFlagAt_app_new l c ws w k :
  widgetFlagAt l c (ws ++ [w]) k =
    if decide (k = length ws) then widgetAt l c w else widgetFlagAt l c ws k.
Proof.
  unfold widgetFlagAt. destruct (decide (k = length ws)) as [->|Hne].
  - by rewrite list_lookup_middle.
  - destruct (decide (k < length ws)%nat).
    + by rewrite lookup_app_l.
    + rewrite !lookup_ge_None_2; [done|lia|rewrite length_app; simpl; lia].
Qed.

(** Markers. *)
Lemma taggedAt_alter cls ms i g k :
  (forall m, mk_className (g m) = mk_className m) ->
  taggedAt cls (alter g i ms) k = taggedAt cls ms k.
Proof.
  intros Hg. unfold taggedAt, taggedMarker. destruct (decide (i = k)) as [->|Hne].
  - rewrite list_lookup_alter_eq. destruct (ms !! k); simpl; [by rewrite Hg|done].
  - by rewrite list_lookup_alter_ne.
Qed.

Lemma overlapsAt_alter_cleared fromP toP ms i k :
  overlapsAt fromP toP (alter clearedMarker i ms) k =
    if decide (i = k) then false else overlapsAt fromP toP ms k.
Proof.
  unfold overlapsAt. destruct (decide (i = k)) as [->|Hne].
  - rewrite list_lookup_alter_eq. by destruct (ms !! k).
  - by rewrite list_lookup_alter_ne.
Qed.

Lemma findMarks_NoDup fromP toP ed : NoDup (findMarks fromP toP ed).
Proof. unfold findMarks. apply NoDup_filter, NoDup_seq. Qed.

Lemma elem_of_findMarks_flag fromP toP ed i :
  i ∈ findMarks fromP toP ed <-> overlapsAt fromP toP (ed_markers ed) i = true.
Proof.
  rewrite elem_of_findMarks. unfold overlapsAt. split.
  - intros (m & -> & H). done.
  - destruct (ed_markers ed !! i) as [m|]; [eauto|done].
Qed.

Lemma filter_none {A} (P : A -> Prop) `{!forall x, Decision (P x)} (l : list A) :
  Forall (fun x => ~ P x) l -> filter P l = [].
Proof.
  induction 1 as [|x l Hx _ IH]; [done|]. by rewrite filter_cons_False.
Qed.

(** The list found depends on the flags only. *)
Lemma findMarks_ext fromP toP ed ed' :
  (forall k, overlapsAt fromP toP (ed_markers ed') k = overlapsAt fromP toP (ed_markers ed) k) ->
  findMarks fromP toP ed' = findMarks fromP toP ed.
Proof.
  intros H. unfold findMarks.
  assert (forall n m : nat, (forall k, (n <= k)%nat -> overlapsAt fromP toP (ed_markers ed) k = false) ->
            (n <= m)%nat ->
            filter (fun i => overlapsAt fromP toP (ed_markers ed) i = true) (seq 0 m) =
            filter (fun i => overlapsAt fromP toP (ed_markers ed) i = true) (seq 0 n)) as Hcut.
  { intros n m Hn Hle. replace m with (n + (m - n))%nat by lia.
    rewrite seq_app, filter_app, Nat.add_0_l.
    rewrite (filter_none _ (seq n _)), app_nil_r; [done|].
    apply Forall_forall. intros k Hk. apply elem_of_seq in Hk.
    rewrite Hn by lia. done. }
  assert (forall k, (length (ed_markers ed) <= k)%nat ->
                    overlapsAt fromP toP (ed_markers ed) k = false) as Hge.
  { intros k Hk. unfold overlapsAt. by rewrite lookup_ge_None_2. }
  assert (forall k, (length (ed_markers ed') <= k)%nat ->
                    overlapsAt fromP toP (ed_markers ed) k = false) as Hge'.
  { intros k Hk. rewrite <- H. unfold overlapsAt. by rewrite lookup_ge_None_2. }
  erewrite (list_filter_iff _ (fun i => overlapsAt fromP toP (ed_markers ed) i = true));
    [|intros k; by rewrite H].
  destruct (decide (length (ed_markers ed) <= length (ed_markers ed'))%nat).
  - by apply (Hcut (length (ed_markers ed)) (length (ed_markers ed'))).
  - symmetry. apply (Hcut (length (ed_markers ed')) (length (ed_markers ed))); [done|lia].
Qed.

(** * The loop over the markers found *)

Section FindLoop.
Variables (cls : string) (fromP toP : Pos).

Local Abbreviation lwc := (lineWidgetClassName cls).
Local Abbreviation chk := (checkMarker cls fromP toP).

Lemma checkMarker_untagged vars i ed :
  taggedAt cls (ed_markers ed) i = false -> chk vars i ed = (Ok vars, ed).
Proof.
  unfold taggedAt, taggedMarker, checkMarker, bind, get, ret. simpl.
  destruct (ed_markers ed !! i) as [m|]; [|done]. by intros ->.
Qed.

Lemma checkMarker_tagged vars i m ed :
  ed_markers ed !! i = Some m -> taggedMarker cls m = true -> mk_cleared m = false ->
  chk vars i ed = (Ok (fst (checkOwn cls fromP toP vars i m ed)), snd (checkOwn cls fromP toP vars i m ed)).
Proof.
  intros Hm Ht Hc. unfold taggedMarker in Ht.
  unfold checkMarker, checkOwn, spanMoved, markerFind, bind, get, ret, modify, throw.
  simpl. rewrite Hm, Ht, Hc.
  destruct (findLineWidgetAtLine ed (line toP) lwc) as [j|];
    destruct (negb (line (mk_from m) =? line fromP) || negb (line (mk_to m) =? line toP));
    simpl; try done.
  by destruct (fst vars).
Qed.

Lemma foldM_checkMarker_untagged l vars ed :
  (forall k, k ∈ l -> taggedAt cls (ed_markers ed) k = false) ->
  foldM chk vars l ed = (Ok vars, ed).
Proof.
  induction l as [|k l IH]; intros H; [done|].
  simpl. unfold bind. rewrite checkMarker_untagged by (apply H; left).
  apply IH. intros k' Hk'. apply H. by right.
Qed.

Lemma checkOwn_taggedAt vars i m ed k :
  taggedAt cls (ed_markers (snd (checkOwn cls fromP toP vars i m ed))) k =
    taggedAt cls (ed_markers ed) k.
Proof.
  unfold checkOwn. simpl.
  destruct (spanMoved fromP toP m), (findLineWidgetAtLine ed (line toP) lwc) as [j|];
    simpl; try destruct (fst vars);
    repeat first
      [ rewrite (proj2 (proj2 (proj2 (proj2 (clearWidget_frame _ _)))))
      | rewrite clearMarker_markers, taggedAt_alter by done ];
    done.
Qed.

(** When at most one marker found carries the tag, the loop amounts to the
    callback on that marker. *)
Lemma findLoop_unique l vars ed i m :
  NoDup l -> i ∈ l ->
  ed_markers ed !! i = Some m -> taggedMarker cls m = true -> mk_cleared m = false ->
  (forall k, k ∈ l -> k <> i -> taggedAt cls (ed_markers ed) k = false) ->
  foldM chk vars l ed = (Ok (fst (checkOwn cls fromP toP vars i m ed)), snd (checkOwn cls fromP toP vars i m ed)).
Proof.
  intros Hnd Hi Hm Ht Hc. revert Hnd Hi.
  induction l as [|k l IH]; intros Hnd Hi Hun; [by apply elem_of_nil in Hi|].
  apply NoDup_cons in Hnd as [Hk Hnd]. cbn [foldM]. unfold bind.
  destruct (decide (k = i)) as [->|Hne].
  - rewrite (checkMarker_tagged vars i m ed) by done.
    generalize (checkOwn_taggedAt vars i m ed).
    generalize (checkOwn cls fromP toP vars i m ed). intros [vars' ed'] Htag. cbn [fst snd] in *.
    apply foldM_checkMarker_untagged. intros k' Hk'.
    rewrite Htag. apply Hun; [by right|]. intros ->. done.
  - rewrite checkMarker_untagged by (apply Hun; [left|done]).
    apply IH; [done| |].
    + apply elem_of_cons in Hi as [->|Hi]; done.
    + intros k' Hk' Hne'. apply Hun; [by right|done].
Qed.

(** The markers of the engine among those found: none, or one. *)
Lemma found_cases ed :
  (forall i i', ownOverlapAt cls fromP toP (ed_markers ed) i = true ->
                ownOverlapAt cls fromP toP (ed_markers ed) i' = true -> i = i') ->
  (forall k, k ∈ findMarks fromP toP ed -> taggedAt cls (ed_markers ed) k = false) \/
  (exists i m, i ∈ findMarks fromP toP ed /\ ed_markers ed !! i = Some m /\
     taggedMarker cls m = true /\ markOverlaps fromP toP m = true /\
     forall k, k ∈ findMarks fromP toP ed -> k <> i ->
               taggedAt cls (ed_markers ed) k = false).
Proof.
  intros Hu.
  destruct (decide (Exists (fun k => taggedAt cls (ed_markers ed) k = true)
                      (findMarks fromP toP ed))) as [Hex|Hno].
  - right. apply Exists_exists in Hex as (i & Hi & Hti).
    pose proof Hi as Hi'. apply elem_of_findMarks in Hi' as (m & Hm & Ho).
    exists i, m. unfold taggedAt in Hti. rewrite Hm in Hti.
    repeat split; try done. intros k Hk Hne.
    destruct (taggedAt cls (ed_markers ed) k) eqn:Htk; [|done].
    exfalso. apply Hne. apply Hu; unfold ownOverlapAt.
    + apply elem_of_findMarks_flag in Hk. by rewrite Hk, Htk.
    + apply elem_of_findMarks_flag in Hi. rewrite Hi. unfold taggedAt. by rewrite Hm.
  - left. intros k Hk. destruct (taggedAt cls (ed_markers ed) k) eqn:Htk; [|done].
    exfalso. apply Hno. apply Exists_exists. eauto.
Qed.

End FindLoop.

(** * Clearing widgets *)

Lemma widgetFlagAt_clearWidget l c j ed k :
  widgetFlagAt l c (ed_widgets (clearWidget j ed)) k =
    if decide (j = k) then false else widgetFlagAt l c (ed_widgets ed) k.
Proof.
  rewrite clearWidget_widgets, widgetFlagAt_alter.
  destruct (decide (j = k)); [|done]. by destruct (ed_widgets ed !! k).
Qed.

Lemma lookup_clearWidget_ne j ed k :
  j <> k -> ed_widgets (clearWidget j ed) !! k = ed_widgets ed !! k.
Proof. intros H. by rewrite clearWidget_widgets, list_lookup_alter_ne. Qed.

Lemma clearWidget_markers j ed : ed_markers (clearWidget j ed) = ed_markers ed.
Proof. apply clearWidget_frame. Qed.

Lemma clearMarker_widgets i ed : ed_widgets (clearMarker i ed) = ed_widgets ed.
Proof. apply clearMarker_frame. Qed.

Lemma clearWidget_lines j ed : ed_lines (clearWidget j ed) = ed_lines ed.
Proof. apply clearWidget_frame. Qed.

Lemma clearMarker_lines i ed : ed_lines (clearMarker i ed) = ed_lines ed.
Proof. apply clearMarker_frame. Qed.

(** Clearing a widget that is cleared, or a marker that is cleared, does
    nothing at all. *)
Lemma clearWidget_noop j ed :
  (forall w, ed_widgets ed !! j = Some w -> lw_cleared w = true) ->
  clearWidget j ed = ed.
Proof.
  intros H. unfold clearWidget. destruct (ed_widgets ed !! j) as [w|]; [|done].
  by rewrite (H w eq_refl).
Qed.

Section Sweep.
Variable cls : string.
Local Abbreviation lwc := (lineWidgetClassName cls).

Lemma sweepLine_exact l ed : sweepLine cls l ed = (Ok tt, clearFound cls ed l).
Proof.
  unfold sweepLine, clearFound, bind, get, ret, modify. simpl.
  by destruct (findLineWidgetAtLine ed l lwc).
Qed.

Lemma sweep_exact ls ed : forEach (sweepLine cls) ls ed = (Ok tt, sweepEd cls ls ed).
Proof.
  revert ed. induction ls as [|l ls IH]; intros ed; [done|].
  rewrite forEach_cons, sweepLine_exact. apply IH.
Qed.

Lemma clearFound_markers ed l : ed_markers (clearFound cls ed l) = ed_markers ed.
Proof.
  unfold clearFound. destruct (findLineWidgetAtLine ed l lwc); [|done].
  apply clearWidget_markers.
Qed.

Lemma clearFound_lines ed l : ed_lines (clearFound cls ed l) = ed_lines ed.
Proof.
  unfold clearFound. destruct (findLineWidgetAtLine ed l lwc); [|done].
  apply clearWidget_lines.
Qed.

(** A flag at another line, or of another class, is not changed. *)
Lemma clearFound_flag_other ed l l' c k :
  l' <> l \/ c <> lwc ->
  widgetFlagAt l' c (ed_widgets (clearFound cls ed l)) k = widgetFlagAt l' c (ed_widgets ed) k.
Proof.
  intros Hne. unfold clearFound.
  destruct (findLineWidgetAtLine ed l lwc) as [j|] eqn:Hj; [|done].
  rewrite widgetFlagAt_clearWidget. destruct (decide (j = k)) as [->|]; [|done].
  apply findLineWidgetAtLine_flag in Hj as [Hj _].
  unfold widgetFlagAt, widgetAt, optStrEq in *.
  destruct (ed_widgets ed !! k) as [w|]; [|done].
  apply andb_true_iff in Hj as [Hj Hc]. apply andb_true_iff in Hj as [_ Hl].
  apply Z.eqb_eq in Hl. destruct Hne as [Hne|Hne].
  - replace (lw_line w =? l') with false by (symmetry; apply Z.eqb_neq; lia).
    by rewrite andb_false_r.
  - destruct (lw_className w) as [s|]; [|by rewrite andb_false_r].
    apply String.eqb_eq in Hc. subst s.
    replace (String.eqb lwc c) with false; [by rewrite andb_false_r|].
    symmetry. apply String.eqb_neq. congruence.
Qed.

(** Flags are never raised. *)
Lemma clearFound_flag_mono ed l l' c k :
  widgetFlagAt l' c (ed_widgets (clearFound cls ed l)) k = true ->
  widgetFlagAt l' c (ed_widgets ed) k = true.
Proof.
  unfold clearFound. destruct (findLineWidgetAtLine ed l lwc) as [j|]; [|done].
  rewrite widgetFlagAt_clearWidget. by destruct (decide (j = k)).
Qed.

(** A widget that is not flagged at the line keeps its place. *)
Lemma clearFound_lookup ed l k :
  widgetFlagAt l lwc (ed_widgets ed) k = false ->
  ed_widgets (clearFound cls ed l) !! k = ed_widgets ed !! k.
Proof.
  intros Hk. unfold clearFound.
  destruct (findLineWidgetAtLine ed l lwc) as [j|] eqn:Hj; [|done].
  apply lookup_clearWidget_ne. intros ->.
  apply findLineWidgetAtLine_flag in Hj as [Hj _]. congruence.
Qed.

(** With at most one widget of the engine at the line, none is left. *)
Lemma clearFound_clean ed l :
  (forall j j', widgetFlagAt l lwc (ed_widgets ed) j = true ->
                widgetFlagAt l lwc (ed_widgets ed) j' = true -> j = j') ->
  forall k, widgetFlagAt l lwc (ed_widgets (clearFound cls ed l)) k = false.
Proof.
  intros Hu k. unfold clearFound.
  destruct (findLineWidgetAtLine ed l lwc) as [j|] eqn:Hj.
  - rewrite widgetFlagAt_clearWidget. destruct (decide (j = k)) as [|Hne]; [done|].
    apply findLineWidgetAtLine_flag in Hj as [Hj _].
    destruct (widgetFlagAt l lwc (ed_widgets ed) k) eqn:Hk; [|done].
    exfalso. apply Hne. by apply Hu.
  - by apply findLineWidgetAtLine_flag_None.
Qed.

Lemma clearFound_noop ed l :
  (forall k, widgetFlagAt l lwc (ed_widgets ed) k = false) -> clearFound cls ed l = ed.
Proof.
  intros H. unfold clearFound.
  by rewrite (proj2 (findLineWidgetAtLine_flag_None ed l lwc) H).
Qed.

Lemma sweepEd_markers ls ed : ed_markers (sweepEd cls ls ed) = ed_markers ed.
Proof.
  revert ed. induction ls as [|l ls IH]; intros ed; [done|].
  simpl. rewrite IH. apply clearFound_markers.
Qed.

Lemma sweepEd_lines ls ed : ed_lines (sweepEd cls ls ed) = ed_lines ed.
Proof.
  revert ed. induction ls as [|l ls IH]; intros ed; [done|].
  simpl. rewrite IH. apply clearFound_lines.
Qed.

Lemma sweepEd_flag_other ls ed l' c k :
  l' ∉ ls \/ c <> lwc ->
  widgetFlagAt l' c (ed_widgets (sweepEd cls ls ed)) k = widgetFlagAt l' c (ed_widgets ed) k.
Proof.
  revert ed. induction ls as [|l ls IH]; intros ed Hl; [done|].
  simpl. rewrite IH.
  - apply clearFound_flag_other. destruct Hl as [Hl|Hl]; [left|by right].
    intros ->. apply Hl. left.
  - destruct Hl as [Hl|Hl]; [left|by right]. intros H. apply Hl. by right.
Qed.

Lemma sweepEd_flag_mono ls ed l' c k :
  widgetFlagAt l' c (ed_widgets (sweepEd cls ls ed)) k = true ->
  widgetFlagAt l' c (ed_widgets ed) k = true.
Proof.
  revert ed. induction ls as [|l ls IH]; intros ed H; [done|].
  simpl in H. apply IH in H. by eapply clearFound_flag_mono.
Qed.

(** A widget that is on none of the lines swept keeps its place. *)
Lemma sweepEd_lookup ls ed k :
  (forall l, l ∈ ls -> widgetFlagAt l lwc (ed_widgets ed) k = false) ->
  ed_widgets (sweepEd cls ls ed) !! k = ed_widgets ed !! k.
Proof.
  revert ed. induction ls as [|l ls IH]; intros ed H; [done|].
  simpl. rewrite IH.
  - apply clearFound_lookup. apply H. left.
  - intros l' Hl'. destruct (widgetFlagAt l' lwc (ed_widgets (clearFound cls ed l)) k) eqn:Hf; [|done].
    apply clearFound_flag_mono in Hf. rewrite H in Hf; [done|by right].
Qed.

Lemma sweepEd_clean ls ed :
  (forall l, l ∈ ls ->
     forall j j', widgetFlagAt l lwc (ed_widgets ed) j = true ->
                  widgetFlagAt l lwc (ed_widgets ed) j' = true -> j = j') ->
  forall l, l ∈ ls -> forall k, widgetFlagAt l lwc (ed_widgets (sweepEd cls ls ed)) k = false.
Proof.
  revert ed. induction ls as [|l0 ls IH]; intros ed Hu l Hl k;
    [by apply elem_of_nil in Hl|].
  simpl.
  assert (forall l', l' ∈ ls ->
            forall j j', widgetFlagAt l' lwc (ed_widgets (clearFound cls ed l0)) j = true ->
                         widgetFlagAt l' lwc (ed_widgets (clearFound cls ed l0)) j' = true ->
                         j = j') as Hu'.
  { intros l' Hl' j j' Hj Hj'. apply (Hu l'); [by right|by eapply clearFound_flag_mono..]. }
  destruct (decide (l ∈ ls)) as [Hin|Hnin]; [by apply IH|].
  apply elem_of_cons in Hl as [->|Hl]; [|done].
  destruct (widgetFlagAt l0 lwc (ed_widgets (sweepEd cls ls (clearFound cls ed l0))) k) eqn:Hf; [|done].
  apply sweepEd_flag_mono in Hf. rewrite clearFound_clean in Hf; [done|].
  apply Hu. left.
Qed.

Lemma sweepEd_noop ls ed :
  (forall l, l ∈ ls -> forall k, widgetFlagAt l lwc (ed_widgets ed) k = false) ->
  sweepEd cls ls ed = ed.
Proof.
  revert ed. induction ls as [|l ls IH]; intros ed H; [done|].
  simpl. rewrite clearFound_noop by (apply H; left).
  apply IH. intros l' Hl'. apply H. by right.
Qed.

End Sweep.

(** * The reconciliation of one range, branch by branch *)

Section Branches.
Variable renderer :
  option Match -> option Match -> string -> Z -> Z -> Result HTMLElement.
Variable spanRenderer : unit -> Result HTMLElement.
Variable cls : string.
Variables clearOnClick renderWhenEditing : bool.
Variable isCursorOutRange : Pos -> Pos -> Pos -> bool.
Variable isRangeSelected : Pos -> Pos -> list (Pos * Pos) -> bool.

Local Abbreviation lwc := (lineWidgetClassName cls).

Lemma setStyleAndLogical_exact i j ed :
  setStyleAndLogical clearOnClick i j ed = (Ok tt, decorated clearOnClick i j ed).
Proof.
  unfold setStyleAndLogical, decorated, bind, modify, ret. simpl.
  by destruct clearOnClick.
Qed.

Lemma createPair_exact r toText content ed :
  createPair renderer spanRenderer cls clearOnClick r (fromPos r) (toPos toText r)
    content ed =
  let ed1 := clearFound cls ed (to r) in
  match spanRenderer tt with
  | Throw e => (Throw e, ed1)
  | Ok el0 =>
      let ed2 := addMarker (newMarker cls (fromPos r) (toPos toText r) el0) ed1 in
      match renderer (beginMatch r) (endMatch r) content (from r) (to r) with
      | Throw e => (Throw e, ed2)
      | Ok element =>
          (Ok tt,
           decorated clearOnClick (length (ed_markers ed1)) (length (ed_widgets ed2))
             (addWidget (newWidget cls (to r) element) ed2))
      end
  end.
Proof.
  unfold createPair, bind, get, ret, modify, callSpanRenderer, callRenderer,
    createLineWidgetForMarker, markText, addLineWidget, clearFound.
  cbn [line fromPos toPos].
  destruct (findLineWidgetAtLine ed (to r) lwc) as [j|];
    (destruct (spanRenderer tt) as [el0|e]; [|done]);
    (destruct (renderer _ _ _ _ _) as [element|e]; [|done]);
    cbn beta iota zeta; by rewrite setStyleAndLogical_exact.
Qed.

Lemma editingState_exact r toText content existingMarker ed :
  editingState renderer cls renderWhenEditing r (fromPos r) (toPos toText r)
    content existingMarker ed =
  let ed1 := match existingMarker with
             | Some i => clearMarker i ed
             | None => ed
             end in
  let call := renderer (beginMatch r) (endMatch r) content (from r) (to r) in
  match findLineWidgetAtLine ed1 (to r) lwc with
  | Some j =>
      if renderWhenEditing then
        let ed2 := updateNode j clearChildren (SetInnerHTML j) ed1 in
        match call with
        | Ok element => (Ok tt, updateNode j (appendChild element) (AppendChild j) ed2)
        | Throw e => (Throw e, ed2)
        end
      else (Ok tt, clearWidget j ed1)
  | None =>
      if renderWhenEditing then
        match call with
        | Ok element => (Ok tt, addWidget (newWidget cls (to r) element) ed1)
        | Throw e => (Throw e, ed1)
        end
      else (Ok tt, ed1)
  end.
Proof.
  unfold editingState, bind, get, ret, modify, callRenderer,
    createLineWidgetForMarker, addLineWidget.
  cbn [line fromPos toPos].
  destruct existingMarker as [i|]; cbn beta iota zeta;
    (match goal with |- context [findLineWidgetAtLine ?e _ _] =>
       destruct (findLineWidgetAtLine e (to r) lwc) as [j|] end);
    destruct renderWhenEditing; try done;
    by destruct (renderer _ _ _ _ _).
Qed.

(** The whole step, given what the loop over the markers returns. *)
Lemma markRange_exact cursor r toText ed :
  docLine (ed_lines ed) (to r) = Some toText ->
  markRange renderer spanRenderer cls clearOnClick renderWhenEditing
    isCursorOutRange isRangeSelected cursor r ed =
  let fromP := fromPos r in
  let toP := toPos toText r in
  match foldM (checkMarker cls fromP toP) (None, None) (findMarks fromP toP ed) ed with
  | (Throw e, ed1) => (Throw e, ed1)
  | (Ok (existingMarker, existingLineWidget), ed1) =>
      let ed2 := sweepEd cls (zrange (from r) (to r)) ed1 in
      if isRangeSelected fromP toP (ed_selections ed) && isCursorOutRange cursor fromP toP
      then
        match existingMarker with
        | Some i =>
            match existingLineWidget with
            | Some j => (Ok tt, clearWidget j (clearMarker i ed2))
            | None => (Throw TypeError, clearMarker i ed2)
            end
        | None => (Ok tt, ed2)
        end
      else if isCursorOutRange cursor fromP toP then
        match existingMarker with
        | Some _ => (Ok tt, ed2)
        | None =>
            createPair renderer spanRenderer cls clearOnClick r fromP toP
              (blockContent (ed_lines ed) (from r) (to r)) ed2
        end
      else
        editingState renderer cls renderWhenEditing r fromP toP
          (blockContent (ed_lines ed) (from r) (to r)) existingMarker ed2
  end.
Proof.
  intros Hl. unfold markRange. unfold bind at 1, get at 1. cbn beta iota.
  rewrite Hl. cbn zeta. unfold fromPos, toPos. cbn [line].
  unfold bind at 1.
  destruct (foldM _ _ _ ed) as [[[em ew]|e] ed1]; [|done].
  unfold bind at 1. rewrite sweep_exact.
  destruct (isRangeSelected _ _ _ && isCursorOutRange _ _ _).
  - destruct em as [i|]; [|done]. unfold bind, modify, throw.
    by destruct ew.
  - destruct (isCursorOutRange _ _ _); [|done]. by destruct em.
Qed.

End Branches.

(** * Flags after the store primitives *)

Lemma ownOverlapAt_clearMarker cls fromP toP i ed k :
  ownOverlapAt cls fromP toP (ed_markers (clearMarker i ed)) k =
    if decide (i = k) then false else ownOverlapAt cls fromP toP (ed_markers ed) k.
Proof.
  unfold ownOverlapAt. rewrite clearMarker_markers.
  rewrite overlapsAt_alter_cleared, taggedAt_alter by done.
  by destruct (decide (i = k)).
Qed.

Lemma updateNode_markers j f mu ed : ed_markers (updateNode j f mu ed) = ed_markers ed.
Proof. apply updateNode_frame. Qed.

Lemma updateNode_lines j f mu ed : ed_lines (updateNode j f mu ed) = ed_lines ed.
Proof. apply updateNode_frame. Qed.

Lemma widgetFlagAt_updateNode l c j f mu ed k :
  widgetFlagAt l c (ed_widgets (updateNode j f mu ed)) k =
    widgetFlagAt l c (ed_widgets ed) k.
Proof.
  rewrite updateNode_widgets, widgetFlagAt_alter.
  destruct (decide (j = k)) as [->|]; [|done].
  unfold widgetFlagAt. by destruct (ed_widgets ed !! k).
Qed.

Lemma findLineWidgetAtLine_updateNode l c j f mu ed :
  findLineWidgetAtLine (updateNode j f mu ed) l c = findLineWidgetAtLine ed l c.
Proof. apply findLineWidgetAtLine_ext. intros k. apply widgetFlagAt_updateNode. Qed.

Lemma findLineWidgetAtLine_clearMarker l c i ed :
  findLineWidgetAtLine (clearMarker i ed) l c = findLineWidgetAtLine ed l c.
Proof. apply findLineWidgetAtLine_ext. intros k. by rewrite clearMarker_widgets. Qed.

(** With at most one widget at the line, clearing the one found leaves
    none. *)
Lemma findLineWidgetAtLine_clear_found l c j ed :
  findLineWidgetAtLine ed l c = Some j ->
  (forall k k', widgetFlagAt l c (ed_widgets ed) k = true ->
                widgetFlagAt l c (ed_widgets ed) k' = true -> k = k') ->
  findLineWidgetAtLine (clearWidget j ed) l c = None.
Proof.
  intros Hj Hu. apply findLineWidgetAtLine_flag_None. intros k.
  rewrite widgetFlagAt_clearWidget. destruct (decide (j = k)) as [|Hne]; [done|].
  apply findLineWidgetAtLine_flag in Hj as [Hj _].
  destruct (widgetFlagAt l c (ed_widgets ed) k) eqn:Hk; [|done].
  exfalso. apply Hne. by apply Hu.
Qed.

Lemma length_clearMarker i ed :
  length (ed_markers (clearMarker i ed)) = length (ed_markers ed).
Proof. by rewrite clearMarker_markers, length_alter. Qed.

Lemma length_clearWidget j ed :
  length (ed_widgets (clearWidget j ed)) = length (ed_widgets ed).
Proof. by rewrite clearWidget_widgets, length_alter. Qed.

Lemma length_updateNode j f mu ed :
  length (ed_widgets (updateNode j f mu ed)) = length (ed_widgets ed).
Proof. by rewrite updateNode_widgets, length_alter. Qed.

Lemma sweepEd_length cls ls ed :
  length (ed_widgets (sweepEd cls ls ed)) = length (ed_widgets ed).
Proof.
  revert ed. induction ls as [|l ls IH]; intros ed; [done|].
  simpl. rewrite IH. unfold clearFound.
  destruct (findLineWidgetAtLine ed l _); [apply length_clearWidget|done].
Qed.

(** Rendering again into a node that holds one rendered element gives the
    same node. *)
Lemma rebuild_fixpoint el n :
  appendChild el (clearChildren (appendChild el (clearChildren n))) =
    appendChild el (clearChildren n).
Proof. by destruct n. Qed.

Lemma rebuild_new el :
  appendChild el (clearChildren (appendChild el createDiv)) = appendChild el createDiv.
Proof. reflexivity. Qed.

(** * At most one decoration per block *)

Section LoopOutcomes.
Variables (cls : string) (fromP toP : Pos).
Local Abbreviation lwc := (lineWidgetClassName cls).

Lemma loop_outcomes ed :
  atMostOneMarker cls fromP toP (ed_markers ed) ->
  let res := foldM (checkMarker cls fromP toP) (None, None) (findMarks fromP toP ed) ed in
  (res = (Ok (None, None), ed) /\
   forall k, ownOverlapAt cls fromP toP (ed_markers ed) k = false) \/
  (exists i m,
     ed_markers ed !! i = Some m /\ taggedMarker cls m = true /\
     markOverlaps fromP toP m = true /\
     (forall k, ownOverlapAt cls fromP toP (ed_markers ed) k = true -> k = i) /\
     res = (Ok (fst (checkOwn cls fromP toP (None, None) i m ed)),
            snd (checkOwn cls fromP toP (None, None) i m ed))).
Proof.
  intros Hu res. destruct (found_cases cls fromP toP ed Hu) as [Hno|(i & m & Hi & Hm & Ht & Ho & Hrest)].
  - left. split; [by apply foldM_checkMarker_untagged|].
    intros k. unfold ownOverlapAt.
    destruct (overlapsAt fromP toP (ed_markers ed) k) eqn:Hk; [|done].
    apply elem_of_findMarks_flag in Hk. by rewrite (Hno k Hk).
  - right. exists i, m. repeat split; try done.
    + intros k Hk. apply Hu; [done|]. unfold ownOverlapAt, overlapsAt, taggedAt.
      by rewrite Hm, Ho, Ht.
    + apply findLoop_unique; try done; [apply findMarks_NoDup|].
      unfold markOverlaps in Ho. apply andb_true_iff in Ho as [Ho _].
      by apply negb_true_iff in Ho.
Qed.

Lemma loop_post ed :
  atMostOneMarker cls fromP toP (ed_markers ed) ->
  atMostOneWidget (line toP) lwc (ed_widgets ed) ->
  exists em ew ed1,
    foldM (checkMarker cls fromP toP) (None, None) (findMarks fromP toP ed) ed =
      (Ok (em, ew), ed1) /\
    LoopPost cls fromP toP ed em ew ed1.
Proof.
  intros Hu Hw.
  destruct (loop_outcomes ed Hu) as [[-> Hno]|(i & m & Hm & Ht & Ho & Honly & ->)].
  - exists None, None, ed. split; [done|]. split; try done; [|by left].
    intros k Hk. by rewrite Hno in Hk.
  - unfold checkOwn. cbn [fst snd].
    assert (forall k, ownOverlapAt cls fromP toP
                        (ed_markers (clearMarker i ed)) k = false) as Hcl.
    { intros k. rewrite ownOverlapAt_clearMarker. destruct (decide (i = k)) as [|Hne]; [done|].
      destruct (ownOverlapAt cls fromP toP (ed_markers ed) k) eqn:Hk; [|done].
      exfalso. apply Hne. symmetry. by apply Honly. }
    destruct (findLineWidgetAtLine ed (line toP) lwc) as [j|] eqn:Hj;
      destruct (spanMoved fromP toP m) eqn:Hmv; cbn [fst].
    + (* moved, with a widget *)
      eexists _, _, _. split; [reflexivity|]. split.
      * by rewrite clearWidget_lines, clearMarker_lines.
      * by rewrite clearWidget_markers, length_clearMarker.
      * by rewrite length_clearWidget, clearMarker_widgets.
      * intros k. rewrite clearWidget_markers, Hcl. done.
      * intros k. rewrite clearWidget_markers, Hcl. done.
      * intros l c k. rewrite widgetFlagAt_clearWidget, clearMarker_widgets.
        by destruct (decide (j = k)).
      * intros l c k Hl. rewrite widgetFlagAt_clearWidget, clearMarker_widgets.
        destruct (decide (j = k)) as [->|]; [|done].
        apply findLineWidgetAtLine_flag in Hj as [Hj _].
        unfold widgetFlagAt, widgetAt in *. destruct (ed_widgets ed !! k) as [w|]; [|done].
        apply andb_true_iff in Hj as [Hj _]. apply andb_true_iff in Hj as [_ Hl'].
        apply Z.eqb_eq in Hl'. symmetry.
        replace (lw_line w =? l) with false by (symmetry; apply Z.eqb_neq; lia).
        by rewrite andb_false_r.
      * intros k. rewrite widgetFlagAt_clearWidget, clearMarker_widgets.
        destruct (decide (j = k)) as [|Hne]; [done|]. intros _.
        by rewrite lookup_clearWidget_ne, clearMarker_widgets.
      * done.
      * right. split.
        -- apply findLineWidgetAtLine_clear_found.
           ++ by rewrite findLineWidgetAtLine_clearMarker.
           ++ by rewrite clearMarker_widgets.
        -- intros Hnm. by rewrite (Hnm i m Hm Ho Ht) in Hmv.
    + (* in place, with a widget *)
      eexists _, _, _. split; [reflexivity|]. split; try done; [|by left].
      intros k Hk. f_equal. symmetry. by apply Honly.
    + (* moved, no widget *)
      eexists _, _, _. split; [reflexivity|]. split.
      * by rewrite clearMarker_lines.
      * by rewrite length_clearMarker.
      * by rewrite clearMarker_widgets.
      * intros k. rewrite Hcl. done.
      * intros k. rewrite Hcl. done.
      * intros l c k. by rewrite clearMarker_widgets.
      * intros l c k _. by rewrite clearMarker_widgets.
      * intros k _. by rewrite clearMarker_widgets.
      * done.
      * left. by rewrite findLineWidgetAtLine_clearMarker.
    + (* in place, no widget *)
      eexists _, _, _. split; [reflexivity|]. split.
      * by rewrite clearMarker_lines.
      * by rewrite length_clearMarker.
      * by rewrite clearMarker_widgets.
      * intros k. rewrite Hcl. done.
      * intros k. rewrite Hcl. done.
      * intros l c k. by rewrite clearMarker_widgets.
      * intros l c k _. by rewrite clearMarker_widgets.
      * intros k _. by rewrite clearMarker_widgets.
      * done.
      * left. by rewrite findLineWidgetAtLine_clearMarker.
Qed.

End LoopOutcomes.

Lemma widgetFlagAt_line l l' c c' ws k :
  widgetFlagAt l c ws k = true -> l' <> l -> widgetFlagAt l' c' ws k = false.
Proof.
  unfold widgetFlagAt, widgetAt. destruct (ws !! k) as [w|]; [|done].
  intros H Hne. apply andb_true_iff in H as [H _]. apply andb_true_iff in H as [_ H].
  apply Z.eqb_eq in H.
  replace (lw_line w =? l') with false by (symmetry; apply Z.eqb_neq; lia).
  by rewrite andb_false_r.
Qed.

Section PreBranch.
Variables (cls : string) (r : BlockRange) (toText : string).
Local Abbreviation lwc := (lineWidgetClassName cls).
Local Abbreviation fromP := (fromPos r).
Local Abbreviation toP := (toPos toText r).

Lemma pre_branch ed :
  atMostOneMarker cls fromP toP (ed_markers ed) ->
  atMostOneWidget (to r) lwc (ed_widgets ed) ->
  exists em ew ed1,
    foldM (checkMarker cls fromP toP) (None, None) (findMarks fromP toP ed) ed =
      (Ok (em, ew), ed1) /\
    PreBranch cls r toText ed em ew (sweepEd cls (zrange (from r) (to r)) ed1).
Proof.
  intros Hu Hw.
  destruct (loop_outcomes cls fromP toP ed Hu) as [[Hres Hno]|(i & m & Hm & Ht & Ho & Honly & Hres)].
  - destruct (loop_post cls fromP toP ed Hu Hw) as (em & ew & ed1 & Heq & HP).
    rewrite Hres in Heq. injection Heq as <- <- <-.
    exists None, None, ed. split; [done|].
    assert (to r ∉ zrange (from r) (to r)) as Hto by (rewrite elem_of_zrange; lia).
    split.
    + by rewrite sweepEd_lines.
    + by rewrite sweepEd_markers.
    + by rewrite sweepEd_length.
    + intros k. rewrite sweepEd_markers, Hno. done.
    + intros l c k. apply sweepEd_flag_mono.
    + intros k Hk. apply sweepEd_lookup. intros l Hl.
      apply sweepEd_flag_mono in Hk. eapply widgetFlagAt_line; [exact Hk|].
      apply elem_of_zrange in Hl. lia.
    + done.
    + left. apply findLineWidgetAtLine_ext. intros k.
      apply sweepEd_flag_other. by left.
    + intros Hin l Hl. apply sweepEd_clean; [|by apply elem_of_zrange].
      intros l' Hl'. apply Hin. by apply elem_of_zrange.
    + done.
  - destruct (loop_post cls fromP toP ed Hu Hw) as (em & ew & ed1 & Heq & HP).
    exists em, ew, ed1. split; [done|].
    destruct HP as [Hl Hml Hwl Hown Hmono Hfm Hfo Hlk Hwd Hf].
    assert (to r ∉ zrange (from r) (to r)) as Hto by (rewrite elem_of_zrange; lia).
    assert (findLineWidgetAtLine (sweepEd cls (zrange (from r) (to r)) ed1) (to r) lwc
            = findLineWidgetAtLine ed1 (to r) lwc) as Hfind.
    { apply findLineWidgetAtLine_ext. intros k. apply sweepEd_flag_other. by left. }
    split.
    + by rewrite sweepEd_lines.
    + by rewrite sweepEd_markers.
    + by rewrite sweepEd_length.
    + intros k. rewrite sweepEd_markers. apply Hown.
    + intros l c k Hk. apply Hfm. by eapply sweepEd_flag_mono.
    + intros k Hk. rewrite sweepEd_lookup.
      * apply Hlk. by eapply sweepEd_flag_mono.
      * intros l Hl'. rename Hl' into Hl2. apply sweepEd_flag_mono in Hk. eapply widgetFlagAt_line; [exact Hk|].
        apply elem_of_zrange in Hl2. cbn. lia.
    + done.
    + rewrite Hfind. exact Hf.
    + intros Hin l Hl3. apply sweepEd_clean; [|by apply elem_of_zrange].
      intros l' Hl' j j' Hj Hj'. apply elem_of_zrange in Hl'.
      apply (Hin l' Hl'); by apply Hfm.
    + intros i' Hi' Hnm. rewrite Hres in Heq.
      unfold checkOwn in Heq. cbn [fst snd] in Heq.
      rewrite (Hnm i m Hm Ho Ht) in Heq.
      change (line toP) with (to r) in Heq.
      destruct (findLineWidgetAtLine ed (to r) lwc) as [j|] eqn:Hj;
        cbn [fst] in Heq; injection Heq as <- <- <-; [|done].
      injection Hi' as <-. rewrite sweepEd_markers. repeat split; try done.
      unfold ownOverlapAt, overlapsAt, taggedAt. by rewrite Hm, Ho, Ht.
Qed.

End PreBranch.

Lemma addWidget_flag l c w ed k :
  widgetFlagAt l c (ed_widgets (addWidget w ed)) k =
    if decide (k = length (ed_widgets ed)) then widgetAt l c w
    else widgetFlagAt l c (ed_widgets ed) k.
Proof. unfold addWidget. cbn. apply widgetFlagAt_app_new. Qed.

Lemma widgetAt_newWidget cls l element :
  widgetAt l (lineWidgetClassName cls) (newWidget cls l element) = true.
Proof.
  unfold widgetAt, newWidget, optStrEq. cbn.
  by rewrite Z.eqb_refl, String.eqb_refl.
Qed.

(** A widget added at a line without one is the widget found there. *)
Lemma findLineWidgetAtLine_addWidget cls l element ed :
  findLineWidgetAtLine ed l (lineWidgetClassName cls) = None ->
  findLineWidgetAtLine (addWidget (newWidget cls l element) ed) l
    (lineWidgetClassName cls) = Some (length (ed_widgets ed)).
Proof.
  intros Hn. rewrite findLineWidgetAtLine_flag_None in Hn.
  apply findLineWidgetAtLine_flag. split.
  - rewrite addWidget_flag, decide_True by done.
    apply widgetAt_newWidget.
  - intros k Hk. rewrite addWidget_flag, decide_False by lia. apply Hn.
Qed.

Section CursorInside.
Variable renderer :
  option Match -> option Match -> string -> Z -> Z -> Result HTMLElement.
Variable spanRenderer : unit -> Result HTMLElement.
Variable cls : string.
Variables clearOnClick renderWhenEditing : bool.
Variable isCursorOutRange : Pos -> Pos -> Pos -> bool.
Variable isRangeSelected : Pos -> Pos -> list (Pos * Pos) -> bool.

Local Abbreviation lwc := (lineWidgetClassName cls).


End CursorInside.

(** * A renderer that throws *)



Lemma sizes_updateNode n k j f mu ed : sizes n k ed -> sizes n k (updateNode j f mu ed).
Proof. intros [? ?]. split; [by rewrite updateNode_markers|by rewrite length_updateNode]. Qed.



Section RendererThrows.
Variable renderer :
  option Match -> option Match -> string -> Z -> Z -> Result HTMLElement.
Variable spanRenderer : unit -> Result HTMLElement.
Variable cls : string.
Variables clearOnClick renderWhenEditing : bool.
Variable isCursorOutRange : Pos -> Pos -> Pos -> bool.
Variable isRangeSelected : Pos -> Pos -> list (Pos * Pos) -> bool.

Local Abbreviation lwc := (lineWidgetClassName cls).
Local Abbreviation markRange' :=
  (markRange renderer spanRenderer cls clearOnClick renderWhenEditing
     isCursorOutRange isRangeSelected).
Local Abbreviation markRanges' :=
  (_markRanges renderer spanRenderer cls clearOnClick renderWhenEditing
     isCursorOutRange isRangeSelected).




End RendererThrows.




(** C4 (the code departs from the claim). The block has moved to lines 1-4
    while the marker of the engine still spans lines 2-4, with its widget at
    line 4; the cursor is on line 5, outside the block. The pass clears the
    stale marker and its widget, and then takes the marker it has just
    cleared for an existing decoration: it creates nothing, and the block is
    left without marker and without widget. A second pass creates the
    pair. *)
Theorem stale_marker_still_counts_as_existing :
  let w := freshWorld (decoratedEditor 2 {| line := 5; ch := 0 |}) in
  let pass := process echoRenderer spanOk "blk" true false
                cursorOutsideLines selectionOverlaps beginRe endRe true in
  let w1 := snd (pass w) in
  let w2 := snd (pass w1) in
  fst (pass w) = Ok tt /\
  map mk_cleared (ed_markers (w_editor w1)) = [true] /\
  map lw_cleared (ed_widgets (w_editor w1)) = [true] /\
  ed_log (w_editor w1) = [ClearMarker 0; ClearWidget 0] /\
  map (fun m => (mk_from m, mk_to m, mk_cleared m)) (ed_markers (w_editor w2)) =
    [({| line := 2; ch := 0 |}, {| line := 4; ch := 6 |}, true);
     ({| line := 1; ch := 0 |}, {| line := 4; ch := 6 |}, false)] /\
  map (fun x => (lw_line x, lw_cleared x)) (ed_widgets (w_editor w2)) =
    [(4, true); (4, false)].
Proof. vm_compute. done. Qed.

(** C9. Whatever the document, the store, the cursor, the selection, the
    options and the callbacks, and whether the pass returns or throws: every
    marker without the class tag and every widget without the derived class
    name is, after the pass, the marker or widget it was before, at the same
    place in the store; the class of no decoration changes; and every
    decoration the pass creates carries the class tag (markers) or the
    derived class name (widgets). The document, the viewport, the cursor and
    the selection are not changed. *)
Theorem pass_leaves_other_decorations renderer spanRenderer cls clearOnClick
    renderWhenEditing isCursorOutRange isRangeSelected startRe endRe
    afterSetValue w :
  ownOnly cls (w_editor w)
    (w_editor (snd (process renderer spanRenderer cls clearOnClick
                      renderWhenEditing isCursorOutRange isRangeSelected
                      startRe endRe afterSetValue w))).
Proof.
  unfold process.
  destruct (scanRanges _ _ _ _ _ _) as [[[]|e] st]; [|apply ownOnly_refl].
  destruct (blockRangeList st) as [|r rs]; [apply ownOnly_refl|].
  pose proof (markRanges_ownOnly renderer spanRenderer cls clearOnClick
                renderWhenEditing isCursorOutRange isRangeSelected (r :: rs)
                (w_editor w)) as H.
  by destruct (_markRanges _ _ _ _ _ _ _ _ _).
Qed.

Example other_decorations_survive :
  let w' := snd (process echoRenderer spanOk "blk" true false
                   cursorOutsideLines selectionOverlaps beginRe endRe true
                   (freshWorld (mixedEditor {| line := 2; ch := 0 |}))) in
  ed_markers (w_editor w') = [foreignMarker; clearedMarker (sampleMarker 1)] /\
  ed_widgets (w_editor w') = [foreignWidget; clearedWidget sampleWidget].
Proof. vm_compute. done. Qed.

(** * A second pass over a settled range *)

Lemma withLog_id ed : withLog (ed_log ed ++ []) ed = ed.
Proof. destruct ed. unfold withLog. cbn. by rewrite app_nil_r. Qed.

(** Rendering again the element that the widget holds leaves the store as
    it is. *)
Lemma rebuild_same j w element mu1 mu2 ed :
  ed_widgets ed !! j = Some w ->
  lw_node w = appendChild element (clearChildren (lw_node w)) ->
  updateNode j (appendChild element) mu2 (updateNode j clearChildren mu1 ed) =
    withLog (ed_log ed ++ [mu1; mu2]) ed.
Proof.
  intros Hw Hn. unfold updateNode at 2. rewrite Hw.
  unfold updateNode. cbn [ed_widgets logMutation setWidgets].
  rewrite list_lookup_insert_eq by (by eapply lookup_lt_Some).
  unfold withLog, logMutation, setWidgets. cbn. f_equal.
  - rewrite list_insert_insert_eq. apply list_insert_id.
    rewrite Hw. f_equal. destruct w. cbn in *. by rewrite <- Hn.
  - by rewrite <- app_assoc.
Qed.

Section SettledStep.
Variable renderer :
  option Match -> option Match -> string -> Z -> Z -> Result HTMLElement.
Variable spanRenderer : unit -> Result HTMLElement.
Variable cls : string.
Variables clearOnClick renderWhenEditing : bool.
Variable isCursorOutRange : Pos -> Pos -> Pos -> bool.
Variable isRangeSelected : Pos -> Pos -> list (Pos * Pos) -> bool.

Local Abbreviation lwc := (lineWidgetClassName cls).
Local Abbreviation markRange' :=
  (markRange renderer spanRenderer cls clearOnClick renderWhenEditing
     isCursorOutRange isRangeSelected).
Local Abbreviation settled' :=
  (settled renderer cls renderWhenEditing isCursorOutRange isRangeSelected).

Lemma loop_nothing_own fromP toP ed :
  (forall k, ownOverlapAt cls fromP toP (ed_markers ed) k = false) ->
  foldM (checkMarker cls fromP toP) (None, None) (findMarks fromP toP ed) ed =
    (Ok (None, None), ed).
Proof.
  intros Hno. apply foldM_checkMarker_untagged. intros k Hk.
  apply elem_of_findMarks_flag in Hk. specialize (Hno k).
  unfold ownOverlapAt in Hno. by rewrite Hk in Hno.
Qed.

Lemma settled_step cursor r toText ed :
  docLine (ed_lines ed) (to r) = Some toText ->
  settled' cursor r toText ed ->
  exists extra,
    markRange' cursor r ed = (Ok tt, withLog (ed_log ed ++ extra) ed) /\
    Forall isRebuild extra /\
    (renderWhenEditing = false -> extra = []) /\
    (isCursorOutRange cursor (fromPos r) (toPos toText r) = true -> extra = []).
Proof.
  intros Hl [Hint Hcase].
  rewrite (markRange_exact _ _ _ _ _ _ _ cursor r toText ed Hl). cbn zeta.
  assert (sweepEd cls (zrange (from r) (to r)) ed = ed) as Hsweep.
  { apply sweepEd_noop. intros l Hl'. apply Hint. by apply elem_of_zrange. }
  destruct (isRangeSelected _ _ _ && isCursorOutRange _ _ _) eqn:Hsc.
  - (* selected, cursor outside *)
    rewrite loop_nothing_own by done. rewrite Hsweep.
    exists []. rewrite withLog_id. done.
  - destruct (isCursorOutRange cursor (fromPos r) (toPos toText r)) eqn:Hc.
    + (* collapsed *)
      destruct Hcase as (i & m & j & Hm & Hown & Hmv & Honly & Hj).
      assert (atMostOneMarker cls (fromPos r) (toPos toText r) (ed_markers ed)) as Hu.
      { intros k k' Hk Hk'. rewrite (Honly k Hk), (Honly k' Hk'). done. }
      destruct (loop_outcomes cls _ _ ed Hu) as [[_ Hno]|(i' & m' & Hm' & Ht' & Ho' & _ & ->)].
      { by rewrite Hno in Hown. }
      assert (i' = i) as ->.
      { apply Honly. unfold ownOverlapAt, overlapsAt, taggedAt. by rewrite Hm', Ho', Ht'. }
      assert (m' = m) as -> by congruence.
      unfold checkOwn. cbn [fst snd line toPos]. rewrite Hj, Hmv. cbn [fst].
      rewrite Hsweep. exists []. rewrite withLog_id. done.
    + (* editing *)
      destruct Hcase as [Hno Hw].
      rewrite loop_nothing_own by done. rewrite Hsweep.
      rewrite editingState_exact. cbn zeta.
      destruct renderWhenEditing.
      * destruct Hw as (j & w & element & Hj & Hw & Hcall & Hnode).
        rewrite Hj. unfold rendererCall in Hcall. rewrite Hcall.
        exists [SetInnerHTML j; AppendChild j].
        rewrite (rebuild_same j w element) by done.
        repeat split; try done. repeat constructor.
      * rewrite Hw. exists []. rewrite withLog_id. done.
Qed.

End SettledStep.

(** * Flags after the creation of a pair *)

Lemma ownOverlapAt_app_new cls fromP toP ms m k :
  ownOverlapAt cls fromP toP (ms ++ [m]) k =
    if decide (k = length ms) then markOverlaps fromP toP m && taggedMarker cls m
    else ownOverlapAt cls fromP toP ms k.
Proof.
  unfold ownOverlapAt, overlapsAt, taggedAt. destruct (decide (k = length ms)) as [->|Hne].
  - by rewrite list_lookup_middle.
  - destruct (decide (k < length ms)%nat).
    + by rewrite lookup_app_l.
    + rewrite !lookup_ge_None_2; [done|lia|rewrite length_app; simpl; lia].
Qed.

Lemma ownOverlapAt_alter_el cls fromP toP ms i f k :
  ownOverlapAt cls fromP toP (alter (withOptEl f) i ms) k =
    ownOverlapAt cls fromP toP ms k.
Proof.
  unfold ownOverlapAt, overlapsAt, taggedAt. destruct (decide (i = k)) as [->|Hne].
  - rewrite list_lookup_alter_eq. destruct (ms !! k) as [m|]; [|done]. cbn.
    unfold withOptEl. by destruct (mk_replacedWith m).
  - by rewrite list_lookup_alter_ne.
Qed.

Lemma updateMarkerEl_widgets i f mu ed :
  ed_widgets (updateMarkerEl i f mu ed) = ed_widgets ed.
Proof. apply updateMarkerEl_frame. Qed.

Section Decorated.
Variable clearOnClick : bool.

Lemma decorated_widgetFlag l c i j ed k :
  widgetFlagAt l c (ed_widgets (decorated clearOnClick i j ed)) k =
    widgetFlagAt l c (ed_widgets ed) k.
Proof.
  unfold decorated. rewrite !widgetFlagAt_updateNode.
  destruct clearOnClick; [rewrite updateMarkerEl_widgets|];
    by rewrite widgetFlagAt_updateNode.
Qed.

Lemma decorated_own cls fromP toP i j ed k :
  ownOverlapAt cls fromP toP (ed_markers (decorated clearOnClick i j ed)) k =
    ownOverlapAt cls fromP toP (ed_markers ed) k.
Proof.
  unfold decorated. rewrite !updateNode_markers.
  destruct clearOnClick; [|by rewrite updateNode_markers].
  by rewrite updateMarkerEl_markers, ownOverlapAt_alter_el, updateNode_markers.
Qed.

Lemma decorated_marker_span i j ed k m :
  ed_markers ed !! k = Some m ->
  exists m', ed_markers (decorated clearOnClick i j ed) !! k = Some m' /\
             mk_from m' = mk_from m /\ mk_to m' = mk_to m.
Proof.
  intros Hm. unfold decorated. rewrite !updateNode_markers.
  destruct clearOnClick; [|rewrite updateNode_markers; eauto].
  rewrite updateMarkerEl_markers, updateNode_markers.
  destruct (decide (i = k)) as [->|Hne].
  - rewrite list_lookup_alter_eq, Hm. cbn. eexists. split; [done|].
    unfold withOptEl. by destruct (mk_replacedWith m).
  - rewrite list_lookup_alter_ne by done. eauto.
Qed.

Lemma decorated_lines i j ed : ed_lines (decorated clearOnClick i j ed) = ed_lines ed.
Proof.
  unfold decorated. rewrite !updateNode_lines.
  destruct clearOnClick; [|by rewrite updateNode_lines].
  rewrite (proj1 (updateMarkerEl_frame _ _ _ _)). by rewrite updateNode_lines.
Qed.

End Decorated.

Lemma markOverlaps_newMarker cls r toText el :
  from r < to r ->
  markOverlaps (fromPos r) (toPos toText r) (newMarker cls (fromPos r) (toPos toText r) el)
  = true.
Proof.
  intros H. unfold markOverlaps, spanOverlaps, posLt, newMarker, fromPos, toPos. cbn.
  replace (from r <=? to r) with true by (symmetry; apply Z.leb_le; lia).
  replace (from r <? to r) with true by (symmetry; apply Z.ltb_lt; lia).
  done.
Qed.

Lemma taggedMarker_newMarker cls fromP toP el :
  taggedMarker cls (newMarker cls fromP toP el) = true.
Proof. unfold taggedMarker, newMarker, optStrEq. cbn. apply String.eqb_refl. Qed.

Lemma spanMoved_exact fromP toP m :
  mk_from m = fromP -> mk_to m = toP -> spanMoved fromP toP m = false.
Proof. intros <- <-. unfold spanMoved. by rewrite !Z.eqb_refl. Qed.

Lemma widgetAt_newWidget_other cls l l' c element :
  l' <> l -> widgetAt l' c (newWidget cls l element) = false.
Proof.
  intros H. unfold widgetAt, newWidget. cbn.
  replace (l =? l') with false by (symmetry; apply Z.eqb_neq; lia). done.
Qed.

Lemma ownOverlapAt_Some cls fromP toP ms k :
  ownOverlapAt cls fromP toP ms k = true ->
  exists m, ms !! k = Some m /\ markOverlaps fromP toP m = true /\
            taggedMarker cls m = true.
Proof.
  unfold ownOverlapAt, overlapsAt, taggedAt. destruct (ms !! k) as [m|]; [|done].
  intros H. apply andb_true_iff in H. eauto.
Qed.

(** * A first pass settles a range *)

Section Establish.
Variable renderer :
  option Match -> option Match -> string -> Z -> Z -> Result HTMLElement.
Variable spanRenderer : unit -> Result HTMLElement.
Variable cls : string.
Variables clearOnClick renderWhenEditing : bool.
Variable isCursorOutRange : Pos -> Pos -> Pos -> bool.
Variable isRangeSelected : Pos -> Pos -> list (Pos * Pos) -> bool.

Local Abbreviation lwc := (lineWidgetClassName cls).
Local Abbreviation markRange' :=
  (markRange renderer spanRenderer cls clearOnClick renderWhenEditing
     isCursorOutRange isRangeSelected).
Local Abbreviation settled' :=
  (settled renderer cls renderWhenEditing isCursorOutRange isRangeSelected).

Lemma establish cursor r toText ed :
  docLine (ed_lines ed) (to r) = Some toText ->
  from r < to r ->
  rangeWF cls r toText ed ->
  fst (markRange' cursor r ed) = Ok tt ->
  settled' cursor r toText (snd (markRange' cursor r ed)).
Proof.
  intros Hl Hlt [Hu Hnm Hw] Hok.
  pose proof (markRange_touches renderer spanRenderer cls clearOnClick
                renderWhenEditing isCursorOutRange isRangeSelected
                cursor r ed toText Hl) as Ht.
  unfold settled. cbn zeta.
  rewrite (t_selections _ _ _ _ _ Ht).
  assert (ed_lines (snd (markRange' cursor r ed)) = ed_lines ed) as Hlines'
    by apply (t_lines _ _ _ _ _ Ht).
  unfold rendererCall. rewrite Hlines'. clear Ht Hlines'.
  revert Hok.
  rewrite (markRange_exact _ _ _ _ _ _ _ cursor r toText ed Hl). cbn zeta.
  assert (from r <= to r <= to r) as Hto by lia.
  destruct (pre_branch cls r toText ed Hu (Hw (to r) Hto)) as (em & ew & ed1 & -> & HP).
  set (ed2 := sweepEd cls (zrange (from r) (to r)) ed1) in *.
  destruct HP as [Hlines Hml Hwl Hown Hmono Hlk Hwd Hfind Hint Hem].
  assert (findLineWidgetAtLine ed2 (to r) lwc = findLineWidgetAtLine ed (to r) lwc) as Hfind2.
  { destruct Hfind as [|[_ Hc]]; [done|contradiction]. }
  assert (forall l, from r <= l < to r ->
            forall k, widgetFlagAt l lwc (ed_widgets ed2) k = false) as Hint2.
  { apply Hint. intros l Hl'. apply Hw. lia. }
  assert (atMostOneWidget (to r) lwc (ed_widgets ed2)) as Hu2.
  { intros j j' Hj Hj'. apply (Hw (to r) Hto); by apply Hmono. }
  clear Hint Hfind. clearbody ed2.
  destruct (isRangeSelected _ _ _ && isCursorOutRange _ _ _) eqn:Hsc.
  - (* selected, cursor outside *)
    destruct em as [i|].
    + destruct ew as [j|]; [|discriminate]. intros _. cbn [snd]. split.
      * intros l Hl' k. rewrite widgetFlagAt_clearWidget, clearMarker_widgets.
        destruct (decide (j = k)); [done|by apply Hint2].
      * intros k. rewrite clearWidget_markers, ownOverlapAt_clearMarker.
        destruct (decide (i = k)) as [|Hne]; [done|].
        destruct (ownOverlapAt _ _ _ (ed_markers ed2) k) eqn:Hk; [|done].
        apply Hown in Hk. congruence.
    + intros _. cbn [snd]. split; [done|].
      intros k. destruct (ownOverlapAt _ _ _ (ed_markers ed2) k) eqn:Hk; [|done].
      apply Hown in Hk. congruence.
  - destruct (isCursorOutRange cursor (fromPos r) (toPos toText r)) eqn:Hc.
    + (* cursor outside *)
      destruct em as [i|].
      * (* the pair is there *)
        intros _. cbn [snd]. split; [done|].
        destruct (Hem i eq_refl Hnm) as (Hms & Hi & Hew).
        destruct (ownOverlapAt_Some _ _ _ _ _ Hi) as (m & Hm & Ho & Htag).
        destruct (findLineWidgetAtLine ed (to r) lwc) as [j|] eqn:Hj.
        2:{ exfalso. apply Hwd; [done|]. by rewrite Hew. }
        exists i, m, j. rewrite Hms.
        split; [done|]. split; [done|]. split; [by apply (Hnm i m)|]. split.
        -- intros k Hk. rewrite <- Hms in Hk. apply Hown in Hk. congruence.
        -- by rewrite Hfind2.
      * (* the pair is created *)
        rewrite createPair_exact. cbn zeta.
        destruct (spanRenderer tt) as [el0|e]; [|discriminate].
        destruct (renderer _ _ _ _ _) as [element|e]; [|discriminate].
        intros _. cbn [snd].
        set (ed3 := clearFound cls ed2 (to r)).
        assert (forall k, widgetFlagAt (to r) lwc (ed_widgets ed3) k = false) as Hclean
          by (by apply clearFound_clean).
        assert (ed_markers ed3 = ed_markers ed2) as Hms3 by apply clearFound_markers.
        split.
        -- intros l Hl' k. rewrite decorated_widgetFlag, addWidget_flag.
           cbn [ed_widgets addMarker logMutation setMarkers].
           destruct (decide _) as [|_].
           ++ apply widgetAt_newWidget_other. lia.
           ++ destruct (widgetFlagAt l lwc (ed_widgets ed3) k) eqn:Hk; [|done].
              apply clearFound_flag_mono in Hk. by rewrite Hint2 in Hk.
        -- exists (length (ed_markers ed3)).
           destruct (decorated_marker_span clearOnClick (length (ed_markers ed3))
                       (length (ed_widgets
                                  (addMarker (newMarker cls (fromPos r) (toPos toText r) el0) ed3)))
                       (addWidget (newWidget cls (to r) element)
                          (addMarker (newMarker cls (fromPos r) (toPos toText r) el0) ed3))
                       (length (ed_markers ed3))
                       (newMarker cls (fromPos r) (toPos toText r) el0))
             as (m' & Hm' & Hf' & Ht').
           { cbn. by rewrite list_lookup_middle. }
           exists m', (length (ed_widgets ed3)).
           assert (forall k,
                     ownOverlapAt cls (fromPos r) (toPos toText r)
                       (ed_markers
                          (decorated clearOnClick (length (ed_markers ed3))
                             (length (ed_widgets
                                (addMarker (newMarker cls (fromPos r) (toPos toText r) el0) ed3)))
                             (addWidget (newWidget cls (to r) element)
                                (addMarker (newMarker cls (fromPos r) (toPos toText r) el0) ed3)))) k
                     = if decide (k = length (ed_markers ed3)) then true else false) as Hflags.
           { intros k. rewrite decorated_own. cbn [ed_markers addWidget addMarker logMutation setWidgets setMarkers].
             rewrite ownOverlapAt_app_new.
             destruct (decide (k = length (ed_markers ed3))) as [|Hne].
             - by rewrite markOverlaps_newMarker, taggedMarker_newMarker.
             - rewrite Hms3. destruct (ownOverlapAt _ _ _ (ed_markers ed2) k) eqn:Hk; [|done].
               apply Hown in Hk. congruence. }
           split; [exact Hm'|]. split; [by rewrite Hflags, decide_True|].
           split; [by apply spanMoved_exact|]. split.
           ++ intros k. rewrite Hflags. by destruct (decide _).
           ++ apply findLineWidgetAtLine_flag. split.
              ** rewrite decorated_widgetFlag, addWidget_flag.
                 cbn [ed_widgets addMarker logMutation setMarkers].
                 rewrite decide_True by done. apply widgetAt_newWidget.
              ** intros k Hk. rewrite decorated_widgetFlag, addWidget_flag.
                 cbn [ed_widgets addMarker logMutation setMarkers].
                 rewrite decide_False by lia. apply Hclean.
    + (* cursor inside *)
      rewrite editingState_exact. cbn zeta.
      set (ed3 := match em with Some i => clearMarker i ed2 | None => ed2 end).
      assert (forall k, ownOverlapAt cls (fromPos r) (toPos toText r) (ed_markers ed3) k = false)
        as Hno.
      { intros k. subst ed3. destruct em as [i|].
        - rewrite ownOverlapAt_clearMarker. destruct (decide (i = k)) as [|Hne]; [done|].
          destruct (ownOverlapAt _ _ _ (ed_markers ed2) k) eqn:Hk; [|done].
          apply Hown in Hk. congruence.
        - destruct (ownOverlapAt _ _ _ (ed_markers ed2) k) eqn:Hk; [|done].
          apply Hown in Hk. congruence. }
      assert (ed_widgets ed3 = ed_widgets ed2) as Hws3.
      { subst ed3. destruct em; [apply clearMarker_widgets|done]. }
      assert (atMostOneWidget (to r) lwc (ed_widgets ed3)) as Hu3 by (by rewrite Hws3).
      assert (forall l, from r <= l < to r ->
                forall k, widgetFlagAt l lwc (ed_widgets ed3) k = false) as Hint3
        by (by rewrite Hws3).
      clearbody ed3.
      destruct (findLineWidgetAtLine ed3 (to r) lwc) as [j|] eqn:Hj.
      * destruct renderWhenEditing.
        -- destruct (renderer _ _ _ _ _) as [element|e] eqn:Hcall; [|discriminate].
           intros _. cbn [snd]. split; [|split].
           ++ intros l Hl' k. rewrite !widgetFlagAt_updateNode. by apply Hint3.
           ++ intros k. by rewrite !updateNode_markers.
           ++ pose proof Hj as Hj'. apply findLineWidgetAtLine_flag in Hj' as [Hjf _].
              unfold widgetFlagAt in Hjf.
              destruct (ed_widgets ed3 !! j) as [w3|] eqn:Hw3; [|done].
              exists j, (withNode (appendChild element (clearChildren (lw_node w3))) w3), element.
              split; [by rewrite !findLineWidgetAtLine_updateNode|].
              split; [by rewrite !updateNode_widgets, !list_lookup_alter_eq, Hw3|].
              split; [done|]. by destruct (lw_node w3).
        -- intros _. cbn [snd]. split; [|split].
           ++ intros l Hl' k. rewrite widgetFlagAt_clearWidget.
              destruct (decide (j = k)); [done|by apply Hint3].
           ++ intros k. by rewrite clearWidget_markers.
           ++ by apply findLineWidgetAtLine_clear_found.
      * destruct renderWhenEditing.
        -- destruct (renderer _ _ _ _ _) as [element|e] eqn:Hcall; [|discriminate].
           intros _. cbn [snd]. split; [|split].
           ++ intros l Hl' k. rewrite addWidget_flag. destruct (decide _) as [|_].
              ** apply widgetAt_newWidget_other. lia.
              ** by apply Hint3.
           ++ done.
           ++ exists (length (ed_widgets ed3)), (newWidget cls (to r) element), element.
              split; [by apply findLineWidgetAtLine_addWidget|].
              split; [unfold addWidget; cbn; by rewrite list_lookup_middle|].
              done.
        -- intros _. cbn [snd]. done.
Qed.

End Establish.

(** * Reconciling one range leaves the other ranges as they are *)

(** A marker on the lines of a range does not reach a range below or
    above. *)
Lemma spanOverlaps_disjoint r t r' m :
  line (mk_from m) = from r' -> line (mk_to m) = to r' ->
  to r' < from r \/ to r < from r' ->
  spanOverlaps (fromPos r) (toPos t r) m = false.
Proof.
  intros Hf Ht Hd. unfold spanOverlaps, posLt, fromPos, toPos. cbn. rewrite Hf, Ht.
  destruct Hd as [Hd|Hd].
  - replace (from r <? to r') with false by (symmetry; apply Z.ltb_ge; lia).
    replace (from r =? to r') with false by (symmetry; apply Z.eqb_neq; lia).
    cbn. by rewrite andb_false_r.
  - replace (from r' <? to r) with false by (symmetry; apply Z.ltb_ge; lia).
    replace (from r' =? to r) with false by (symmetry; apply Z.eqb_neq; lia).
    cbn. by rewrite !andb_false_r.
Qed.

Lemma ownOverlapAt_no_span cls fromP toP ms k m :
  ms !! k = Some m -> spanOverlaps fromP toP m = false ->
  ownOverlapAt cls fromP toP ms k = false.
Proof.
  intros Hm Hs. unfold ownOverlapAt, overlapsAt, markOverlaps. rewrite Hm, Hs.
  by rewrite andb_false_r.
Qed.

Lemma ownOverlapAt_None cls fromP toP ms k :
  ms !! k = None -> ownOverlapAt cls fromP toP ms k = false.
Proof. intros Hm. unfold ownOverlapAt, overlapsAt. by rewrite Hm. Qed.

Lemma spanMoved_lines fromP toP m :
  spanMoved fromP toP m = false ->
  line (mk_from m) = line fromP /\ line (mk_to m) = line toP.
Proof.
  unfold spanMoved. intros H. apply orb_false_iff in H as [H1 H2].
  apply negb_false_iff in H1, H2. by apply Z.eqb_eq in H1, H2.
Qed.

Lemma widgetFlagAt_off_line l c ws k w :
  ws !! k = Some w -> lw_line w <> l -> widgetFlagAt l c ws k = false.
Proof.
  intros Hw Hl. unfold widgetFlagAt, widgetAt. rewrite Hw.
  replace (lw_line w =? l) with false by (symmetry; apply Z.eqb_neq; lia).
  by rewrite andb_false_r.
Qed.

Lemma touches_sameViews cls r t r' t' ed ed' :
  touches cls (fromPos r') (toPos t' r') ed ed' ->
  noneMoved cls (fromPos r') (toPos t' r') (ed_markers ed) ->
  from r' <= to r' ->
  to r' < from r \/ to r < from r' ->
  sameViews cls r t ed ed'.
Proof.
  intros [Hl Hv Hc Hs Hml Hwl Hm Hnm Hw Hnw] Hmoved Hle Hd.
  assert (forall k,
            ed_markers ed' !! k = ed_markers ed !! k \/
            (ownOverlapAt cls (fromPos r) (toPos t r) (ed_markers ed') k = false /\
             ownOverlapAt cls (fromPos r) (toPos t r) (ed_markers ed) k = false)) as HM.
  { intros k. destruct (ed_markers ed !! k) as [m|] eqn:Hk.
    - destruct (Hm k m Hk) as [H|(m' & Hk' & Hcn & Hf & Ht & Htag & Hlive & Hsp)]; [by left|].
      right.
      assert (line (mk_from m) = from r' /\ line (mk_to m) = to r') as [Hfl Htl].
      { destruct Hsp as [Hsp|[-> ->]]; [|done].
        apply (spanMoved_lines (fromPos r') (toPos t' r')).
        apply (Hmoved k m Hk); [|done].
        unfold markOverlaps. by rewrite Hlive, Hsp. }
      split.
      + apply (ownOverlapAt_no_span _ _ _ _ _ m' Hk').
        apply (spanOverlaps_disjoint r t r'); congruence.
      + apply (ownOverlapAt_no_span _ _ _ _ _ m Hk).
        by apply (spanOverlaps_disjoint r t r').
    - destruct (ed_markers ed' !! k) as [m'|] eqn:Hk'; [|by left].
      right. split; [|by apply ownOverlapAt_None].
      destruct (Hnm k m' Hk') as (_ & Hf & Ht).
      { by apply lookup_ge_None. }
      apply (ownOverlapAt_no_span _ _ _ _ _ m' Hk').
      apply (spanOverlaps_disjoint r t r'); [by rewrite Hf|by rewrite Ht|done]. }
  assert (forall l, from r <= l <= to r -> forall k,
            ed_widgets ed' !! k = ed_widgets ed !! k \/
            (widgetFlagAt l (lineWidgetClassName cls) (ed_widgets ed') k = false /\
             widgetFlagAt l (lineWidgetClassName cls) (ed_widgets ed) k = false)) as HW.
  { intros l Hlr k. destruct (ed_widgets ed !! k) as [w|] eqn:Hk.
    - destruct (Hw k w Hk) as [H|(w' & Hk' & Hln & Hcn & Htag & Hlive & Hrange)]; [by left|].
      right. cbn in Hrange. split.
      + apply (widgetFlagAt_off_line _ _ _ _ w' Hk'). lia.
      + apply (widgetFlagAt_off_line _ _ _ _ w Hk). lia.
    - destruct (ed_widgets ed' !! k) as [w'|] eqn:Hk'; [|by left].
      right. split; [|unfold widgetFlagAt; by rewrite Hk].
      destruct (Hnw k w' Hk') as (_ & Hln).
      { by apply lookup_ge_None. }
      apply (widgetFlagAt_off_line _ _ _ _ w' Hk'). cbn in Hln. lia. }
  split; try done.
  - intros k. destruct (HM k) as [H|[H1 H2]]; [|congruence].
    unfold ownOverlapAt, overlapsAt, taggedAt. by rewrite H.
  - intros k Hk. destruct (HM k) as [H|[H1 H2]]; [done|congruence].
  - intros l Hlr k. destruct (HW l Hlr k) as [H|[H1 H2]]; [|congruence].
    unfold widgetFlagAt. by rewrite H.
  - intros l Hlr k Hk. destruct (HW l Hlr k) as [H|[H1 H2]]; [done|congruence].
Qed.

Lemma rangeWF_views cls r t ed ed' :
  sameViews cls r t ed ed' -> rangeWF cls r t ed -> rangeWF cls r t ed'.
Proof.
  intros [Hl Hs Hown Hmk Hfl Hwd] [Hu Hnm Hw]. split.
  - intros i i' Hi Hi'. rewrite Hown in Hi, Hi'. by apply Hu.
  - intros i m Hm Ho Ht.
    assert (ownOverlapAt cls (fromPos r) (toPos t r) (ed_markers ed') i = true) as Hi.
    { unfold ownOverlapAt, overlapsAt, taggedAt. by rewrite Hm, Ho, Ht. }
    rewrite Hown in Hi. rewrite (Hmk i Hi) in Hm. by apply (Hnm i m).
  - intros l Hlr j j' Hj Hj'. rewrite (Hfl l Hlr) in Hj, Hj'. by apply (Hw l Hlr).
Qed.

Section SettledViews.
Variable renderer :
  option Match -> option Match -> string -> Z -> Z -> Result HTMLElement.
Variable cls : string.
Variable renderWhenEditing : bool.
Variable isCursorOutRange : Pos -> Pos -> Pos -> bool.
Variable isRangeSelected : Pos -> Pos -> list (Pos * Pos) -> bool.

Local Abbreviation settled' :=
  (settled renderer cls renderWhenEditing isCursorOutRange isRangeSelected).

Lemma settled_views cursor r t ed ed' :
  from r <= to r ->
  sameViews cls r t ed ed' -> settled' cursor r t ed -> settled' cursor r t ed'.
Proof.
  intros Hle [Hl Hs Hown Hmk Hfl Hwd] [Hint Hcase].
  assert (findLineWidgetAtLine ed' (to r) (lineWidgetClassName cls) =
          findLineWidgetAtLine ed (to r) (lineWidgetClassName cls)) as Hfind.
  { apply findLineWidgetAtLine_ext. intros k. apply Hfl. lia. }
  unfold settled. cbn zeta. rewrite Hs. split.
  - intros l Hlr k. rewrite Hfl by lia. by apply Hint.
  - cbn zeta in Hcase.
    destruct (isRangeSelected _ _ _ && isCursorOutRange _ _ _).
    + intros k. rewrite Hown. apply Hcase.
    + destruct (isCursorOutRange _ _ _).
      * destruct Hcase as (i & m & j & Hm & Hi & Hmv & Honly & Hj).
        exists i, m, j. rewrite Hmk by done. rewrite Hown, Hfind.
        repeat split; try done. intros k. rewrite Hown. apply Honly.
      * destruct Hcase as [Hno Hw]. split; [intros k; rewrite Hown; apply Hno|].
        destruct renderWhenEditing; [|by rewrite Hfind].
        destruct Hw as (j & w & element & Hj & Hw & Hcall & Hnode).
        exists j, w, element. rewrite Hfind. unfold rendererCall in *. rewrite Hl.
        repeat split; try done.
        rewrite (Hwd (to r)); [done|lia|].
        by apply findLineWidgetAtLine_flag in Hj as [Hj _].
Qed.

End SettledViews.

(** * The ranges that the scan hands to the reconciler *)

Section ScanRanges.
Variables (startRe endRe : RegExp) (lines : list string).

Lemma ScanInv_rangesOK k st : ScanInv k st -> rangesOK (blockRangeList st).
Proof.
  intros [H1 H2 H3]. split; [done|].
  eapply Forall_impl; [exact H2|]. cbn. intros; lia.
Qed.

Lemma backoffLoop_ranges ixs st :
  let st' := snd (backoffLoop endRe lines ixs st) in
  blockRangeList st' = blockRangeList st \/
  exists i m, i ∈ ixs /\
    blockRangeList st' =
      (blockRangeList st ++
        [{| from := prevBeginTokenLineNumber st; to := i;
            beginMatch := curBeginMatch st; endMatch := m |}])%list.
Proof.
  revert st. induction ixs as [|i ixs IH]; intros st; cbn zeta; [by left|].
  cbn [backoffLoop]. unfold bind, testEnd, matchEnd, modify.
  destruct (test endRe _ _) as [b n]. cbn beta iota.
  destruct b.
  - destruct (docLine lines i) as [s|]; [|cbn; by left].
    destruct (strMatch s endRe _) as [m n']. cbn.
    right. exists i, m. split; [by left|done].
  - destruct (IH (setEndLastIndex n st)) as [H|(i' & m & Hi & H)].
    + by left.
    + right. exists i', m. split; [by right|done].
Qed.

Lemma scanRanges_rangesOK viewport afterSetValue sl el :
  afterSetValue = false \/ lineCountOf lines <= vp_to viewport ->
  rangesOK (blockRangeList
    (snd (scanRanges startRe endRe lines viewport afterSetValue (initScan sl el)))).
Proof.
  intros Hwin. unfold scanRanges.
  destruct (windowOf lines viewport afterSetValue) as [fromLine toLine] eqn:Hw.
  unfold bind at 1, scanMain.
  pose proof (scanLoop_inv startRe endRe lines fromLine toLine 0 (initScan sl el)
                ltac:(lia) (ScanInv_init sl el)) as Hinv.
  destruct (forEach _ _ _) as [[[]|e] st1]; cbn [snd] in *;
    [|by apply (ScanInv_rangesOK _ _ Hinv)].
  unfold bind, get. cbn beta iota.
  destruct (meetBeginToken st1) eqn:Hm; [|by apply (ScanInv_rangesOK _ _ Hinv)].
  destruct (backoffLoop_ranges (zrange (vp_to viewport) (lineCountOf lines)) st1)
    as [H|(i & m & Hi & H)]; cbn zeta in H; rewrite H.
  { by apply (ScanInv_rangesOK _ _ Hinv). }
  apply elem_of_zrange in Hi.
  assert (toLine = vp_to viewport) as ->.
  { unfold windowOf in Hw. destruct Hwin as [->|Hle]; [congruence|].
    destruct afterSetValue; [lia|congruence]. }
  destruct Hinv as [H1 H2 H3]. destruct (H3 Hm) as [Hp Hlt].
  split.
  - apply StronglySorted_app_2; [|done|repeat constructor].
    intros a b Ha Hb. apply list_elem_of_singleton in Hb as ->.
    unfold rangeBefore. cbn. by apply (proj1 (Forall_forall _ _) Hlt).
  - apply Forall_app. split.
    + eapply Forall_impl; [exact H2|]. cbn. intros; lia.
    + repeat constructor; cbn; lia.
Qed.

End ScanRanges.

(** * Two passes in a row *)

Section TwoPasses.
Variable renderer :
  option Match -> option Match -> string -> Z -> Z -> Result HTMLElement.
Variable spanRenderer : unit -> Result HTMLElement.
Variable cls : string.
Variable clearOnClick : bool.
Variable renderWhenEditing : bool.
Variable isCursorOutRange : Pos -> Pos -> Pos -> bool.
Variable isRangeSelected : Pos -> Pos -> list (Pos * Pos) -> bool.

Local Abbreviation markRange' :=
  (markRange renderer spanRenderer cls clearOnClick renderWhenEditing
     isCursorOutRange isRangeSelected).
Local Abbreviation settled' :=
  (settled renderer cls renderWhenEditing isCursorOutRange isRangeSelected).

(** The range has a defined end line and is settled. *)
Local Abbreviation settledIn cursor ed :=
  (fun r => exists t, docLine (ed_lines ed) (to r) = Some t /\ settled' cursor r t ed).

Lemma settled_withLog cursor r t l ed :
  settled' cursor r t ed -> settled' cursor r t (withLog l ed).
Proof. intros H. exact H. Qed.

(** The first pass settles every range, one after the other: the ranges
    done stay settled while the ranges below are reconciled, and the ranges
    to come stay well formed. *)
Lemma first_pass cursor todo : forall done ed,
  StronglySorted rangeBefore (done ++ todo) ->
  Forall (fun r => from r < to r) (done ++ todo) ->
  Forall (settledIn cursor ed) done ->
  storeWF cls todo ed ->
  fst (forEach (markRange' cursor) todo ed) = Ok tt ->
  let ed' := snd (forEach (markRange' cursor) todo ed) in
  ed_lines ed' = ed_lines ed /\ Forall (settledIn cursor ed') (done ++ todo).
Proof.
  induction todo as [|r todo IH]; intros done ed Hsort Hprop Hdone Hwf Hok; cbn zeta.
  { cbn. by rewrite app_nil_r. }
  rewrite forEach_cons in Hok |- *.
  destruct (docLine (ed_lines ed) (to r)) as [t|] eqn:Hl; last first.
  { rewrite (markRange_undefined_line _ _ _ _ _ _ _ _ _ _ Hl) in Hok. done. }
  pose proof (markRange_touches renderer spanRenderer cls clearOnClick
                renderWhenEditing isCursorOutRange isRangeSelected cursor r ed t Hl)
    as Htouch.
  assert (r ∈ r :: todo) as Hr by left.
  pose proof (Hwf r t Hr Hl) as Hwfr.
  assert (from r < to r) as Hlt.
  { apply (proj1 (Forall_forall _ _) Hprop). apply elem_of_app. by right. }
  pose proof (establish renderer spanRenderer cls clearOnClick renderWhenEditing
                isCursorOutRange isRangeSelected cursor r t ed Hl Hlt Hwfr) as Hest.
  destruct (markRange' cursor r ed) as [[[]|e] ed1] eqn:Hstep; cbn [fst snd] in *;
    [|done].
  specialize (Hest eq_refl).
  pose proof (t_lines _ _ _ _ _ Htouch) as Hlines.
  assert (forall r' t', r' ∈ (done ++ todo)%list -> from r' <= to r' ->
            sameViews cls r' t' ed ed1) as Hframe.
  { intros r' t' Hr' Hle. apply (touches_sameViews cls r' t' r t); try done.
    - by destruct Hwfr.
    - lia.
    - apply elem_of_app in Hr' as [Hd|Htd].
      + right. apply StronglySorted_app_1_elem_of with (x1 := r') (x2 := r) in Hsort;
          [done|done|by left].
      + left. apply StronglySorted_app_1_r in Hsort.
        apply StronglySorted_inv in Hsort as [_ Hall].
        by apply (proj1 (Forall_forall _ _) Hall). }
  assert (forall r', r' ∈ (done ++ r :: todo)%list -> from r' <= to r') as Hle.
  { intros r' Hr'. apply (proj1 (Forall_forall _ _) Hprop) in Hr'. lia. }
  assert (((done ++ [r]) ++ todo)%list = (done ++ r :: todo)%list) as Hassoc.
  { by rewrite <- app_assoc. }
  specialize (IH (done ++ [r])%list ed1). rewrite Hassoc in IH.
  destruct IH as [IH1 IH2]; try done.
  - apply Forall_app. split.
    + apply Forall_forall. intros d Hd.
      destruct (proj1 (Forall_forall _ _) Hdone d Hd) as (t' & Hl' & Hs').
      exists t'. rewrite Hlines. split; [done|].
      assert (d ∈ (done ++ r :: todo)%list) as Hd' by (apply elem_of_app; by left).
      apply (settled_views _ _ _ _ _ cursor d t' ed ed1); [by apply Hle| |done].
      apply Hframe; [apply elem_of_app; by left|by apply Hle].
    + repeat constructor. exists t. by rewrite Hlines.
  - intros r' t' Hr' Hl'. rewrite Hlines in Hl'.
    assert (r' ∈ (done ++ r :: todo)%list) as Hr'' by (apply elem_of_app; right; by right).
    apply (rangeWF_views cls r' t' ed ed1).
    + apply Hframe; [apply elem_of_app; by right|by apply Hle].
    + apply Hwf; [by right|done].
  - split; [congruence|done].
Qed.

(** The second pass finds every range settled: it returns, and all it does
    is rebuild the content of widgets in place. *)
Lemma second_pass cursor rs : forall ed,
  Forall (settledIn cursor ed) rs ->
  exists extra,
    forEach (markRange' cursor) rs ed = (Ok tt, withLog (ed_log ed ++ extra) ed) /\
    Forall isRebuild extra /\
    (renderWhenEditing = false -> extra = []) /\
    ((forall r t, r ∈ rs -> docLine (ed_lines ed) (to r) = Some t ->
        isCursorOutRange cursor (fromPos r) (toPos t r) = true) -> extra = []).
Proof.
  induction rs as [|r rs IH]; intros ed Hall.
  { exists []. cbn. by rewrite withLog_id. }
  apply Forall_cons in Hall as [(t & Hl & Hs) Hall].
  destruct (settled_step renderer spanRenderer cls clearOnClick renderWhenEditing
              isCursorOutRange isRangeSelected cursor r t ed Hl Hs)
    as (extra1 & Hstep & Hre1 & Hoff1 & Hout1).
  destruct (IH (withLog (ed_log ed ++ extra1) ed)) as (extra2 & Hrest & Hre2 & Hoff2 & Hout2).
  { eapply Forall_impl; [exact Hall|]. cbn. intros r' (t' & Hl' & Hs').
    exists t'. split; [done|by apply settled_withLog]. }
  exists (extra1 ++ extra2)%list. rewrite forEach_cons, Hstep, Hrest.
  split; [|split; [|split]].
  - f_equal. unfold withLog. cbn. by rewrite app_assoc.
  - by apply Forall_app.
  - intros H. by rewrite Hoff1, Hoff2.
  - intros H. rewrite Hout1, Hout2; [done| |].
    + intros r' t' Hr' Hl'. apply H; [by right|done].
    + apply H; [by left|done].
Qed.

End TwoPasses.

(** * [process] called twice *)

(** C2 (as stated, refuted). On the sample document with the cursor on
    line 2, inside the block, and [renderWhenEditing] set, the second call
    of [process] empties the widget of the block and renders its content
    again: two mutations of the DOM, with nothing changed in between. *)
Lemma second_call_rebuilds_widget :
  let p := process echoRenderer spanOk "blk" true true
             cursorOutsideLines selectionOverlaps beginRe endRe true in
  let w1 := snd (p (freshWorld (sampleEditor {| line := 2; ch := 0 |}
                                  {| vp_from := 0; vp_to := 6 |}))) in
  let w2 := snd (p w1) in
  fst (p w1) = Ok tt /\
  ed_log (w_editor w1) = [AddLineWidget 0] /\
  ed_log (w_editor w2) = [AddLineWidget 0; SetInnerHTML 0; AppendChild 0] /\
  ed_widgets (w_editor w2) = ed_widgets (w_editor w1).
Proof. vm_compute. done. Qed.

(** Without the invariant of the store the two calls differ: a marker that
    no longer spans the block is cleared by the first call, which creates
    nothing, and the second call creates the pair. *)
Example stale_marker_store_drifts :
  let p := process echoRenderer spanOk "blk" true false
             cursorOutsideLines selectionOverlaps beginRe endRe true in
  let w1 := snd (p (freshWorld (decoratedEditor 2 {| line := 5; ch := 0 |}))) in
  let w2 := snd (p w1) in
  fst (p w1) = Ok tt /\
  map mk_cleared (ed_markers (w_editor w1)) = [true] /\
  map mk_cleared (ed_markers (w_editor w2)) = [true; false] /\
  map lw_cleared (ed_widgets (w_editor w1)) = [true] /\
  map lw_cleared (ed_widgets (w_editor w2)) = [true; false].
Proof. vm_compute. done. Qed.

Section ProcessTwice.
Variable renderer :
  option Match -> option Match -> string -> Z -> Z -> Result HTMLElement.
Variable spanRenderer : unit -> Result HTMLElement.
Variable cls : string.
Variable clearOnClick : bool.
Variable renderWhenEditing : bool.
Variable isCursorOutRange : Pos -> Pos -> Pos -> bool.
Variable isRangeSelected : Pos -> Pos -> list (Pos * Pos) -> bool.
Variables (startRe endRe : RegExp).

Local Abbreviation process' :=
  (process renderer spanRenderer cls clearOnClick renderWhenEditing
     isCursorOutRange isRangeSelected startRe endRe).
Local Abbreviation markRange' :=
  (markRange renderer spanRenderer cls clearOnClick renderWhenEditing
     isCursorOutRange isRangeSelected).
Local Abbreviation markRanges' :=
  (_markRanges renderer spanRenderer cls clearOnClick renderWhenEditing
     isCursorOutRange isRangeSelected).

(** The ranges that a call of [process] on [w] hands to the reconciler. *)
Local Abbreviation rangesOf afterSetValue w :=
  (blockRangeList
     (snd (scanRanges startRe endRe (ed_lines (w_editor w))
             (ed_viewport (w_editor w)) afterSetValue
             (initScan (w_startLastIndex w) (w_endLastIndex w))))).

(** C2 (amended). With token patterns that keep no state, a window that
    the second loop does not scan again, and a store in which every block
    found has at most one attached marker of the engine, on the lines of
    the block, and at most one attached widget of the engine per line, a
    call of [process] that returns can be followed by a second call: the
    second call returns, leaves every marker and every widget of the store
    as the first call left them, and mutates the DOM only by rebuilding
    widget content in place, which it does not do when [renderWhenEditing]
    is off or when the cursor is outside every block found. *)
Theorem second_call_keeps_store afterSetValue w w1 :
  re_stateful startRe = false ->
  re_stateful endRe = false ->
  afterSetValue = false \/
    lineCountOf (ed_lines (w_editor w)) <= vp_to (ed_viewport (w_editor w)) ->
  storeWF cls (rangesOf afterSetValue w) (w_editor w) ->
  process' afterSetValue w = (Ok tt, w1) ->
  exists extra,
    process' afterSetValue w1 =
      (Ok tt, {| w_editor := withLog (ed_log (w_editor w1) ++ extra) (w_editor w1);
                 w_startLastIndex := w_startLastIndex w1;
                 w_endLastIndex := w_endLastIndex w1 |}) /\
    Forall isRebuild extra /\
    (renderWhenEditing = false -> extra = []) /\
    ((forall r t, r ∈ rangesOf afterSetValue w ->
        docLine (ed_lines (w_editor w)) (to r) = Some t ->
        isCursorOutRange (ed_cursor (w_editor w)) (fromPos r) (toPos t r) = true) ->
     extra = []).
Proof.
  intros Hstart Hend Hwin Hwf Hfirst.
  pose proof (scanRanges_rangesOK startRe endRe (ed_lines (w_editor w))
                (ed_viewport (w_editor w)) afterSetValue
                (w_startLastIndex w) (w_endLastIndex w) Hwin) as [Hsort Hprop].
  unfold process in Hfirst.
  destruct (scanRanges startRe endRe (ed_lines (w_editor w))
              (ed_viewport (w_editor w)) afterSetValue
              (initScan (w_startLastIndex w) (w_endLastIndex w)))
    as [[[]|e] st] eqn:Hscan; [|done].
  cbn [snd] in *.
  assert (forall ed1,
            ed_lines ed1 = ed_lines (w_editor w) ->
            ed_viewport ed1 = ed_viewport (w_editor w) ->
            scanRanges startRe endRe (ed_lines ed1) (ed_viewport ed1) afterSetValue
              (initScan (startLastIndex st) (endLastIndex st)) =
              (Ok tt, withLastIndex (startLastIndex st) (endLastIndex st) st))
    as Hagain.
  { intros ed1 -> ->.
    change (initScan (startLastIndex st) (endLastIndex st))
      with (withLastIndex (startLastIndex st) (endLastIndex st)
              (initScan (w_startLastIndex w) (w_endLastIndex w))).
    rewrite (scanRanges_withLastIndex startRe endRe (ed_lines (w_editor w)) Hstart Hend).
    by rewrite Hscan. }
  destruct (blockRangeList st) as [|r0 rs] eqn:Hrs.
  - (* no block: the reconciler is not called *)
    injection Hfirst as <-. exists []. unfold process. cbn [w_editor w_startLastIndex w_endLastIndex].
    rewrite (Hagain (w_editor w) eq_refl eq_refl).
    cbn [withLastIndex setStartLastIndex setEndLastIndex blockRangeList
         startLastIndex endLastIndex].
    rewrite Hrs, withLog_id. done.
  - destruct (markRanges' (r0 :: rs) (w_editor w)) as [res ed1] eqn:Hmr.
    injection Hfirst as -> <-. cbn [w_editor w_startLastIndex w_endLastIndex].
    pose proof (markRanges_ownOnly renderer spanRenderer cls clearOnClick
                  renderWhenEditing isCursorOutRange isRangeSelected
                  (r0 :: rs) (w_editor w)) as Hown.
    rewrite Hmr in Hown. cbn [snd] in Hown.
    destruct Hown as [Hlines Hview Hcur _ _ _ _ _].
    unfold _markRanges in Hmr. unfold bind at 1, get at 1 in Hmr. cbn beta iota in Hmr.
    destruct (first_pass renderer spanRenderer cls clearOnClick renderWhenEditing
                isCursorOutRange isRangeSelected (ed_cursor (w_editor w))
                (r0 :: rs) [] (w_editor w)) as [_ Hsettled].
    + done.
    + eapply Forall_impl; [exact Hprop|]. cbn. intros; lia.
    + constructor.
    + done.
    + by rewrite Hmr.
    + rewrite Hmr in Hsettled. cbn [snd app] in Hsettled.
      destruct (second_pass renderer spanRenderer cls clearOnClick renderWhenEditing
                  isCursorOutRange isRangeSelected (ed_cursor (w_editor w))
                  (r0 :: rs) ed1 Hsettled) as (extra & Hsecond & Hre & Hoff & Hout).
      exists extra. split; [|split; [done|split; [done|]]].
      * unfold process. cbn [w_editor w_startLastIndex w_endLastIndex].
        rewrite (Hagain ed1 Hlines Hview).
        cbn [withLastIndex setStartLastIndex setEndLastIndex blockRangeList
             startLastIndex endLastIndex].
        rewrite Hrs. unfold _markRanges. unfold bind at 1, get at 1. cbn beta iota.
        rewrite Hcur, Hsecond. done.
      * intros H. apply Hout. intros r t Hr Hl. rewrite Hlines in Hl. by apply H.
Qed.

End ProcessTwice.

Lemma second_call_keeps_store_witness :
  let p := process echoRenderer spanOk "blk" true false
             cursorOutsideLines selectionOverlaps beginRe endRe true in
  let w1 := snd (p (freshWorld (sampleEditor {| line := 5; ch := 0 |}
                                  {| vp_from := 0; vp_to := 6 |}))) in
  exists extra,
    p w1 = (Ok tt, {| w_editor := withLog (ed_log (w_editor w1) ++ extra) (w_editor w1);
                      w_startLastIndex := w_startLastIndex w1;
                      w_endLastIndex := w_endLastIndex w1 |}) /\
    extra = [].
Proof.
  cbv zeta.
  destruct (second_call_keeps_store echoRenderer spanOk "blk" true false
              cursorOutsideLines selectionOverlaps beginRe endRe true
              (freshWorld (sampleEditor {| line := 5; ch := 0 |}
                             {| vp_from := 0; vp_to := 6 |}))
              (snd (process echoRenderer spanOk "blk" true false
                      cursorOutsideLines selectionOverlaps beginRe endRe true
                      (freshWorld (sampleEditor {| line := 5; ch := 0 |}
                                     {| vp_from := 0; vp_to := 6 |})))))
    as (extra & Hp & _ & Hoff & _).
  - reflexivity.
  - reflexivity.
  - right. vm_compute. discriminate.
  - intros r t _ _. split.
    + intros i i' Hi. destruct i; discriminate Hi.
    + intros i m Hm. destruct i; discriminate Hm.
    + intros l _ j j' Hj. destruct j; discriminate Hj.
  - reflexivity.
  - exists extra. split; [exact Hp|exact (Hoff eq_refl)].
Defined.

(** * [parseItemJson] *)

Lemma getProp_TypeError v k e : getProp v k = Throw e -> e = TypeError.
Proof. destruct v; cbn; congruence. Qed.

Lemma hasKey_TypeError k v e : hasKey k v = Throw e -> e = TypeError.
Proof. destruct v; cbn; congruence. Qed.

(** A value with one readable property has them all readable. *)
Lemma getProp_defined v k k' a : getProp v k = Ok a -> exists b, getProp v k' = Ok b.
Proof. destruct v; cbn; intros; try done; eauto. Qed.

Lemma hasKey_not_object k v : isObject v = false -> hasKey k v = Throw TypeError.
Proof. by destruct v. Qed.

Lemma fieldOr_object d part k dflt p :
  getProp d part = Ok p -> isObject p = true ->
  fieldOr d part k dflt = Ok (fieldValue p k dflt).
Proof.
  intros Hp Ho. unfold fieldOr. rewrite Hp. cbn [bindR].
  destruct p; try done; cbn.
  unfold is_Some. destruct (o !! k) as [v|] eqn:Hk; cbn; [by rewrite ?Hk|done].
Qed.

Lemma fieldOr_not_object d part k dflt p :
  getProp d part = Ok p -> isObject p = false ->
  fieldOr d part k dflt = Throw TypeError.
Proof.
  intros Hp Ho. unfold fieldOr. rewrite Hp. cbn [bindR].
  by rewrite (hasKey_not_object k p Ho).
Qed.

Lemma fieldOr_unreadable d part k dflt e :
  getProp d part = Throw e -> fieldOr d part k dflt = Throw TypeError.
Proof.
  intros Hp. unfold fieldOr. rewrite Hp. cbn. by rewrite (getProp_TypeError _ _ _ Hp).
Qed.

Lemma ratingOf_object d u :
  getProp d "user_data" = Ok u -> isObject u = true ->
  ratingOf d = Ok (ratingValue u).
Proof.
  intros Hu Ho. unfold ratingOf, ratingValue. rewrite Hu. cbn [bindR].
  destruct u; try done; cbn.
  unfold is_Some. destruct (o !! "rating") as [v|] eqn:Hk; cbn; [|done].
  rewrite ?Hk. cbn. destruct (truthy v); [|done]. cbn. by rewrite ?Hk.
Qed.

(** The item that [parseItemJson] builds from an object [article] and an
    object [user_data]. *)
Lemma parseItemJson_objects d c a u :
  getProp d "article" = Ok a -> isObject a = true ->
  getProp d "user_data" = Ok u -> isObject u = true ->
  exists i, getProp d "id" = Ok i /\
  parseItemJson d c =
    Ok {| pi_title := fieldValue a "title" (JStr "");
          pi_journal := fieldValue a "journal" (JStr "Unknown");
          pi_authors := fieldValue a "authors" (JArr []);
          pi_tags := fieldValue u "tags" (JArr []);
          pi_rating := ratingValue u;
          pi_abstract := fieldValue a "abstract" (JStr "");
          pi_collection_id := c;
          pi_year := fieldValue a "year" (JNum 1000%float);
          pi_id := i;
          pi_notes := fieldValue u "notes" (JStr "");
          pi_annotations := [];
          pi_issn := fieldValue a "issn" (JStr "");
          pi_volume := fieldValue a "volume" (JStr "");
          pi_url := fieldValue a "url" (JStr "");
          pi_pagination := fieldValue a "pagination" (JStr "");
          pi_journal_abbrev := fieldValue a "journal_abbrev" (JStr "") |}.
Proof.
  intros Ha Hia Hu Hiu.
  destruct (getProp_defined d "article" "id" a Ha) as [i Hi].
  exists i. split; [done|]. unfold parseItemJson.
  rewrite !(fieldOr_object d "article" _ _ a Ha Hia).
  rewrite !(fieldOr_object d "user_data" _ _ u Hu Hiu).
  rewrite (ratingOf_object d u Hu Hiu), Hi. reflexivity.
Qed.

(** The two ways [parseItemJson] ends. *)
Lemma parseItemJson_cases d c :
  (exists a u, getProp d "article" = Ok a /\ isObject a = true /\
               getProp d "user_data" = Ok u /\ isObject u = true) \/
  (parseItemJson d c = Throw TypeError /\
   ~ exists a u, getProp d "article" = Ok a /\ isObject a = true /\
                 getProp d "user_data" = Ok u /\ isObject u = true).
Proof.
  destruct (getProp d "article") as [a|e] eqn:Ha.
  2:{ right. split; [|by intros (? & ? & ? & _)].
      unfold parseItemJson. by rewrite (fieldOr_unreadable _ _ _ _ _ Ha). }
  destruct (isObject a) eqn:Hia.
  2:{ right. split; [|intros (a' & ? & Ha' & Hia' & _); congruence].
      unfold parseItemJson. by rewrite (fieldOr_not_object _ _ _ _ _ Ha Hia). }
  destruct (getProp_defined d "article" "user_data" a Ha) as [u Hu].
  destruct (isObject u) eqn:Hiu.
  - left. exists a, u. by rewrite Hu.
  - right. split; [|intros (? & u' & _ & _ & Hu' & Hiu'); congruence].
    unfold parseItemJson.
    rewrite !(fieldOr_object d "article" _ _ a Ha Hia). cbn [bindR].
    by rewrite (fieldOr_not_object _ _ _ _ _ Hu Hiu).
Qed.

(** X1. [parseItemJson] returns exactly when [itemData] is neither [null]
    nor [undefined] and both [itemData.article] and [itemData.user_data] are
    objects (or arrays); in every other case it throws [TypeError]. *)
Theorem parseItemJson_returns_iff d c :
  ((exists p, parseItemJson d c = Ok p) <->
   (exists a u, getProp d "article" = Ok a /\ isObject a = true /\
                getProp d "user_data" = Ok u /\ isObject u = true)) /\
  ((exists p, parseItemJson d c = Ok p) \/ parseItemJson d c = Throw TypeError).
Proof.
  destruct (parseItemJson_cases d c) as [(a & u & Ha & Hia & Hu & Hiu)|[Hp Hno]].
  - destruct (parseItemJson_objects d c a u Ha Hia Hu Hiu) as (i & _ & Hp).
    rewrite Hp. split; [|left; by eauto].
    split; [|by eauto]. intros _. by exists a, u.
  - rewrite Hp. split; [|by right]. split; [by intros [? ?]|done].
Qed.

(** X2. The rating of a parsed item is never falsy: a rating that is
    missing, [0], [null], [false], the empty string or [NaN] is replaced by
    [-1], and any other rating is kept as it is. The collection id of the
    item is the argument of the call and its list of annotations is empty,
    whatever the answer of the server holds under these names. *)
Theorem parsed_rating_is_truthy d c p :
  parseItemJson d c = Ok p ->
  truthy (pi_rating p) = true /\
  (forall u, getProp d "user_data" = Ok u ->
     pi_rating p = (if truthy (fieldValue u "rating" JUndefined)
                    then fieldValue u "rating" JUndefined
                    else JNum (-1)%float)) /\
  pi_collection_id p = c /\
  pi_annotations p = [].
Proof.
  intros Hp.
  destruct (parseItemJson_cases d c) as [(a & u & Ha & Hia & Hu & Hiu)|[Hp' _]];
    [|congruence].
  destruct (parseItemJson_objects d c a u Ha Hia Hu Hiu) as (i & _ & Hp').
  rewrite Hp' in Hp. injection Hp as <-. cbn. unfold ratingValue.
  split; [|split; [|done]].
  - destruct (truthy (fieldValue u "rating" JUndefined)) eqn:Ht; [done|reflexivity].
  - intros u' Hu'. rewrite Hu in Hu'. by injection Hu' as <-.
Qed.

(** * The requests of [PapersLib] *)

Lemma foldM_liftR {S A B} (f : A -> Result B) xs acc (s : S) :
  foldM (fun acc x => b <- liftR (f x) ;; ret (acc ++ [b])%list) acc xs s =
    (match mapR f xs with
     | Ok bs => Ok (acc ++ bs)%list
     | Throw e => Throw e
     end, s).
Proof.
  revert acc. induction xs as [|x xs IH]; intros acc; cbn.
  { by rewrite app_nil_r. }
  unfold bind at 1 2, liftR at 1. destruct (f x) as [b|e]; cbn; [|done].
  rewrite IH. destruct (mapR f xs) as [bs|e]; cbn; [|done].
  by rewrite <- app_assoc.
Qed.

Lemma mapR_Forall {A B} (f : A -> Result B) (P : B -> Prop) xs bs :
  (forall x b, f x = Ok b -> P b) -> mapR f xs = Ok bs -> Forall P bs.
Proof.
  intros Hf. revert bs. induction xs as [|x xs IH]; intros bs; cbn.
  { intros [= <-]. constructor. }
  destruct (f x) as [b|e] eqn:Hx; cbn; [|done].
  destruct (mapR f xs) as [bs'|e]; cbn; [|done].
  intros [= <-]. constructor; [by eapply Hf|by apply IH].
Qed.

Lemma mapR_length {A B} (f : A -> Result B) xs bs :
  mapR f xs = Ok bs -> length bs = length xs.
Proof.
  revert bs. induction xs as [|x xs IH]; intros bs; cbn.
  { by intros [= <-]. }
  destruct (f x) as [b|e]; cbn; [|done].
  destruct (mapR f xs) as [bs'|e]; cbn; [|done].
  intros [= <-]. cbn. by rewrite (IH bs').
Qed.

Section Requests.
Variable Server : Type.
Variable fetchJson : string -> JSValue -> M Server JSValue.
Variable numberToString : float -> string.
Variable cookie : JSValue.

Local Abbreviation getItemsLoop' := (getItemsLoop Server fetchJson numberToString cookie).
Local Abbreviation getItems' := (getItems Server fetchJson numberToString cookie).
Local Abbreviation getItem' := (getItem Server fetchJson numberToString cookie).
Local Abbreviation getAnnotation' := (getAnnotation Server fetchJson numberToString cookie).
Local Abbreviation getCollections' := (getCollections Server fetchJson cookie).
Local Abbreviation getAllItems' := (getAllItems Server fetchJson numberToString cookie).
Local Abbreviation serves' := (serves Server fetchJson numberToString cookie).
Local Abbreviation nextPageUrl' := (nextPageUrl numberToString).
Local Abbreviation firstPageUrl' := (firstPageUrl numberToString).

(** One round of the loop of [getItems]. *)
Lemma getItemsLoop_round fuel cid requestUrl results n :
  getItemsLoop' (S fuel) cid requestUrl results n =
    let n0 := logged LogFetching n in
    match fetchJson requestUrl cookie (net_server n) with
    | (Throw e, s1) => (Throw e, answered s1 n0)
    | (Ok resJson, s1) =>
        let n1 := answered s1 n0 in
        match getProp resJson "status" with
        | Throw e => (Throw e, n1)
        | Ok status =>
            if strictEqStr status "ok" then
              match getProp resJson "items" with
              | Throw e => (Throw e, n1)
              | Ok items =>
                  match iterate items with
                  | Throw e => (Throw e, n1)
                  | Ok its =>
                      match mapR (fun item => parseItemJson item cid) its with
                      | Throw e => (Throw e, n1)
                      | Ok parsed =>
                          let results' := (results ++ parsed)%list in
                          match getProp resJson "total" with
                          | Throw e => (Throw e, n1)
                          | Ok total =>
                              let n2 := logged (LogProgress (length results') total) n1 in
                              if negb (lengthOf items =? 0)%nat then
                                match getProp resJson "scroll_id" with
                                | Throw e => (Throw e, n2)
                                | Ok scroll_id =>
                                    getItemsLoop' fuel cid (nextPageUrl' cid scroll_id)
                                      results' n2
                                end
                              else (Ok (Some results'), n2)
                          end
                      end
                  end
              end
            else (Ok (Some results), n1)
        end
    end.
Proof.
  cbn [getItemsLoop]. unfold bind at 1, consoleLog at 1, modify at 1.
  unfold bind at 1, fetch at 1. cbn [net_server net_console logged].
  destruct (fetchJson requestUrl cookie (net_server n)) as [[resJson|e] s1]; [|done].
  unfold bind at 1, liftR at 1.
  destruct (getProp resJson "status") as [status|e]; [|done].
  cbn zeta. destruct (strictEqStr status "ok"); [|done].
  unfold bind at 1, liftR at 1.
  destruct (getProp resJson "items") as [items|e]; [|done].
  unfold bind at 1, liftR at 1.
  destruct (iterate items) as [its|e]; [|done].
  unfold bind at 1. rewrite foldM_liftR.
  destruct (mapR _ its) as [parsed|e]; [|done].
  unfold bind at 1, liftR at 1.
  destruct (getProp resJson "total") as [total|e]; [|done].
  unfold bind at 1, consoleLog at 1, modify at 1.
  destruct (negb (lengthOf items =? 0)%nat); [|done].
  unfold bind at 1, liftR at 1.
  by destruct (getProp resJson "scroll_id").
Qed.


(** A page with items sends the loop to the next page. *)
Lemma fullPage_round fuel cid requestUrl results n p s1 parsed :
  fetchJson requestUrl cookie (net_server n) = (Ok p, s1) ->
  fullPage cid p parsed ->
  exists n2,
    net_server n2 = s1 /\
    getItemsLoop' (S fuel) cid requestUrl results n =
      getItemsLoop' fuel cid (nextPageUrl' cid (scrollOf p)) (results ++ parsed)%list n2.
Proof.
  intros Hfetch (Hst & Hne & Hparsed).
  rewrite getItemsLoop_round, Hfetch. cbn zeta.
  unfold okStatus in Hst. unfold pageItems in Hne, Hparsed. unfold scrollOf.
  destruct (getProp p "status") as [status|e] eqn:Hstatus; [|done]. rewrite Hst.
  destruct (getProp_defined p "status" "total" status Hstatus) as [total ->].
  destruct (getProp_defined p "status" "scroll_id" status Hstatus) as [scroll_id ->].
  destruct (getProp p "items") as [[| | | | |xs|]|e]; try done.
  cbn [iterate]. rewrite Hparsed. destruct xs as [|x xs]; [done|]. cbn [lengthOf length].
  cbn [Nat.eqb negb]. eexists. split; [|reflexivity]. reflexivity.
Qed.

(** A page without items, or an answer whose status is not ok, ends it. *)
Lemma lastPage_round fuel cid requestUrl results n stop s1 :
  fetchJson requestUrl cookie (net_server n) = (Ok stop, s1) ->
  lastPage stop ->
  exists n2,
    net_server n2 = s1 /\
    getItemsLoop' (S fuel) cid requestUrl results n = (Ok (Some results), n2).
Proof.
  intros Hfetch [[status Hstatus] Hlast].
  rewrite getItemsLoop_round, Hfetch. cbn zeta. rewrite Hstatus.
  unfold okStatus in Hlast. rewrite Hstatus in Hlast.
  destruct (strictEqStr status "ok"); [|eexists; split; [|reflexivity]; reflexivity].
  destruct Hlast as [|Hitems]; [done|]. rewrite Hitems. cbn.
  destruct (getProp_defined stop "status" "total" status Hstatus) as [total ->].
  rewrite app_nil_r. eexists; split; [|reflexivity]; reflexivity.
Qed.

Lemma getItemsLoop_pages cid stop s' pages : forall requestUrl results n fuel,
  serves' cid (net_server n) requestUrl (map fst pages) stop s' ->
  Forall (fun pg => fullPage cid (fst pg) (snd pg)) pages ->
  lastPage stop ->
  (length pages < fuel)%nat ->
  exists n',
    net_server n' = s' /\
    getItemsLoop' fuel cid requestUrl results n =
      (Ok (Some (results ++ concat (map snd pages))%list), n').
Proof.
  induction pages as [|[p parsed] pages IH]; intros requestUrl results n fuel Hs Hfull Hlast Hfuel.
  - destruct fuel as [|fuel]; [cbn in Hfuel; lia|]. cbn in Hs.
    destruct (lastPage_round fuel cid requestUrl results n stop s' Hs Hlast) as (n2 & Hn2 & ->).
    exists n2. cbn. by rewrite app_nil_r.
  - destruct fuel as [|fuel]; [cbn in Hfuel; lia|]. cbn in Hs, Hfuel.
    destruct Hs as (s1 & Hfetch & Hs).
    apply Forall_cons in Hfull as [Hp Hfull]. cbn in Hp.
    destruct (fullPage_round fuel cid requestUrl results n p s1 parsed Hfetch Hp)
      as (n2 & Hn2 & ->).
    destruct (IH (nextPageUrl' cid (scrollOf p)) (results ++ parsed)%list n2 fuel)
      as (n' & Hn' & ->); try done; [by rewrite Hn2|lia|].
    exists n'. split; [done|]. cbn. by rewrite <- app_assoc.
Qed.

(** X3. [getItems] goes through the pages of a collection: when the server
    answers the first request with a page of items, each following request
    (made with the [scroll_id] of the page before) with the next page, and
    then with a page without items or with a status other than ok, the call
    returns the parsed items of all the pages, in order, and makes no
    request after that last answer. *)
Theorem getItems_collects_pages cid pages stop n s' fuel :
  serves' cid (net_server n) (firstPageUrl' cid) (map fst pages) stop s' ->
  Forall (fun pg => fullPage cid (fst pg) (snd pg)) pages ->
  lastPage stop ->
  (length pages < fuel)%nat ->
  exists n',
    net_server n' = s' /\
    getItems' fuel cid n = (Ok (Some (concat (map snd pages))), n').
Proof.
  intros Hs Hfull Hlast Hfuel. unfold getItems.
  destruct (getItemsLoop_pages cid stop s' pages (firstPageUrl' cid) [] n fuel)
    as (n' & Hn' & ->); try done.
  by exists n'.
Qed.

(** X4. The loop of [getItems] has no bound of its own: with a server that
    answers every request with a page of at least one item, the call never
    returns, however many rounds it is given. *)
Theorem getItems_never_returns cid :
  (forall requestUrl s, exists p s1 parsed,
      fetchJson requestUrl cookie s = (Ok p, s1) /\ fullPage cid p parsed) ->
  forall fuel n, fst (getItems' fuel cid n) = Ok None.
Proof.
  intros Hserver fuel. unfold getItems.
  generalize (firstPageUrl' cid). generalize (@nil PaperItem).
  induction fuel as [|fuel IH]; intros results requestUrl n; [done|].
  destruct (Hserver requestUrl (net_server n)) as (p & s1 & parsed & Hfetch & Hp).
  destruct (fullPage_round fuel cid requestUrl results n p s1 parsed Hfetch Hp)
    as (n2 & _ & ->).
  apply IH.
Qed.

Lemma getItemsLoop_invariant (P : PaperItem -> Prop) cid :
  (forall item p, parseItemJson item cid = Ok p -> P p) ->
  forall fuel requestUrl results n found,
    Forall P results ->
    fst (getItemsLoop' fuel cid requestUrl results n) = Ok (Some found) ->
    Forall P found.
Proof.
  intros HP. induction fuel as [|fuel IH]; intros requestUrl results n found Hres; [done|].
  rewrite getItemsLoop_round. cbn zeta.
  destruct (fetchJson requestUrl cookie (net_server n)) as [[resJson|e] s1]; [|done].
  destruct (getProp resJson "status") as [status|e]; [|done].
  destruct (strictEqStr status "ok"); [|cbn; by intros [= <-]].
  destruct (getProp resJson "items") as [items|e]; [|done].
  destruct (iterate items) as [its|e]; [|done].
  destruct (mapR _ its) as [parsed|e] eqn:Hparsed; [|done].
  destruct (getProp resJson "total") as [total|e]; [|done].
  assert (Forall P (results ++ parsed)%list) as Hall.
  { apply Forall_app. split; [done|].
    apply (mapR_Forall (fun item => parseItemJson item cid) P its parsed); [|done].
    intros x b. apply HP. }
  destruct (negb (lengthOf items =? 0)%nat); [|cbn; by intros [= <-]].
  destruct (getProp resJson "scroll_id") as [scroll_id|e]; [|done].
  by apply IH.
Qed.

(** X5. Every item that [getItems] returns carries the collection id the
    call was made with, an empty list of annotations and a rating that is
    not falsy, whatever the server answered and however many pages it took. *)
Theorem getItems_items_of_collection cid fuel n found :
  fst (getItems' fuel cid n) = Ok (Some found) ->
  Forall (fun p => pi_collection_id p = cid /\ pi_annotations p = [] /\
                   truthy (pi_rating p) = true) found.
Proof.
  unfold getItems. apply getItemsLoop_invariant; [|constructor].
  intros item p Hp.
  destruct (parseItemJson_cases item cid) as [(a & u & Ha & Hia & Hu & Hiu)|[Hp' _]];
    [|congruence].
  destruct (parseItemJson_objects item cid a u Ha Hia Hu Hiu) as (i & _ & Hp').
  rewrite Hp' in Hp. injection Hp as <-. cbn. unfold ratingValue.
  split; [done|split; [done|]].
  destruct (truthy (fieldValue u "rating" JUndefined)) eqn:Ht; [done|reflexivity].
Qed.


Lemma okStatus_object b : okStatus b = true -> exists o, b = JObj o.
Proof.
  unfold okStatus. destruct b; cbn; try done. by eexists.
Qed.

Lemma getProp_not_null x k :
  x <> JNull -> x <> JUndefined -> getProp x k = Ok (fieldValue x k JUndefined).
Proof. by destruct x. Qed.

Lemma mapR_total {A B} (f : A -> Result B) (g : A -> B) xs :
  Forall (fun x => f x = Ok (g x)) xs -> mapR f xs = Ok (map g xs).
Proof.
  induction 1 as [|x xs Hx _ IH]; cbn; [done|]. by rewrite Hx, IH.
Qed.

Lemma foldM_liftR_map {S A B C} (f : A -> Result B) (g : B -> C) xs acc (s : S) :
  foldM (fun acc x => b <- liftR (f x) ;; ret (acc ++ [g b])%list) acc xs s =
    (match mapR f xs with
     | Ok bs => Ok (acc ++ map g bs)%list
     | Throw e => Throw e
     end, s).
Proof.
  revert acc. induction xs as [|x xs IH]; intros acc; cbn.
  { by rewrite app_nil_r. }
  unfold bind at 1 2, liftR at 1. destruct (f x) as [b|e]; cbn; [|done].
  rewrite IH. destruct (mapR f xs) as [bs|e]; cbn; [|done].
  by rewrite <- app_assoc.
Qed.

(** [getCollections] on an answer without status ok. *)
Lemma getCollections_none n b s1 :
  fetchJson collectionsUrl cookie (net_server n) = (Ok b, s1) ->
  truthy b && okStatus b = false ->
  getCollections' n = (Ok [], answered s1 n).
Proof.
  intros Hfetch Hno. unfold getCollections, bind at 1, fetch at 1. rewrite Hfetch.
  unfold bind at 1. unfold okStatus in Hno.
  destruct (truthy b) eqn:Ht; cbn in Hno |- *; [|done].
  unfold bind at 1, liftR at 1.
  destruct (getProp b "status") as [status|e] eqn:Hst; [|by destruct b].
  unfold ret. by rewrite Hno.
Qed.

(** [getCollections] on an answer with status ok and an array. *)
Lemma getCollections_array n b s1 xs :
  fetchJson collectionsUrl cookie (net_server n) = (Ok b, s1) ->
  okStatus b = true -> getProp b "collections" = Ok (JArr xs) ->
  Forall (fun x => x <> JNull /\ x <> JUndefined) xs ->
  getCollections' n =
    (Ok (map (fun x => {| col_id := fieldValue x "id" JUndefined |}) xs),
     answered s1 n).
Proof.
  intros Hfetch Hok Hcs Hxs. destruct (okStatus_object b Hok) as [o ->].
  unfold getCollections, bind at 1, fetch at 1. rewrite Hfetch.
  unfold bind at 1. cbn [truthy]. unfold okStatus in Hok.
  unfold bind at 1, liftR at 1.
  destruct (getProp (JObj o) "status") as [status|e]; [|done].
  unfold ret at 1. rewrite Hok.
  unfold bind at 1, liftR at 1. rewrite Hcs.
  unfold bind at 1, liftR at 1. cbn [iterate].
  rewrite (foldM_liftR_map (fun item => getProp item "id") (fun i => {| col_id := i |})).
  rewrite (mapR_total _ (fun x => fieldValue x "id" JUndefined)).
  - cbn. by rewrite map_map.
  - eapply Forall_impl; [exact Hxs|]. cbn. intros x [H1 H2].
    by apply getProp_not_null.
Qed.

(** X6. [getCollections] and [getAnnotation] answer with the empty list,
    and do not throw, when the status of the answer is not ok
    ([getCollections]: also when the body is [null] or another falsy
    value). With status ok and an array of elements none of which is
    [null], they return one entry per element, in order: the id of the
    element, or its id, type, text, note and color id, [undefined] standing
    for what the element does not have. *)
Theorem lists_follow_the_answer cid iid n b s1 :
  (fetchJson collectionsUrl cookie (net_server n) = (Ok b, s1) ->
   (truthy b && okStatus b = false -> getCollections' n = (Ok [], answered s1 n)) /\
   (forall xs, okStatus b = true -> getProp b "collections" = Ok (JArr xs) ->
      Forall (fun x => x <> JNull /\ x <> JUndefined) xs ->
      getCollections' n =
        (Ok (map (fun x => {| col_id := fieldValue x "id" JUndefined |}) xs),
         answered s1 n))) /\
  (fetchJson (annotationsUrl numberToString cid iid) cookie (net_server n) = (Ok b, s1) ->
   (b <> JNull -> b <> JUndefined -> okStatus b = false ->
    getAnnotation' cid iid n = (Ok [], answered s1 n)) /\
   (forall xs, okStatus b = true -> getProp b "annotations" = Ok (JArr xs) ->
      Forall (fun x => x <> JNull /\ x <> JUndefined) xs ->
      getAnnotation' cid iid n = (Ok (map annotationFields xs), answered s1 n))).
Proof.
  split; intros Hfetch; split.
  - by apply (getCollections_none n b s1).
  - intros xs. by apply (getCollections_array n b s1).
  - intros H1 H2 Hno. unfold getAnnotation, bind at 1, fetch at 1. rewrite Hfetch.
    unfold bind at 1, liftR at 1. rewrite (getProp_not_null b "status" H1 H2).
    unfold okStatus in Hno. rewrite (getProp_not_null b "status" H1 H2) in Hno.
    by rewrite Hno.
  - intros xs Hok Has Hxs. destruct (okStatus_object b Hok) as [o ->].
    unfold getAnnotation, bind at 1, fetch at 1. rewrite Hfetch.
    unfold okStatus in Hok. unfold bind at 1, liftR at 1.
    destruct (getProp (JObj o) "status") as [status|e]; [|done].
    rewrite Hok. unfold bind at 1, liftR at 1. rewrite Has.
    unfold bind at 1, liftR at 1. cbn [iterate].
    rewrite foldM_liftR.
    rewrite (mapR_total _ annotationFields); [done|].
    eapply Forall_impl; [exact Hxs|]. cbn. intros x [H1 H2].
    unfold annotationOf. by rewrite !(getProp_not_null x _ H1 H2).
Qed.

(** X7. Only [getCollections] guards against an empty body: when the
    answer is [null], [getItems], [getItem] and [getAnnotation] throw
    [TypeError] at the read of [status]. [getItem] returns [null] when the
    status of a readable answer is not ok, and with status ok the parsed
    item, or the [TypeError] of [parseItemJson]. *)
Theorem null_answer_is_not_guarded cid iid fuel n b s1 :
  (fetchJson (firstPageUrl' cid) cookie (net_server n) = (Ok JNull, s1) ->
   fst (getItems' (S fuel) cid n) = Throw TypeError) /\
  (fetchJson (annotationsUrl numberToString cid iid) cookie (net_server n) = (Ok JNull, s1) ->
   fst (getAnnotation' cid iid n) = Throw TypeError) /\
  (fetchJson (itemUrl numberToString cid iid) cookie (net_server n) = (Ok b, s1) ->
   getItem' cid iid n =
     (match b with
      | JNull | JUndefined => Throw TypeError
      | _ =>
          if okStatus b then
            match parseItemJson (fieldValue b "item" JUndefined) cid with
            | Ok p => Ok (Some p)
            | Throw _ => Throw TypeError
            end
          else Ok None
      end, answered s1 n)).
Proof.
  split; [|split]; intros Hfetch.
  - unfold getItems. rewrite getItemsLoop_round, Hfetch. done.
  - unfold getAnnotation, bind at 1, fetch at 1. by rewrite Hfetch.
  - unfold getItem, bind at 1, fetch at 1. rewrite Hfetch.
    unfold bind at 1, liftR at 1. unfold okStatus.
    destruct (getProp b "status") as [status|e] eqn:Hstatus;
      [|destruct b; cbn in Hstatus; try done; by injection Hstatus as <-].
    assert (b <> JNull /\ b <> JUndefined) as [H1 H2] by (by destruct b).
    assert ((if strictEqStr status "ok" then
               bind (liftR (getProp b "item"))
                 (fun item => bind (liftR (parseItemJson item cid))
                                (fun p => ret (Some p)))
             else ret None) (answered s1 n) =
            (if strictEqStr status "ok" then
               match parseItemJson (fieldValue b "item" JUndefined) cid with
               | Ok p => Ok (Some p)
               | Throw _ => Throw TypeError
               end
             else Ok None, answered s1 n)) as ->.
    { destruct (strictEqStr status "ok"); [|done].
      unfold bind at 1, liftR at 1. rewrite (getProp_not_null b "item" H1 H2).
      unfold bind, liftR, ret.
      destruct (parseItemJson_cases (fieldValue b "item" JUndefined) cid)
        as [(a & u & Ha & Hia & Hu & Hiu)|[-> _]]; [|done].
      destruct (parseItemJson_objects _ cid a u Ha Hia Hu Hiu) as (i & _ & ->). done. }
    by destruct b.
Qed.

(** X8. [getAllItems] reads the id of the first collection without a
    check. When [getCollections] finds no collection (the status of the
    answer is not ok, the body is empty, or the list is empty) it throws
    [TypeError] and makes no second request. Otherwise it is [getItems] on
    the id of the first collection, [undefined] when that element has no
    id; the other collections are left out. *)
Theorem getAllItems_first_collection fuel n b s1 :
  fetchJson collectionsUrl cookie (net_server n) = (Ok b, s1) ->
  (truthy b && okStatus b = false \/
   (okStatus b = true /\ getProp b "collections" = Ok (JArr [])) ->
   getAllItems' fuel n = (Throw TypeError, answered s1 n)) /\
  (forall x xs, okStatus b = true -> getProp b "collections" = Ok (JArr (x :: xs)) ->
     Forall (fun x => x <> JNull /\ x <> JUndefined) (x :: xs) ->
     getAllItems' fuel n =
       getItems' fuel (fieldValue x "id" JUndefined) (answered s1 n)).
Proof.
  intros Hfetch. split.
  - intros Hno. unfold getAllItems, bind.
    assert (getCollections' n = (Ok [], answered s1 n)) as ->; [|done].
    destruct Hno as [Hno|[Hok Hcs]]; [by apply (getCollections_none n b s1)|].
    by rewrite (getCollections_array n b s1 [] Hfetch Hok Hcs).
  - intros x xs Hok Hcs Hxs. unfold getAllItems, bind.
    by rewrite (getCollections_array n b s1 (x :: xs) Hfetch Hok Hcs Hxs).
Qed.

End Requests.

Lemma parsed_rating_is_truthy_witness :
  truthy (pi_rating samplePaper) = true /\ pi_rating samplePaper = JNum (-1)%float.
Proof.
  destruct (parsed_rating_is_truthy samplePaperJson (JStr "c1") samplePaper)
    as (H1 & H2 & _).
  - vm_compute. reflexivity.
  - split; [exact H1|reflexivity].
Defined.

Lemma getItems_collects_pages_witness :
  exists n',
    net_server n' = [JNull] /\
    getItems (list JSValue) scriptedFetch sampleNumberToString JNull 2 (JStr "c1")
      (freshNet [itemsPage [samplePaperJson] "s1"; itemsPage [] "s2"; JNull]) =
      (Ok (Some [samplePaper]), n').
Proof.
  apply (getItems_collects_pages (list JSValue) scriptedFetch sampleNumberToString JNull
           (JStr "c1") [(itemsPage [samplePaperJson] "s1", [samplePaper])]
           (itemsPage [] "s2")
           (freshNet [itemsPage [samplePaperJson] "s1"; itemsPage [] "s2"; JNull])
           [JNull] 2).
  - cbn. eexists. split; reflexivity.
  - repeat constructor; vm_compute; done.
  - split; [by eexists|right; vm_compute; reflexivity].
  - cbn. lia.
Defined.

Lemma getItems_never_returns_witness :
  fst (getItems unit (constantFetch (itemsPage [samplePaperJson] "s1"))
         sampleNumberToString JNull 5 (JStr "c1") (freshNet tt)) = Ok None.
Proof.
  apply (getItems_never_returns unit (constantFetch (itemsPage [samplePaperJson] "s1"))
           sampleNumberToString JNull (JStr "c1")).
  intros requestUrl s. exists (itemsPage [samplePaperJson] "s1"), s, [samplePaper].
  split; [reflexivity|]. repeat split; vm_compute; done.
Defined.

Lemma getItems_items_of_collection_witness :
  Forall (fun p => pi_collection_id p = JStr "c1" /\ pi_annotations p = [] /\
                   truthy (pi_rating p) = true) [samplePaper].
Proof.
  apply (getItems_items_of_collection (list JSValue) scriptedFetch sampleNumberToString
           JNull (JStr "c1") 2
           (freshNet [itemsPage [samplePaperJson] "s1"; itemsPage [] "s2"])).
  vm_compute. reflexivity.
Defined.

Lemma lists_follow_the_answer_witness :
  getCollections (list JSValue) scriptedFetch JNull (freshNet [JNull]) =
    (Ok [], freshNet []) /\
  getAnnotation (list JSValue) scriptedFetch sampleNumberToString JNull
    (JStr "c1") (JStr "p1")
    (freshNet [JObj (list_to_map
       [("status", JStr "ok");
        ("annotations", JArr [JObj (list_to_map [("id", JStr "a1"); ("text", JStr "t")])])])]) =
    (Ok [{| an_id := JStr "a1"; an_type := JUndefined; an_text := JStr "t";
            an_note := JUndefined; an_color_id := JUndefined |}], freshNet []).
Proof.
  split.
  - destruct (lists_follow_the_answer (list JSValue) scriptedFetch sampleNumberToString
                JNull (JStr "c1") (JStr "p1") (freshNet [JNull]) JNull [])
      as [H _].
    destruct (H eq_refl) as [H1 _]. exact (H1 eq_refl).
  - set (b := JObj (list_to_map
       [("status", JStr "ok");
        ("annotations", JArr [JObj (list_to_map [("id", JStr "a1"); ("text", JStr "t")])])])).
    destruct (lists_follow_the_answer (list JSValue) scriptedFetch sampleNumberToString
                JNull (JStr "c1") (JStr "p1") (freshNet [b]) b [])
      as [_ H].
    destruct (H eq_refl) as [_ H2].
    rewrite (H2 [JObj (list_to_map [("id", JStr "a1"); ("text", JStr "t")])]).
    + vm_compute. reflexivity.
    + vm_compute. reflexivity.
    + vm_compute. reflexivity.
    + repeat constructor; discriminate.
Defined.

Lemma null_answer_is_not_guarded_witness :
  fst (getItems (list JSValue) scriptedFetch sampleNumberToString JNull 1 (JStr "c1")
         (freshNet [JNull])) = Throw TypeError /\
  getItem (list JSValue) scriptedFetch sampleNumberToString JNull (JStr "c1") (JStr "p1")
    (freshNet [errorAnswer]) = (Ok None, freshNet []).
Proof.
  split.
  - destruct (null_answer_is_not_guarded (list JSValue) scriptedFetch sampleNumberToString
                JNull (JStr "c1") (JStr "p1") 0 (freshNet [JNull]) JNull [])
      as (H & _ & _).
    exact (H eq_refl).
  - destruct (null_answer_is_not_guarded (list JSValue) scriptedFetch sampleNumberToString
                JNull (JStr "c1") (JStr "p1") 0 (freshNet [errorAnswer]) errorAnswer [])
      as (_ & _ & H).
    rewrite (H eq_refl). vm_compute. reflexivity.
Defined.

Lemma getAllItems_first_collection_witness :
  getAllItems (list JSValue) scriptedFetch sampleNumberToString JNull 3
    (freshNet [errorAnswer; itemsPage [samplePaperJson] "s1"]) =
    (Throw TypeError, freshNet [itemsPage [samplePaperJson] "s1"]).
Proof.
  destruct (getAllItems_first_collection (list JSValue) scriptedFetch sampleNumberToString
              JNull 3 (freshNet [errorAnswer; itemsPage [samplePaperJson] "s1"])
              errorAnswer [itemsPage [samplePaperJson] "s1"] eq_refl) as [H _].
  apply H. left. vm_compute. reflexivity.
Defined.

(** * The ranges of a pass hold the tokens *)

(** A counting loop whose body returns keeps an invariant that follows the
    counter. *)
Lemma forEach_zrange_inv {S} (body : Z -> M S unit) (I : Z -> S -> Prop) lo0 hi :
  (forall i s, lo0 <= i < hi -> I i s ->
     fst (body i s) = Ok tt /\ I (i + 1) (snd (body i s))) ->
  forall lo s, lo0 <= lo -> I lo s ->
    fst (forEach body (zrange lo hi) s) = Ok tt /\
    I (Z.max lo hi) (snd (forEach body (zrange lo hi) s)).
Proof.
  intros Hstep lo. pattern lo, (zrange lo hi). apply zrange_ind; clear lo.
  - intros lo Hle s Hlo Hs. cbn. by replace (Z.max lo hi) with lo by lia.
  - intros lo Hlt IH s Hlo Hs. rewrite forEach_cons.
    destruct (Hstep lo s ltac:(lia) Hs) as [H1 H2].
    destruct (body lo s) as [[[]|e] s']; cbn [fst snd] in *; [|done].
    replace (Z.max lo hi) with (Z.max (lo + 1) hi) by lia. apply IH; [lia|done].
Qed.

Lemma zrange_split lo j hi :
  lo <= j < hi -> zrange lo hi = (zrange lo j ++ j :: zrange (j + 1) hi)%list.
Proof.
  intros [H1 H2]. revert H1. pattern lo, (zrange lo j). apply zrange_ind; clear lo.
  - intros lo Hle Hlo. assert (lo = j) as -> by lia. cbn. by apply zrange_cons.
  - intros lo Hlt IH Hlo. rewrite (zrange_cons lo hi) by lia. cbn. f_equal.
    apply IH. lia.
Qed.

Section Tokens.
Variables (startRe endRe : RegExp) (lines : list string).
Hypothesis Hstart : re_stateful startRe = false.
Hypothesis Hend : re_stateful endRe = false.

Local Abbreviation tokensAt' := (tokensAt startRe endRe lines).
Local Abbreviation openAt' := (openAt startRe endRe lines).
Local Abbreviation step := (scanStep startRe endRe lines).

Lemma lineTests_Some re i s :
  docLine lines i = Some s -> lineTests re lines i = fst (test re s 0).
Proof. intros H. unfold lineTests. by rewrite H. Qed.

Lemma scanStep_tokens fromLine i st :
  0 <= i < lineCountOf lines ->
  TokenInv startRe endRe lines i st ->
  fst (step fromLine i st) = Ok tt /\
  TokenInv startRe endRe lines (i + 1) (snd (step fromLine i st)).
Proof using Hstart Hend.
  intros Hi [Hall Hopen]. destruct (docLine_Some lines i Hi) as [s Hs].
  rewrite (scanStep_stateless startRe endRe lines Hstart Hend fromLine i s st Hs).
  split; [done|]. cbn [snd]. unfold openAt in Hopen.
  destruct (meetBeginToken st) eqn:Hm.
  - destruct (Hopen eq_refl) as (Hb & Hbetween & sb & Hsb & Hcur).
    destruct (fst (test endRe s 0)) eqn:Hte.
    + destruct (fromLine <=? i).
      * split; [|by intros [=]]. cbn. apply Forall_app. split; [done|].
        repeat constructor; cbn; try done.
        -- by rewrite (lineTests_Some _ _ _ Hs).
        -- by exists sb.
        -- by exists s.
      * split; [done|by intros [=]].
    + split; [done|]. intros _. split; [done|]. split; [|by exists sb].
      intros l Hl. destruct (decide (l = i)) as [->|Hne].
      * by rewrite (lineTests_Some _ _ _ Hs).
      * apply Hbetween. lia.
  - destruct (fst (test startRe s 0)) eqn:Hts.
    + split; [done|]. intros _. cbn. split; [by rewrite (lineTests_Some _ _ _ Hs)|].
      split; [intros l Hl; lia|by exists s].
    + split; [done|]. intros Hm'. congruence.
Qed.

Lemma scanMain_tokens fromLine toLine sl el :
  toLine <= lineCountOf lines ->
  let res := scanMain startRe endRe lines fromLine toLine (initScan sl el) in
  fst res = Ok tt /\ TokenInv startRe endRe lines (Z.max 0 toLine) (snd res).
Proof using Hstart Hend.
  intros Hto. unfold scanMain.
  apply (forEach_zrange_inv (step fromLine) (TokenInv startRe endRe lines) 0 toLine).
  - intros i st Hi. apply scanStep_tokens. lia.
  - done.
  - split; [constructor|]. intros H. discriminate H.
Qed.

(** The second loop, on lines of the document none of which holds the end
    token. *)
Lemma backoffLoop_none ixs st :
  Forall (fun i => lineTests endRe lines i = false) ixs ->
  fst (backoffLoop endRe lines ixs st) = Ok tt /\
  sameScanner (snd (backoffLoop endRe lines ixs st)) st /\
  blockRangeList (snd (backoffLoop endRe lines ixs st)) = blockRangeList st.
Proof using Hend.
  intros Hall. revert st. induction Hall as [|i ixs Hi _ IH]; intros st; [done|].
  cbn [backoffLoop]. unfold bind at 1 3 5, testEnd at 1 2 3.
  rewrite (test_stateless endRe _ _ Hend). unfold lineTests in Hi. rewrite Hi.
  cbn beta iota. destruct (IH (setEndLastIndex (endLastIndex st) st)) as (H1 & H2 & H3).
  by destruct st.
Qed.

(** The second loop stops at the first line that holds the end token. *)
Lemma backoffLoop_first pre j post st s :
  Forall (fun i => lineTests endRe lines i = false) pre ->
  docLine lines j = Some s -> lineTests endRe lines j = true ->
  fst (backoffLoop endRe lines (pre ++ j :: post) st) = Ok tt /\
  blockRangeList (snd (backoffLoop endRe lines (pre ++ j :: post) st)) =
    (blockRangeList st ++
       [{| from := prevBeginTokenLineNumber st; to := j;
           beginMatch := curBeginMatch st;
           endMatch := fst (strMatch s endRe 0) |}])%list.
Proof using Hend.
  intros Hall Hs Hj. revert st. induction Hall as [|i ixs Hi _ IH]; intros st.
  - cbn [app backoffLoop]. unfold bind, testEnd, matchEnd, modify.
    rewrite (test_stateless endRe _ _ Hend). unfold lineTests in Hj. rewrite Hj.
    rewrite Hs. cbn [endLastIndex setEndLastIndex].
    rewrite (strMatch_stateless endRe s _ Hend). done.
  - cbn [app backoffLoop]. unfold bind at 1 3, testEnd at 1 2.
    rewrite (test_stateless endRe _ _ Hend). unfold lineTests in Hi. rewrite Hi.
    cbn beta iota. destruct (IH (setEndLastIndex (endLastIndex st) st)) as [H1 H2].
    by destruct st.
Qed.


(** Either no line of [[lo, hi)] has the property, or there is a first one
    that has it. *)
Lemma zrange_first (P : Z -> bool) hi lo :
  (forall l, lo <= l < hi -> P l = false) \/
  exists j, lo <= j < hi /\ P j = true /\ forall l, lo <= l < j -> P l = false.
Proof.
  pattern lo, (zrange lo hi). apply zrange_ind; clear lo.
  - intros lo Hle. left. intros l Hl. lia.
  - intros lo Hlt [IH|(j & Hj & Pj & Hbefore)].
    + destruct (P lo) eqn:Hlo.
      * right. exists lo. split; [lia|]. split; [done|]. intros l Hl. lia.
      * left. intros l Hl. destruct (decide (l = lo)) as [->|]; [done|]. apply IH. lia.
    + destruct (P lo) eqn:Hlo.
      * right. exists lo. split; [lia|]. split; [done|]. intros l Hl. lia.
      * right. exists j. split; [lia|]. split; [done|]. intros l Hl.
        destruct (decide (l = lo)) as [->|]; [done|]. apply Hbefore. lia.
Qed.

(** The two loops of a pass on a window that ends in the document and that
    the second loop does not read again. *)
Lemma scanRanges_backoff viewport afterSetValue sl el :
  vp_to viewport <= lineCountOf lines ->
  afterSetValue = false \/ lineCountOf lines <= vp_to viewport ->
  let fromLine := fst (windowOf lines viewport afterSetValue) in
  let main := snd (scanMain startRe endRe lines fromLine (vp_to viewport) (initScan sl el)) in
  let res := scanRanges startRe endRe lines viewport afterSetValue (initScan sl el) in
  fst res = Ok tt /\
  TokenInv startRe endRe lines (Z.max 0 (vp_to viewport)) main /\
  ScanInv (Z.max 0 (vp_to viewport)) main /\
  (meetBeginToken main = false -> blockRangeList (snd res) = blockRangeList main) /\
  (meetBeginToken main = true ->
   ((forall l, vp_to viewport <= l < lineCountOf lines -> lineTests endRe lines l = false) ->
    blockRangeList (snd res) = blockRangeList main) /\
   (forall j s, vp_to viewport <= j < lineCountOf lines ->
      docLine lines j = Some s -> lineTests endRe lines j = true ->
      (forall l, vp_to viewport <= l < j -> lineTests endRe lines l = false) ->
      blockRangeList (snd res) =
        (blockRangeList main ++
           [{| from := prevBeginTokenLineNumber main; to := j;
               beginMatch := curBeginMatch main;
               endMatch := fst (strMatch s endRe 0) |}])%list)).
Proof using Hstart Hend.
  intros Hto Hwin. cbn zeta.
  assert (windowOf lines viewport afterSetValue =
          (fst (windowOf lines viewport afterSetValue), vp_to viewport)) as Hw.
  { unfold windowOf. destruct afterSetValue; [|done]. cbn. f_equal.
    destruct Hwin as [|Hle]; [done|lia]. }
  unfold scanRanges. rewrite Hw. cbn [fst].
  set (fromLine := fst (windowOf lines viewport afterSetValue)).
  destruct (scanMain_tokens fromLine (vp_to viewport) sl el Hto) as [Hok Hinv].
  pose proof (scanLoop_inv startRe endRe lines fromLine (vp_to viewport) 0 (initScan sl el)
                ltac:(lia) (ScanInv_init sl el)) as Hscan.
  unfold scanMain in *. unfold bind at 1 3 5 7.
  destruct (forEach _ _ _) as [[[]|e] main]; cbn [fst snd] in *; [|done].
  unfold bind, get. cbn beta iota.
  destruct (meetBeginToken main) eqn:Hm.
  - split.
    { destruct (zrange_first (lineTests endRe lines) (lineCountOf lines) (vp_to viewport))
        as [Hnone|(j & Hj & Pj & Hbefore)].
      - apply backoffLoop_none. apply Forall_forall. intros l Hl.
        apply Hnone. by apply elem_of_zrange.
      - destruct Hscan as [_ _ Hopen]. destruct (Hopen Hm) as [Hp _].
        destruct (docLine_Some lines j ltac:(lia)) as [s Hs].
        rewrite (zrange_split (vp_to viewport) j (lineCountOf lines) Hj).
        apply (backoffLoop_first (zrange (vp_to viewport) j) j _ main s); try done.
        apply Forall_forall. intros l Hl. apply Hbefore. by apply elem_of_zrange. }
    split; [done|]. split; [done|]. split; [done|]. intros _. split.
    + intros Hnone. apply backoffLoop_none. apply Forall_forall. intros l Hl.
      apply Hnone. by apply elem_of_zrange.
    + intros j s Hj Hs Pj Hbefore.
      rewrite (zrange_split (vp_to viewport) j (lineCountOf lines) Hj).
      apply (backoffLoop_first (zrange (vp_to viewport) j) j _ main s); try done.
      apply Forall_forall. intros l Hl. apply Hbefore. by apply elem_of_zrange.
  - cbn. split; [done|]. split; [done|]. split; [done|]. split; [done|].
    intros H. discriminate H.
Qed.

End Tokens.

(** X9. With token patterns that keep no state, on a window that ends in
    the document and that the second loop does not read again, the scan of
    [process] returns, and every range it hands to the reconciler lies on the
    tokens: its first line holds the begin token, its last line the end
    token, no line between them holds the end token, and its two matches are
    the matches of these two lines. *)
Theorem ranges_hold_the_tokens startRe endRe lines viewport afterSetValue sl el :
  re_stateful startRe = false -> re_stateful endRe = false ->
  vp_to viewport <= lineCountOf lines ->
  afterSetValue = false \/ lineCountOf lines <= vp_to viewport ->
  let res := scanRanges startRe endRe lines viewport afterSetValue (initScan sl el) in
  fst res = Ok tt /\
  Forall (tokensAt startRe endRe lines) (blockRangeList (snd res)).
Proof.
  intros Hstart Hend Hto Hwin.
  destruct (scanRanges_backoff startRe endRe lines Hstart Hend viewport afterSetValue
              sl el Hto Hwin) as (Hok & [Hall Hopen] & Hscan & Hclosed & Hopened).
  cbn zeta in *. split; [done|].
  set (main := snd (scanMain startRe endRe lines
                      (fst (windowOf lines viewport afterSetValue)) (vp_to viewport)
                      (initScan sl el))) in *.
  destruct (meetBeginToken main) eqn:Hm; [|by rewrite (Hclosed eq_refl)].
  destruct (Hopened eq_refl) as [Hnone Hfirst].
  destruct (zrange_first (lineTests endRe lines) (lineCountOf lines) (vp_to viewport))
    as [Hno|(j & Hj & Pj & Hbefore)]; [by rewrite (Hnone Hno)|].
  destruct Hscan as [_ _ Hprev]. destruct (Hprev Hm) as [Hp _].
  destruct (docLine_Some lines j ltac:(lia)) as [s Hs].
  rewrite (Hfirst j s Hj Hs Pj Hbefore).
  apply Forall_app. split; [done|]. repeat constructor; cbn.
  - by destruct (Hopen Hm).
  - done.
  - intros l Hl. destruct (Hopen Hm) as (_ & Hb & _).
    destruct (Z.lt_ge_cases l (vp_to viewport)); [apply Hb; lia|apply Hbefore; lia].
  - by destruct (Hopen Hm) as (_ & _ & Hc).
  - by exists s.
Qed.

(** X10. With token patterns that keep no state and a viewport that ends in
    the document, a pass over the viewport whose bounded scan ends in an open
    block goes on below the viewport: it adds exactly one range, from the
    open line to the first line at or after the end of the viewport that
    holds the end token, and no range when no such line holds it; when the
    bounded scan ends outside a block, the second loop adds nothing. *)
Theorem open_block_is_closed_below_viewport startRe endRe lines viewport sl el :
  re_stateful startRe = false -> re_stateful endRe = false ->
  vp_to viewport <= lineCountOf lines ->
  let main := snd (scanMain startRe endRe lines (vp_from viewport) (vp_to viewport)
                     (initScan sl el)) in
  let res := scanRanges startRe endRe lines viewport false (initScan sl el) in
  fst res = Ok tt /\
  (meetBeginToken main = false -> blockRangeList (snd res) = blockRangeList main) /\
  (meetBeginToken main = true ->
   ((forall l, vp_to viewport <= l < lineCountOf lines -> lineTests endRe lines l = false) ->
    blockRangeList (snd res) = blockRangeList main) /\
   (forall j s, vp_to viewport <= j < lineCountOf lines ->
      docLine lines j = Some s -> lineTests endRe lines j = true ->
      (forall l, vp_to viewport <= l < j -> lineTests endRe lines l = false) ->
      blockRangeList (snd res) =
        (blockRangeList main ++
           [{| from := prevBeginTokenLineNumber main; to := j;
               beginMatch := curBeginMatch main;
               endMatch := fst (strMatch s endRe 0) |}])%list)).
Proof.
  intros Hstart Hend Hto.
  destruct (scanRanges_backoff startRe endRe lines Hstart Hend viewport false
              sl el Hto (or_introl eq_refl)) as (Hok & _ & _ & Hclosed & Hopened).
  done.
Qed.

Lemma ranges_hold_the_tokens_witness :
  Forall (tokensAt beginRe endRe sampleDoc)
    (blockRangeList
       (snd (scanRanges beginRe endRe sampleDoc {| vp_from := 0; vp_to := 2 |} false
               (initScan 0 0)))).
Proof.
  apply (ranges_hold_the_tokens beginRe endRe sampleDoc {| vp_from := 0; vp_to := 2 |}
           false 0 0).
  - reflexivity.
  - reflexivity.
  - vm_compute. discriminate.
  - left. reflexivity.
Defined.

Lemma open_block_is_closed_below_viewport_witness :
  blockRangeList
    (snd (scanRanges beginRe endRe sampleDoc {| vp_from := 0; vp_to := 2 |} false
            (initScan 0 0))) = [sampleRange].
Proof.
  destruct (open_block_is_closed_below_viewport beginRe endRe sampleDoc
              {| vp_from := 0; vp_to := 2 |} 0 0 eq_refl eq_refl) as (_ & _ & H).
  - vm_compute. discriminate.
  - destruct (H eq_refl) as [_ Hfirst].
    rewrite (Hfirst 4 "END>>>").
    + reflexivity.
    + cbn. vm_compute. split; [discriminate|reflexivity].
    + reflexivity.
    + reflexivity.
    + intros l Hl. cbn in Hl.
      assert (l = 2 \/ l = 3) as [-> | ->] by lia; reflexivity.
Defined.

(** * A document without begin token *)

Lemma forEach_inv_ok {S A} (body : A -> M S unit) (I : S -> Prop) (xs : list A) :
  (forall x s, I s -> fst (body x s) = Ok tt /\ I (snd (body x s))) ->
  forall s, I s -> fst (forEach body xs s) = Ok tt /\ I (snd (forEach body xs s)).
Proof.
  intros Hbody. induction xs as [|x xs IH]; intros s Hs; [done|].
  rewrite forEach_cons. destruct (Hbody x s Hs) as [H1 H2].
  destruct (body x s) as [[[]|e] s']; cbn [fst snd] in *; [by apply IH|done].
Qed.

(** X11. When no line that the scan reads holds the begin token, [process]
    returns without a range and without a call of the reconciler: the
    editor, its decorations and the log of mutations are left as they are,
    whatever the end pattern matches and whatever state the patterns
    keep. *)
Theorem no_begin_token_no_pass renderer spanRenderer cls clearOnClick renderWhenEditing
    isCursorOutRange isRangeSelected startRe endRe afterSetValue w :
  (forall i n, fst (test startRe (toStr (docLine (ed_lines (w_editor w)) i)) n) = false) ->
  let res := process renderer spanRenderer cls clearOnClick renderWhenEditing
               isCursorOutRange isRangeSelected startRe endRe afterSetValue w in
  fst res = Ok tt /\ w_editor (snd res) = w_editor w /\
  w_endLastIndex (snd res) = w_endLastIndex w.
Proof.
  intros Hno. cbn zeta. unfold process.
  set (lines := ed_lines (w_editor w)) in *.
  assert (scanRanges startRe endRe lines (ed_viewport (w_editor w)) afterSetValue
            (initScan (w_startLastIndex w) (w_endLastIndex w)) =
          (Ok tt, snd (scanRanges startRe endRe lines (ed_viewport (w_editor w))
                         afterSetValue
                         (initScan (w_startLastIndex w) (w_endLastIndex w)))) /\
          blockRangeList
            (snd (scanRanges startRe endRe lines (ed_viewport (w_editor w)) afterSetValue
                    (initScan (w_startLastIndex w) (w_endLastIndex w)))) = [] /\
          endLastIndex
            (snd (scanRanges startRe endRe lines (ed_viewport (w_editor w)) afterSetValue
                    (initScan (w_startLastIndex w) (w_endLastIndex w)))) =
            w_endLastIndex w) as (Hscan & Hnil & Hend).
  { unfold scanRanges.
    destruct (windowOf lines (ed_viewport (w_editor w)) afterSetValue) as [fromLine toLine].
    unfold scanMain.
    destruct (forEach_inv_ok (scanStep startRe endRe lines fromLine)
                (fun st => meetBeginToken st = false /\ blockRangeList st = [] /\
                           endLastIndex st = w_endLastIndex w)
                (zrange 0 toLine)) with (s := initScan (w_startLastIndex w) (w_endLastIndex w))
      as (Hok & Hm & Hl & He).
    - intros i st (Hm & Hl & He). unfold scanStep. rewrite Hm. cbn [negb].
      unfold bind, testStart. specialize (Hno i (startLastIndex st)).
      destruct (test startRe _ _) as [b n]. cbn in Hno. subst b. cbn. done.
    - done.
    - unfold bind at 1 3 5 7.
      destruct (forEach _ _ _) as [[[]|e] st1]; cbn [fst snd] in *; [|done].
      unfold bind, get. cbn beta iota. rewrite Hm. done. }
  rewrite Hscan, Hnil. cbn. done.
Qed.

(** * The other branches of the step for one range *)



Section OtherBranches.
Variable renderer :
  option Match -> option Match -> string -> Z -> Z -> Result HTMLElement.
Variable spanRenderer : unit -> Result HTMLElement.
Variable cls : string.
Variables clearOnClick renderWhenEditing : bool.
Variable isCursorOutRange : Pos -> Pos -> Pos -> bool.
Variable isRangeSelected : Pos -> Pos -> list (Pos * Pos) -> bool.

Local Abbreviation lwc := (lineWidgetClassName cls).
Local Abbreviation markRange' :=
  (markRange renderer spanRenderer cls clearOnClick renderWhenEditing
     isCursorOutRange isRangeSelected).



(** X13. A block under a selection, with the cursor outside, is left without
    decoration, in a store that holds at most one attached marker of the
    engine on the range, spanning its lines, and at most one attached widget
    of the engine per line: the step returns without calling a renderer; no
    attached marker of the engine is left on the range and no attached
    widget of the engine on the lines above the end line; nothing is
    created. The widget at the end line is cleared with the marker it
    belongs to; a widget without marker stays. *)
Theorem selected_block_is_undecorated cursor r toText ed :
  docLine (ed_lines ed) (to r) = Some toText ->
  from r < to r ->
  rangeWF cls r toText ed ->
  isRangeSelected (fromPos r) (toPos toText r) (ed_selections ed) = true ->
  isCursorOutRange cursor (fromPos r) (toPos toText r) = true ->
  let res := markRange' cursor r ed in
  fst res = Ok tt /\
  (forall k, ownOverlapAt cls (fromPos r) (toPos toText r) (ed_markers (snd res)) k = false) /\
  (forall l, from r <= l < to r ->
     forall k, widgetFlagAt l lwc (ed_widgets (snd res)) k = false) /\
  length (ed_markers (snd res)) = length (ed_markers ed) /\
  length (ed_widgets (snd res)) = length (ed_widgets ed) /\
  ((exists k, ownOverlapAt cls (fromPos r) (toPos toText r) (ed_markers ed) k = true) ->
   findLineWidgetAtLine (snd res) (to r) lwc = None) /\
  ((forall k, ownOverlapAt cls (fromPos r) (toPos toText r) (ed_markers ed) k = false) ->
   findLineWidgetAtLine (snd res) (to r) lwc = findLineWidgetAtLine ed (to r) lwc).
Proof.
  intros Hl Hlt [Hu Hnm Hw] Hsel Hout. cbn zeta.
  rewrite (markRange_exact _ _ _ _ _ _ _ cursor r toText ed Hl). cbn zeta.
  rewrite Hsel, Hout. cbn [andb].
  assert (from r <= to r <= to r) as Hto by lia.
  pose proof (loop_outcomes cls (fromPos r) (toPos toText r) ed Hu) as Hloop.
  destruct (pre_branch cls r toText ed Hu (Hw (to r) Hto)) as (em & ew & ed1 & Hres & HP).
  cbn zeta in Hloop. rewrite Hres in Hloop |- *.
  set (ed2 := sweepEd cls (zrange (from r) (to r)) ed1) in *.
  destruct HP as [Hlines Hml Hwl Hown Hmono Hlk Hwd Hfind Hint Hem].
  assert (findLineWidgetAtLine ed2 (to r) lwc = findLineWidgetAtLine ed (to r) lwc) as Hfind2.
  { destruct Hfind as [|[_ Hc]]; [done|contradiction]. }
  assert (forall l, from r <= l < to r ->
            forall k, widgetFlagAt l lwc (ed_widgets ed2) k = false) as Hint2.
  { apply Hint. intros l Hl'. apply Hw. lia. }
  assert (atMostOneWidget (to r) lwc (ed_widgets ed2)) as Hu2.
  { intros j j' Hj Hj'. apply (Hw (to r) Hto); by apply Hmono. }
  clear Hint Hfind. clearbody ed2.
  destruct em as [i|].
  - destruct ew as [j|]; [|exfalso; by apply Hwd].
    destruct (Hem i eq_refl Hnm) as (Hms & Hi & Hew).
    cbn [fst snd]. split; [done|]. split; [|split; [|split; [|split; [|split]]]].
    + intros k. rewrite clearWidget_markers, ownOverlapAt_clearMarker.
      destruct (decide (i = k)) as [|Hne]; [done|].
      destruct (ownOverlapAt _ _ _ (ed_markers ed2) k) eqn:Hk; [|done].
      apply Hown in Hk. congruence.
    + intros l Hl' k. rewrite widgetFlagAt_clearWidget, clearMarker_widgets.
      destruct (decide (j = k)); [done|by apply Hint2].
    + by rewrite clearWidget_markers, length_clearMarker.
    + by rewrite length_clearWidget, clearMarker_widgets.
    + intros _. apply findLineWidgetAtLine_clear_found.
      * rewrite findLineWidgetAtLine_clearMarker, Hfind2. by rewrite <- Hew.
      * rewrite clearMarker_widgets. apply Hu2.
    + intros Hno. by rewrite Hno in Hi.
  - cbn [fst snd]. split; [done|]. split; [|split; [|split; [|split; [|split]]]]; try done.
    + intros k. destruct (ownOverlapAt _ _ _ (ed_markers ed2) k) eqn:Hk; [|done].
      apply Hown in Hk. congruence.
    + intros [k Hk]. rewrite Hfind2.
      destruct Hloop as [[_ Hno]|(i & m & Hm & Ht & Ho & Honly & Heq)].
      { by rewrite Hno in Hk. }
      injection Heq as Hem' _ _. unfold checkOwn in Hem'. cbn [fst] in Hem'.
      cbn [line toPos] in Hem'.
      by destruct (findLineWidgetAtLine ed (to r) lwc).
Qed.

End OtherBranches.

(** * The edit button *)

Lemma clipPos_inside lines p text :
  docLine lines (line p) = Some text ->
  0 <= ch p <= Z.of_nat (String.length text) ->
  clipPos lines p = p.
Proof.
  intros Hl Hch. unfold clipPos.
  assert (0 <= line p < lineCountOf lines) as Hp.
  { unfold docLine in Hl. destruct (Z.ltb_spec (line p) 0); [done|].
    apply lookup_lt_Some in Hl. unfold lineCountOf. lia. }
  cbv zeta.
  destruct (Z.ltb_spec (line p) 0); [lia|].
  destruct (Z.ltb_spec (lineCountOf lines - 1) (line p)); [lia|].
  rewrite Hl. change (default "" (Some text)) with text.
  destruct (Z.ltb_spec (Z.of_nat (String.length text)) (ch p)); [lia|].
  destruct (Z.ltb_spec (ch p) 0); [lia|done].
Qed.

(** The click on an attached marker whose last line is not the first line
    of the document. *)
Lemma editButtonClick_attached i m ed text :
  ed_markers ed !! i = Some m -> mk_cleared m = false ->
  docLine (ed_lines ed) (line (mk_to m) - 1) = Some text ->
  editButtonClick i ed =
    (Ok tt,
     setSelection {| line := line (mk_from m) + 1; ch := 0 |}
       {| line := line (mk_to m) - 1; ch := Z.of_nat (String.length text) |}
       (clearMarker i ed)).
Proof.
  intros Hm Hc Hl. unfold editButtonClick, bind at 1, get at 1. cbn beta iota.
  rewrite Hm. unfold markerFind. rewrite Hc. unfold bind, modify. by rewrite Hl.
Qed.

(** X14. The click on the edit button of a block clears the marker of the
    block and nothing else (the widget stays attached until the next pass),
    and selects the content of the block, from the start of the line after
    the first line of the marker to the end of the line before its last
    line, the cursor at the end. On a marker that is already cleared the
    handler throws [TypeError] and changes nothing; on a marker that ends on
    the first line of the document it throws after the marker is cleared. *)
Theorem edit_button_selects_the_content i m ed :
  ed_markers ed !! i = Some m ->
  (mk_cleared m = true -> editButtonClick i ed = (Throw TypeError, ed)) /\
  (mk_cleared m = false ->
   (docLine (ed_lines ed) (line (mk_to m) - 1) = None ->
    editButtonClick i ed = (Throw TypeError, clearMarker i ed)) /\
   (forall text lastText,
      docLine (ed_lines ed) (line (mk_to m) - 1) = Some text ->
      docLine (ed_lines ed) (line (mk_to m)) = Some lastText ->
      0 <= line (mk_from m) < line (mk_to m) ->
      let head := {| line := line (mk_to m) - 1;
                     ch := Z.of_nat (String.length text) |} in
      exists ed',
        editButtonClick i ed = (Ok tt, ed') /\
        ed_markers ed' = <[i := clearedMarker m]> (ed_markers ed) /\
        ed_widgets ed' = ed_widgets ed /\
        ed_lines ed' = ed_lines ed /\
        ed_selections ed' = [({| line := line (mk_from m) + 1; ch := 0 |}, head)] /\
        ed_cursor ed' = head)).
Proof.
  intros Hm. split; [|intros Hc; split].
  - intros Hc. unfold editButtonClick, bind, get. cbn beta iota.
    rewrite Hm. unfold markerFind. by rewrite Hc.
  - intros Hl. unfold editButtonClick, bind at 1, get at 1. cbn beta iota.
    rewrite Hm. unfold markerFind. rewrite Hc. unfold bind, modify. by rewrite Hl.
  - intros text lastText Hl Hlast Hspan head.
    rewrite (editButtonClick_attached i m ed text Hm Hc Hl).
    eexists. split; [reflexivity|].
    assert (ed_lines (clearMarker i ed) = ed_lines ed) as Hlines by apply clearMarker_lines.
    unfold setSelection. cbn [ed_markers ed_widgets ed_lines ed_selections ed_cursor].
    rewrite Hlines. fold head.
    assert (clipPos (ed_lines ed) head = head) as ->.
    { apply (clipPos_inside _ _ text); [done|]. cbn. lia. }
    assert (clipPos (ed_lines ed) {| line := line (mk_from m) + 1; ch := 0 |} =
            {| line := line (mk_from m) + 1; ch := 0 |}) as ->.
    { destruct (docLine_Some (ed_lines ed) (line (mk_from m) + 1)) as [t Ht].
      - unfold docLine in Hlast. destruct (Z.ltb_spec (line (mk_to m)) 0); [done|].
        apply lookup_lt_Some in Hlast. unfold lineCountOf. lia.
      - apply (clipPos_inside _ _ t); [done|]. cbn. lia. }
    repeat split; try done.
    + rewrite clearMarker_markers. apply list_eq. intros k.
      destruct (decide (i = k)) as [->|Hne].
      * rewrite list_lookup_alter_eq, Hm. cbn.
        rewrite list_lookup_insert_eq; [done|]. by eapply lookup_lt_Some.
      * by rewrite list_lookup_alter_ne, list_lookup_insert_ne.
    + apply clearMarker_widgets.
Qed.

Section ClickThenPass.
Variable renderer :
  option Match -> option Match -> string -> Z -> Z -> Result HTMLElement.
Variable spanRenderer : unit -> Result HTMLElement.
Variable cls : string.
Variable clearOnClick : bool.
Variable isCursorOutRange : Pos -> Pos -> Pos -> bool.
Variable isRangeSelected : Pos -> Pos -> list (Pos * Pos) -> bool.

Local Abbreviation lwc := (lineWidgetClassName cls).
Local Abbreviation markRange' :=
  (markRange renderer spanRenderer cls clearOnClick false
     isCursorOutRange isRangeSelected).

(** Clearing a marker and moving the selection keep the store well
    formed. *)
Lemma rangeWF_after_click r toText i a h ed :
  rangeWF cls r toText ed ->
  rangeWF cls r toText (setSelection a h (clearMarker i ed)).
Proof.
  intros [Hu Hnm Hw]. split; cbn [setSelection ed_markers ed_widgets].
  - intros k k' Hk Hk'. rewrite ownOverlapAt_clearMarker in Hk, Hk'.
    destruct (decide (i = k)); [done|]. destruct (decide (i = k')); [done|].
    by apply Hu.
  - intros k m Hm Ho Ht. rewrite clearMarker_markers in Hm.
    destruct (decide (i = k)) as [->|Hne].
    + rewrite list_lookup_alter_eq in Hm.
      destruct (ed_markers ed !! k) as [m0|]; [|done]. injection Hm as <-.
      unfold markOverlaps in Ho. by cbn in Ho.
    + rewrite list_lookup_alter_ne in Hm by done. by apply (Hnm k m).
  - intros l Hl. rewrite clearMarker_widgets. by apply Hw.
Qed.

(** X15. The edit button reveals the source of the block. After the click
    on the button of a block that is rendered, in a store that is well
    formed for the range, the step of the next pass for the range, with
    [renderWhenEditing] off and the cursor where the click has put it (a
    place that [isCursorOutRange] counts as inside), returns and leaves the
    block without attached marker and without attached widget of the
    engine. *)
Theorem edit_button_then_pass_reveals_source i m r toText text ed :
  docLine (ed_lines ed) (to r) = Some toText ->
  docLine (ed_lines ed) (to r - 1) = Some text ->
  from r < to r ->
  rangeWF cls r toText ed ->
  ed_markers ed !! i = Some m -> mk_cleared m = false ->
  line (mk_from m) = from r -> line (mk_to m) = to r ->
  isCursorOutRange {| line := to r - 1; ch := Z.of_nat (String.length text) |}
    (fromPos r) (toPos toText r) = false ->
  let ed1 := snd (editButtonClick i ed) in
  let res := markRange' (ed_cursor ed1) r ed1 in
  fst (editButtonClick i ed) = Ok tt /\
  fst res = Ok tt /\
  (forall k, ownOverlapAt cls (fromPos r) (toPos toText r) (ed_markers (snd res)) k = false) /\
  (forall l, from r <= l <= to r ->
     forall k, widgetFlagAt l lwc (ed_widgets (snd res)) k = false).
Proof.
  intros Hl Hprev Hlt Hwf Hm Hc Hfrom Hto Hin. cbn zeta.
  rewrite <- Hto in Hprev.
  rewrite (editButtonClick_attached i m ed text Hm Hc Hprev). cbn [fst snd].
  split; [done|]. rewrite Hfrom, Hto.
  set (ed1 := setSelection _ _ (clearMarker i ed)).
  assert (ed_lines ed1 = ed_lines ed) as Hlines.
  { subst ed1. cbn. apply clearMarker_lines. }
  assert (ed_cursor ed1 = {| line := to r - 1; ch := Z.of_nat (String.length text) |})
    as Hcur.
  { subst ed1. cbn. rewrite clearMarker_lines.
    apply (clipPos_inside _ _ text); [cbn [line]; by rewrite <- Hto|]. cbn [ch]. lia. }
  assert (rangeWF cls r toText ed1) as Hwf1 by (by apply rangeWF_after_click).
  assert (docLine (ed_lines ed1) (to r) = Some toText) as Hl1 by (by rewrite Hlines).
  assert (fst (markRange' (ed_cursor ed1) r ed1) = Ok tt) as Hok.
  { rewrite (markRange_exact _ _ _ _ _ _ _ (ed_cursor ed1) r toText ed1 Hl1). cbn zeta.
    rewrite Hcur, Hin, andb_false_r.
    destruct Hwf1 as [Hu1 _ Hw1].
    destruct (pre_branch cls r toText ed1 Hu1 (Hw1 (to r) ltac:(lia)))
      as (em & ew & ed2 & -> & _).
    rewrite editingState_exact. cbn zeta.
    by destruct (findLineWidgetAtLine _ _ _). }
  split; [done|].
  pose proof (establish renderer spanRenderer cls clearOnClick false isCursorOutRange
                isRangeSelected (ed_cursor ed1) r toText ed1 Hl1 Hlt Hwf1 Hok) as Hset.
  unfold settled in Hset. cbn zeta in Hset. rewrite Hcur, Hin, andb_false_r in Hset.
  destruct Hset as (Hint & Hno & Hnone). rewrite Hcur. split; [exact Hno|].
  intros l Hl' k. destruct (decide (l = to r)) as [->|Hne].
  - by apply findLineWidgetAtLine_flag_None.
  - apply Hint. lia.
Qed.

End ClickThenPass.

Lemma no_begin_token_no_pass_witness :
  let w := freshWorld (decoratedEditor 1 {| line := 5; ch := 0 |}) in
  w_editor (snd (process echoRenderer spanOk "blk" true false cursorOutsideLines
                   selectionOverlaps (literal "NOTHERE" false false) endRe true w)) =
    w_editor w.
Proof.
  intros w.
  destruct (no_begin_token_no_pass echoRenderer spanOk "blk" true false cursorOutsideLines
              selectionOverlaps (literal "NOTHERE" false false) endRe true w)
    as (_ & H & _); [|exact H].
  intros i n. rewrite test_stateless by reflexivity. cbn [fst].
  unfold docLine. destruct (i <? 0); [vm_compute; reflexivity|].
  destruct (Z.to_nat i) as [|[|[|[|[|[|k]]]]]]; vm_compute; reflexivity.
Defined.


Lemma decorated_rangeWF cursor :
  rangeWF "blk" sampleRange "END>>>" (decoratedEditor 1 cursor).
Proof.
  split.
  - intros [|i] [|i'] Hi Hi'; try reflexivity; vm_compute in Hi, Hi'; discriminate.
  - intros [|i] m Hm _ _; [|destruct i; discriminate].
    injection Hm as <-. reflexivity.
  - intros l Hl [|j] [|j'] Hj Hj'; try reflexivity.
    + unfold widgetFlagAt in Hj'. cbn in Hj'. destruct j'; discriminate.
    + unfold widgetFlagAt in Hj. cbn in Hj. destruct j; discriminate.
    + unfold widgetFlagAt in Hj. cbn in Hj. destruct j; discriminate.
Qed.

Lemma selected_block_is_undecorated_witness :
  let res := markRange echoRenderer spanOk "blk" true false cursorOutsideLines
               (fun _ _ _ => true) {| line := 5; ch := 0 |} sampleRange
               (decoratedEditor 1 {| line := 5; ch := 0 |}) in
  fst res = Ok tt /\
  findLineWidgetAtLine (snd res) 4 (lineWidgetClassName "blk") = None.
Proof.
  intros res.
  destruct (selected_block_is_undecorated echoRenderer spanOk "blk" true false
              cursorOutsideLines (fun _ _ _ => true) {| line := 5; ch := 0 |} sampleRange
              "END>>>" (decoratedEditor 1 {| line := 5; ch := 0 |}))
    as (Hok & _ & _ & _ & _ & Hnone & _).
  - reflexivity.
  - cbn. lia.
  - apply decorated_rangeWF.
  - reflexivity.
  - reflexivity.
  - split; [exact Hok|]. apply Hnone. exists 0%nat. reflexivity.
Defined.

Lemma edit_button_selects_the_content_witness :
  ed_selections (snd (editButtonClick 0 (decoratedEditor 1 {| line := 5; ch := 0 |}))) =
    [({| line := 2; ch := 0 |}, {| line := 3; ch := 1 |})].
Proof.
  destruct (edit_button_selects_the_content 0 (sampleMarker 1)
              (decoratedEditor 1 {| line := 5; ch := 0 |}) eq_refl) as [_ H].
  destruct (H eq_refl) as [_ H2].
  destruct (H2 "b" "END>>>" eq_refl eq_refl ltac:(cbn; lia))
    as (ed' & Heq & _ & _ & _ & Hsel & _).
  rewrite Heq. exact Hsel.
Defined.

Lemma edit_button_then_pass_reveals_source_witness :
  let ed1 := snd (editButtonClick 0 (decoratedEditor 1 {| line := 5; ch := 0 |})) in
  let res := markRange echoRenderer spanOk "blk" true false cursorOutsideLines
               selectionOverlaps (ed_cursor ed1) sampleRange ed1 in
  fst res = Ok tt /\
  findLineWidgetAtLine (snd res) 4 (lineWidgetClassName "blk") = None.
Proof.
  intros ed1 res.
  destruct (edit_button_then_pass_reveals_source echoRenderer spanOk "blk" true
              cursorOutsideLines selectionOverlaps 0 (sampleMarker 1) sampleRange
              "END>>>" "b" (decoratedEditor 1 {| line := 5; ch := 0 |}))
    as (_ & Hok & _ & Hw).
  - reflexivity.
  - reflexivity.
  - cbn. lia.
  - apply decorated_rangeWF.
  - reflexivity.
  - reflexivity.
  - reflexivity.
  - reflexivity.
  - reflexivity.
  - split; [exact Hok|]. apply findLineWidgetAtLine_flag_None. intros k.
    apply (Hw 4). cbn. lia.
Defined.

(** * The ranges of a pass lie in the document *)

Section InDocument.
Variables (startRe endRe : RegExp) (lines : list string).



End InDocument.


(** * The renderers of tasks and of headings *)

Section RendererFacts.
Variable Host : Type.
Variable lineCount : Host -> Z.
Variable getViewport : Host -> Viewport.
Variable getLine : Host -> Z -> option string.
Variable getModeName : Host -> Pos -> string.
Variable isReadOnly : Host -> bool.
Variable canRenderElement : Host -> Pos -> Pos -> bool -> bool.
Variable markText : Pos -> Pos -> Replaced -> M Host nat.
Variable onHide : nat -> M Host unit.
Variable onOptionChange : nat -> M Host unit.
Variable taskRE : RegExp.
Variable headRE : RegExp.

Local Abbreviation renderTaskLine' :=
  (renderTaskLine Host getLine getModeName isReadOnly canRenderElement markText
     onHide onOptionChange taskRE).
Local Abbreviation renderHeadingLine' :=
  (renderHeadingLine Host getLine getModeName canRenderElement markText headRE).
Local Abbreviation markdownRenderTasks' :=
  (markdownRenderTasks Host lineCount getViewport getLine getModeName isReadOnly
     canRenderElement markText onHide onOptionChange taskRE).
Local Abbreviation markdownRenderHTags' :=
  (markdownRenderHTags Host lineCount getViewport getLine getModeName
     canRenderElement markText headRE).
Local Abbreviation renderWindow' := (renderWindow Host lineCount getViewport).

(** A loop whose body makes at most one call, on the line it is at. *)
Lemma forEach_ascending (P : Z -> MarkCall -> Prop)
    (body : Z -> M (RenderState Host) unit) hi :
  (forall i st,
     rs_calls (snd (body i st)) = rs_calls st \/
     exists c, rs_calls (snd (body i st)) = (rs_calls st ++ [c])%list /\
               line (mc_from c) = i /\ P i c) ->
  forall lo st,
    exists new,
      rs_calls (snd (forEach body (zrange lo hi) st)) = (rs_calls st ++ new)%list /\
      ascending P lo hi new.
Proof.
  intros Hbody lo. pattern lo, (zrange lo hi). apply zrange_ind; clear lo.
  - intros lo Hle st. exists []. cbn. rewrite app_nil_r.
    split; [done|]. split; constructor.
  - intros lo Hlt IH st. rewrite forEach_cons.
    assert (exists new1,
              rs_calls (snd (body lo st)) = (rs_calls st ++ new1)%list /\
              ascending P lo (lo + 1) new1) as (new1 & Hnew1 & Hs1 & Hall1).
    { destruct (Hbody lo st) as [H|(c & H & Hc & HP)].
      - exists []. rewrite app_nil_r. split; [done|]. split; constructor.
      - exists [c]. split; [done|]. split; [repeat constructor|].
        repeat constructor. exists lo. split; [lia|done]. }
    assert (forall new2,
              ascending P (lo + 1) hi new2 -> ascending P lo hi (new1 ++ new2)%list)
      as Hjoin.
    { intros new2 [Hs2 Hall2]. split.
      - apply StronglySorted_app_2; [|done|done].
        intros a b Ha Hb.
        destruct (proj1 (Forall_forall _ _) Hall1 a Ha) as (ia & Hia & Hla & _).
        destruct (proj1 (Forall_forall _ _) Hall2 b Hb) as (ib & Hib & Hlb & _). lia.
      - apply Forall_app. split.
        + eapply Forall_impl; [exact Hall1|]. cbn. intros c (i & Hi & H).
          exists i. split; [lia|done].
        + eapply Forall_impl; [exact Hall2|]. cbn. intros c (i & Hi & H).
          exists i. split; [lia|done]. }
    destruct (body lo st) as [[[]|e] st1]; cbn [snd] in *.
    + destruct (IH st1) as (new2 & Hnew2 & Hasc2).
      exists (new1 ++ new2)%list. split; [|by apply Hjoin].
      by rewrite Hnew2, Hnew1, app_assoc.
    + exists new1. split; [done|].
      rewrite <- (app_nil_r new1). apply Hjoin. split; constructor.
Qed.

(** The body of the loop of the task renderer, step by step. *)
Lemma renderTaskLine_exact viewPort i st :
  renderTaskLine' viewPort i st =
    let h := rs_host st in
    if negb (String.eqb (getModeName h {| line := i; ch := 0 |}) "markdown")
    then (Ok tt, st)
    else
      let st1 := {| rs_host := h;
                    rs_lastIndex := snd (regexpExec taskRE (toStr (getLine h i)) 0);
                    rs_calls := rs_calls st |} in
      match fst (regexpExec taskRE (toStr (getLine h i)) 0) with
      | None => (Ok tt, st1)
      | Some md =>
          match matchArray (toStr (getLine h i)) md !! 1%nat with
          | None => (Throw TypeError, st1)
          | Some spaces =>
              let leadingSpaces := Z.of_nat (String.length spaces) in
              let curFrom := {| line := i; ch := 0 + leadingSpaces |} in
              let curTo := {| line := i; ch := 5 + leadingSpaces |} in
              if negb (canRenderElement h curFrom curTo (negb viewPort))
              then (Ok tt, st1)
              else
                let cbox :=
                  Checkbox
                    match matchArray (toStr (getLine h i)) md !! 3%nat with
                    | Some mark => String.eqb mark "x"
                    | None => false
                    end
                    (isReadOnly h) in
                let after h' :=
                  {| rs_host := h';
                     rs_lastIndex := snd (regexpExec taskRE (toStr (getLine h i)) 0);
                     rs_calls := (rs_calls st ++
                                    [{| mc_from := curFrom; mc_to := curTo;
                                        mc_replacedWith := cbox |}])%list |} in
                match markText curFrom curTo cbox h with
                | (Throw e, h1) => (Throw e, after h1)
                | (Ok textMarker, h1) =>
                    match onHide textMarker h1 with
                    | (Throw e, h2) => (Throw e, after h2)
                    | (Ok _, h2) =>
                        (fst (onOptionChange textMarker h2),
                         after (snd (onOptionChange textMarker h2)))
                    end
                end
          end
      end.
Proof.
  unfold renderTaskLine, bind, get, execFromStart, hostMarkText, onHost, ret, throw.
  cbn beta iota zeta.
  destruct (negb (String.eqb _ _)); [done|].
  destruct (regexpExec taskRE _ 0) as [[md|] li]; cbn [fst snd option_map rs_host
    rs_lastIndex rs_calls]; [|done].
  destruct (matchArray _ md !! 1%nat) as [spaces|]; [|done].
  destruct (negb (canRenderElement _ _ _ _)); [done|].
  cbn [rs_host rs_lastIndex rs_calls].
  match goal with |- context [markText ?a ?b ?c ?h] =>
    destruct (markText a b c h) as [[textMarker|e] h1] end; [|done].
  cbn [rs_host rs_lastIndex rs_calls].
  destruct (onHide textMarker h1) as [[[]|e] h2]; [|done].
  cbn [rs_host rs_lastIndex rs_calls].
  by destruct (onOptionChange textMarker h2).
Qed.

(** The body of the loop of the heading renderer, step by step. *)
Lemma renderHeadingLine_exact viewPort i st :
  renderHeadingLine' viewPort i st =
    let h := rs_host st in
    if negb (String.eqb (getModeName h {| line := i; ch := 0 |}) "markdown")
    then (Ok tt, st)
    else
      let st1 := {| rs_host := h;
                    rs_lastIndex := snd (regexpExec headRE (toStr (getLine h i)) 0);
                    rs_calls := rs_calls st |} in
      match fst (regexpExec headRE (toStr (getLine h i)) 0) with
      | None => (Ok tt, st1)
      | Some md =>
          match matchArray (toStr (getLine h i)) md !! 1%nat with
          | None => (Throw TypeError, st1)
          | Some hashes =>
              let curFrom := {| line := i; ch := 0 |} in
              let curTo := {| line := i; ch := Z.of_nat (String.length hashes) |} in
              if negb (canRenderElement h curFrom curTo (negb viewPort))
              then (Ok tt, st1)
              else
                let tag := HeadingTag ("h" ++ pretty (String.length hashes)) in
                (match fst (markText curFrom curTo tag h) with
                 | Ok _ => Ok tt
                 | Throw e => Throw e
                 end,
                 {| rs_host := snd (markText curFrom curTo tag h);
                    rs_lastIndex := snd (regexpExec headRE (toStr (getLine h i)) 0);
                    rs_calls := (rs_calls st ++
                                   [{| mc_from := curFrom; mc_to := curTo;
                                       mc_replacedWith := tag |}])%list |})
          end
      end.
Proof.
  unfold renderHeadingLine, bind, get, execFromStart, hostMarkText, onHost, ret, throw.
  cbn beta iota zeta.
  destruct (negb (String.eqb _ _)); [done|].
  destruct (regexpExec headRE _ 0) as [[md|] li]; cbn [fst snd option_map rs_host
    rs_lastIndex rs_calls]; [|done].
  destruct (matchArray _ md !! 1%nat) as [hashes|]; [|done].
  destruct (negb (canRenderElement _ _ _ _)); [done|].
  cbn [rs_host rs_lastIndex rs_calls].
  match goal with |- context [markText ?a ?b ?c ?h] =>
    destruct (markText a b c h) as [[textMarker|e] h1] end; done.
Qed.

Lemma renderTaskLine_call viewPort i st :
  rs_calls (snd (renderTaskLine' viewPort i st)) = rs_calls st \/
  exists c, rs_calls (snd (renderTaskLine' viewPort i st)) = (rs_calls st ++ [c])%list /\
            line (mc_from c) = i /\ taskCall i c.
Proof.
  rewrite renderTaskLine_exact. cbn zeta.
  destruct (negb (String.eqb _ _)); [by left|].
  destruct (fst (regexpExec taskRE _ 0)) as [md|]; [|by left].
  destruct (matchArray _ md !! 1%nat) as [spaces|]; [|by left].
  destruct (negb (canRenderElement _ _ _ _)); [by left|].
  right. eexists. split.
  { match goal with |- context [markText ?a ?b ?c ?h] =>
      destruct (markText a b c h) as [[textMarker|e] h1] end; [|reflexivity].
    destruct (onHide textMarker h1) as [[[]|e] h2]; reflexivity. }
  split; [reflexivity|]. unfold taskCall. cbn.
  split; [done|]. split; [done|]. split; [lia|]. split; [lia|]. by eexists _, _.
Qed.

Lemma renderHeadingLine_call viewPort i st :
  rs_calls (snd (renderHeadingLine' viewPort i st)) = rs_calls st \/
  exists c, rs_calls (snd (renderHeadingLine' viewPort i st)) = (rs_calls st ++ [c])%list /\
            line (mc_from c) = i /\ headingCall i c.
Proof.
  rewrite renderHeadingLine_exact. cbn zeta.
  destruct (negb (String.eqb _ _)); [by left|].
  destruct (fst (regexpExec headRE _ 0)) as [md|]; [|by left].
  destruct (matchArray _ md !! 1%nat) as [hashes|]; [|by left].
  destruct (negb (canRenderElement _ _ _ _)); [by left|].
  right. eexists. split; [reflexivity|]. split; [reflexivity|].
  unfold headingCall. cbn. split; [done|]. split; [done|]. split; [done|]. by eexists.
Qed.

End RendererFacts.

(** X17. Whatever the editor and the pattern, a pass of
    [markdownRenderTasks] asks for markers only on lines of its window,
    from [fromLine] up to and including [toLine] (the viewport, or lines 0 to
    [min(60, lineCount)] without it), at most one per line and in the order
    of the lines; each marker lies on one line, covers five columns from the
    end of the first group of the match, and is replaced with a checkbox. *)
Theorem task_marks_stay_in_the_window Host lineCount getViewport getLine getModeName
    isReadOnly canRenderElement markText onHide onOptionChange taskRE viewPort
    (st : RenderState Host) :
  let window := renderWindow Host lineCount getViewport viewPort (rs_host st) in
  let st' := snd (markdownRenderTasks Host lineCount getViewport getLine getModeName
                    isReadOnly canRenderElement markText onHide onOptionChange taskRE
                    viewPort st) in
  (viewPort = false -> window = (0, Z.min 60 (lineCount (rs_host st)))) /\
  exists new,
    rs_calls st' = (rs_calls st ++ new)%list /\
    StronglySorted (fun a b => line (mc_from a) < line (mc_from b)) new /\
    Forall (fun c => exists i, fst window <= i <= snd window /\ taskCall i c) new.
Proof.
  cbn zeta. split; [by intros ->|].
  unfold markdownRenderTasks, bind at 1, get at 1. cbn beta iota.
  destruct (renderWindow _ _ _ _ _) as [fromLine toLine]. cbn [fst snd].
  destruct (forEach_ascending Host taskCall
              (renderTaskLine Host getLine getModeName isReadOnly canRenderElement
                 markText onHide onOptionChange taskRE viewPort) (toLine + 1)
              (renderTaskLine_call Host getLine getModeName isReadOnly canRenderElement
                 markText onHide onOptionChange taskRE viewPort) fromLine st)
    as (new & Hnew & Hs & Hall).
  exists new. split; [done|]. split; [done|].
  eapply Forall_impl; [exact Hall|]. cbn. intros c (i & Hi & _ & Hc).
  exists i. split; [lia|done].
Qed.

(** X18. Whatever the editor and the pattern, a pass of
    [markdownRenderHTags] asks for markers only on lines of its window, from
    [fromLine] up to but without [toLine], at most one per line and in the
    order of the lines; each marker starts at column 0 of its line, covers as
    many columns as the first group of the match is long, and is replaced
    with the tag that reads [h] followed by that number. *)
Theorem heading_marks_stay_in_the_window Host lineCount getViewport getLine getModeName
    canRenderElement markText headRE viewPort (st : RenderState Host) :
  let window := renderWindow Host lineCount getViewport viewPort (rs_host st) in
  let st' := snd (markdownRenderHTags Host lineCount getViewport getLine getModeName
                    canRenderElement markText headRE viewPort st) in
  (viewPort = false -> window = (0, Z.min 60 (lineCount (rs_host st)))) /\
  exists new,
    rs_calls st' = (rs_calls st ++ new)%list /\
    StronglySorted (fun a b => line (mc_from a) < line (mc_from b)) new /\
    Forall (fun c => exists i, fst window <= i < snd window /\ headingCall i c) new.
Proof.
  cbn zeta. split; [by intros ->|].
  unfold markdownRenderHTags, bind at 1, get at 1. cbn beta iota.
  destruct (renderWindow _ _ _ _ _) as [fromLine toLine]. cbn [fst snd].
  destruct (forEach_ascending Host headingCall
              (renderHeadingLine Host getLine getModeName canRenderElement
                 markText headRE viewPort) toLine
              (renderHeadingLine_call Host getLine getModeName canRenderElement
                 markText headRE viewPort) fromLine st)
    as (new & Hnew & Hs & Hall).
  exists new. split; [done|]. split; [done|].
  eapply Forall_impl; [exact Hall|]. cbn. intros c (i & Hi & _ & Hc).
  exists i. split; [lia|done].
Qed.

(** * What the renderers mark *)

Section RendererRuns.
Variable Host : Type.
Variable lineCount : Host -> Z.
Variable getViewport : Host -> Viewport.
Variable getLine : Host -> Z -> option string.
Variable getModeName : Host -> Pos -> string.
Variable isReadOnly : Host -> bool.
Variable canRenderElement : Host -> Pos -> Pos -> bool -> bool.
Variable markText : Pos -> Pos -> Replaced -> M Host nat.
Variable onHide : nat -> M Host unit.
Variable onOptionChange : nat -> M Host unit.
Variable taskRE : RegExp.
Variable headRE : RegExp.

Local Abbreviation renderTaskLine' :=
  (renderTaskLine Host getLine getModeName isReadOnly canRenderElement markText
     onHide onOptionChange taskRE).
Local Abbreviation renderHeadingLine' :=
  (renderHeadingLine Host getLine getModeName canRenderElement markText headRE).
Local Abbreviation sameReads' :=
  (sameReads Host getLine getModeName isReadOnly canRenderElement).
Local Abbreviation taskCallAt' :=
  (taskCallAt Host getLine getModeName isReadOnly canRenderElement taskRE).
Local Abbreviation headingCallAt' :=
  (headingCallAt Host getLine getModeName canRenderElement headRE).

Lemma sameReads_refl h : sameReads' h h.
Proof. by repeat split. Qed.

Lemma sameReads_trans h1 h2 h3 : sameReads' h1 h2 -> sameReads' h2 h3 -> sameReads' h1 h3.
Proof.
  intros (A1 & B1 & C1 & D1) (A2 & B2 & C2 & D2). repeat split.
  - intros i. by rewrite A2.
  - intros p. by rewrite B2.
  - by rewrite C2.
  - intros a b f. by rewrite D2.
Qed.

Lemma taskCallAt_sameReads viewPort h h' i :
  sameReads' h h' -> taskCallAt' viewPort h' i = taskCallAt' viewPort h i.
Proof.
  intros (A & B & C & D). unfold taskCallAt. rewrite B, A, C.
  destruct (negb _); [done|].
  destruct (fst (regexpExec taskRE _ 0)) as [md|]; [|done].
  destruct (matchArray _ md !! 1%nat) as [spaces|]; [|done].
  by rewrite D.
Qed.

Lemma headingCallAt_sameReads viewPort h h' i :
  sameReads' h h' -> headingCallAt' viewPort h' i = headingCallAt' viewPort h i.
Proof.
  intros (A & B & C & D). unfold headingCallAt. rewrite B, A.
  destruct (negb _); [done|].
  destruct (fst (regexpExec headRE _ 0)) as [md|]; [|done].
  destruct (matchArray _ md !! 1%nat) as [hashes|]; [|done].
  by rewrite D.
Qed.

Hypothesis Hquiet :
  quietHost Host getLine getModeName isReadOnly canRenderElement markText onHide
    onOptionChange.

Lemma renderTaskLine_quiet viewPort i st :
  hasFirstGroup taskRE ->
  fst (renderTaskLine' viewPort i st) = Ok tt /\
  rs_calls (snd (renderTaskLine' viewPort i st)) =
    (rs_calls st ++ option_list (taskCallAt' viewPort (rs_host st) i))%list /\
  sameReads' (rs_host st) (rs_host (snd (renderTaskLine' viewPort i st))).
Proof using Hquiet.
  intros Hgroup. destruct Hquiet as (Hmark & Hhide & Hopt).
  rewrite renderTaskLine_exact. unfold taskCallAt. cbn zeta.
  destruct (negb (String.eqb _ _)).
  { cbn. rewrite app_nil_r. split; [done|]. split; [done|]. apply sameReads_refl. }
  destruct (fst (regexpExec taskRE _ 0)) as [md|] eqn:Hexec.
  2:{ cbn. rewrite app_nil_r. split; [done|]. split; [done|]. apply sameReads_refl. }
  destruct (Hgroup _ md Hexec) as [spaces Hspaces]. rewrite Hspaces.
  destruct (negb (canRenderElement _ _ _ _)).
  { cbn. rewrite app_nil_r. split; [done|]. split; [done|]. apply sameReads_refl. }
  match goal with |- context [markText ?a ?b ?c ?h] =>
    destruct (Hmark a b c h) as (textMarker & h1 & -> & Hr1) end.
  destruct (Hhide textMarker h1) as (h2 & -> & Hr2).
  destruct (Hopt textMarker h2) as (h3 & -> & Hr3). cbn.
  split; [done|]. split; [done|].
  eapply sameReads_trans; [exact Hr1|]. eapply sameReads_trans; [exact Hr2|exact Hr3].
Qed.

Lemma renderHeadingLine_quiet viewPort i st :
  hasFirstGroup headRE ->
  fst (renderHeadingLine' viewPort i st) = Ok tt /\
  rs_calls (snd (renderHeadingLine' viewPort i st)) =
    (rs_calls st ++ option_list (headingCallAt' viewPort (rs_host st) i))%list /\
  sameReads' (rs_host st) (rs_host (snd (renderHeadingLine' viewPort i st))).
Proof using Hquiet.
  intros Hgroup. destruct Hquiet as (Hmark & Hhide & Hopt).
  rewrite renderHeadingLine_exact. unfold headingCallAt. cbn zeta.
  destruct (negb (String.eqb _ _)).
  { cbn. rewrite app_nil_r. split; [done|]. split; [done|]. apply sameReads_refl. }
  destruct (fst (regexpExec headRE _ 0)) as [md|] eqn:Hexec.
  2:{ cbn. rewrite app_nil_r. split; [done|]. split; [done|]. apply sameReads_refl. }
  destruct (Hgroup _ md Hexec) as [hashes Hhashes]. rewrite Hhashes.
  destruct (negb (canRenderElement _ _ _ _)).
  { cbn. rewrite app_nil_r. split; [done|]. split; [done|]. apply sameReads_refl. }
  match goal with |- context [markText ?a ?b ?c ?h] =>
    destruct (Hmark a b c h) as (textMarker & h1 & -> & Hr1) end.
  cbn. done.
Qed.

(** A loop over the lines, with an editor that reads the same all along. *)
Lemma forEach_quiet (body : Z -> M (RenderState Host) unit)
    (callAt : Host -> Z -> option MarkCall) h0 :
  (forall h h' i, sameReads' h h' -> callAt h' i = callAt h i) ->
  (forall i st,
     fst (body i st) = Ok tt /\
     rs_calls (snd (body i st)) = (rs_calls st ++ option_list (callAt (rs_host st) i))%list /\
     sameReads' (rs_host st) (rs_host (snd (body i st)))) ->
  forall xs st, sameReads' h0 (rs_host st) ->
    fst (forEach body xs st) = Ok tt /\
    rs_calls (snd (forEach body xs st)) = (rs_calls st ++ omap (callAt h0) xs)%list /\
    sameReads' h0 (rs_host (snd (forEach body xs st))).
Proof.
  intros Hcall Hbody. induction xs as [|i xs IH]; intros st Hst.
  { cbn. by rewrite app_nil_r. }
  rewrite forEach_cons. destruct (Hbody i st) as (Hok & Hcalls & Hreads).
  destruct (body i st) as [[[]|e] st1]; cbn [fst snd] in *; [|done].
  destruct (IH st1) as (Hok' & Hcalls' & Hreads').
  { by eapply sameReads_trans. }
  split; [done|]. split; [|done].
  rewrite Hcalls', Hcalls, (Hcall h0 (rs_host st) i Hst).
  rewrite <- app_assoc. f_equal. change (i :: xs) with ([i] ++ xs)%list.
  rewrite omap_app. f_equal.
Qed.

End RendererRuns.

(** X19. On an editor where marking a range and registering a handler
    return and change nothing of what the renderers read, and with patterns
    whose every match has a first group, the two passes return and mark the
    lines of their window one by one: [markdownRenderTasks] every line from
    [fromLine] up to and including [toLine] that is in markdown mode, holds a
    task and can be rendered, with a checkbox that is checked exactly when
    the third group of the match is [x] and disabled exactly when the editor
    is read-only; [markdownRenderHTags] every such line that holds a
    heading, from [fromLine] up to but without [toLine]. *)
Theorem renderers_mark_every_eligible_line Host lineCount getViewport getLine
    getModeName isReadOnly canRenderElement markText onHide onOptionChange
    taskRE headRE viewPort (st : RenderState Host) :
  quietHost Host getLine getModeName isReadOnly canRenderElement markText onHide
    onOptionChange ->
  hasFirstGroup taskRE -> hasFirstGroup headRE ->
  let window := renderWindow Host lineCount getViewport viewPort (rs_host st) in
  let tasks := markdownRenderTasks Host lineCount getViewport getLine getModeName
                 isReadOnly canRenderElement markText onHide onOptionChange taskRE
                 viewPort st in
  let headings := markdownRenderHTags Host lineCount getViewport getLine getModeName
                    canRenderElement markText headRE viewPort st in
  (fst tasks = Ok tt /\
   rs_calls (snd tasks) =
     (rs_calls st ++
        omap (taskCallAt Host getLine getModeName isReadOnly canRenderElement taskRE
                viewPort (rs_host st))
          (zrange (fst window) (snd window + 1)))%list) /\
  (fst headings = Ok tt /\
   rs_calls (snd headings) =
     (rs_calls st ++
        omap (headingCallAt Host getLine getModeName canRenderElement headRE
                viewPort (rs_host st))
          (zrange (fst window) (snd window)))%list).
Proof.
  intros Hquiet Htask Hhead. cbn zeta.
  unfold markdownRenderTasks, markdownRenderHTags, bind, get.
  cbn beta iota.
  destruct (renderWindow _ _ _ _ _) as [fromLine toLine]. cbn [fst snd]. split.
  - destruct (forEach_quiet Host getLine getModeName isReadOnly canRenderElement
                (renderTaskLine Host getLine getModeName isReadOnly canRenderElement
                   markText onHide onOptionChange taskRE viewPort)
                (taskCallAt Host getLine getModeName isReadOnly canRenderElement taskRE
                   viewPort) (rs_host st)) with (xs := zrange fromLine (toLine + 1))
                                                (st := st) as (Hok & Hcalls & _).
    + intros h h' i. apply taskCallAt_sameReads.
    + intros i st'. by apply renderTaskLine_quiet.
    + apply sameReads_refl.
    + done.
  - destruct (forEach_quiet Host getLine getModeName isReadOnly canRenderElement
                (renderHeadingLine Host getLine getModeName canRenderElement
                   markText headRE viewPort)
                (headingCallAt Host getLine getModeName canRenderElement headRE
                   viewPort) (rs_host st)) with (xs := zrange fromLine toLine)
                                                (st := st) as (Hok & Hcalls & _).
    + intros h h' i. apply (headingCallAt_sameReads Host getLine getModeName isReadOnly).
    + intros i st'.
      by apply (renderHeadingLine_quiet Host getLine getModeName isReadOnly
                  canRenderElement markText onHide onOptionChange).
    + apply sameReads_refl.
    + done.
Qed.

Section LastIndex.
Variable Host : Type.
Variable getLine : Host -> Z -> option string.
Variable getModeName : Host -> Pos -> string.
Variable isReadOnly : Host -> bool.
Variable canRenderElement : Host -> Pos -> Pos -> bool -> bool.
Variable markText : Pos -> Pos -> Replaced -> M Host nat.
Variable onHide : nat -> M Host unit.
Variable onOptionChange : nat -> M Host unit.
Variable taskRE : RegExp.
Variable headRE : RegExp.

Lemma renderTaskLine_lastIndex viewPort i (st st' : RenderState Host) :
  sameButLastIndex st st' ->
  fst (renderTaskLine Host getLine getModeName isReadOnly canRenderElement markText
         onHide onOptionChange taskRE viewPort i st) =
  fst (renderTaskLine Host getLine getModeName isReadOnly canRenderElement markText
         onHide onOptionChange taskRE viewPort i st') /\
  sameButLastIndex
    (snd (renderTaskLine Host getLine getModeName isReadOnly canRenderElement markText
            onHide onOptionChange taskRE viewPort i st))
    (snd (renderTaskLine Host getLine getModeName isReadOnly canRenderElement markText
            onHide onOptionChange taskRE viewPort i st')).
Proof.
  destruct st as [h li calls], st' as [h' li' calls']. intros [Hh Hc].
  cbn in Hh, Hc. subst h' calls'. rewrite !renderTaskLine_exact.
  cbn [rs_host rs_calls]. cbv zeta.
  repeat case_match; by split.
Qed.

Lemma renderHeadingLine_lastIndex viewPort i (st st' : RenderState Host) :
  sameButLastIndex st st' ->
  fst (renderHeadingLine Host getLine getModeName canRenderElement markText headRE
         viewPort i st) =
  fst (renderHeadingLine Host getLine getModeName canRenderElement markText headRE
         viewPort i st') /\
  sameButLastIndex
    (snd (renderHeadingLine Host getLine getModeName canRenderElement markText headRE
            viewPort i st))
    (snd (renderHeadingLine Host getLine getModeName canRenderElement markText headRE
            viewPort i st')).
Proof.
  destruct st as [h li calls], st' as [h' li' calls']. intros [Hh Hc].
  cbn in Hh, Hc. subst h' calls'. rewrite !renderHeadingLine_exact.
  cbn [rs_host rs_calls]. cbv zeta.
  repeat case_match; by split.
Qed.

Lemma forEach_lastIndex (body : Z -> M (RenderState Host) unit) :
  (forall i st st', sameButLastIndex st st' ->
     fst (body i st) = fst (body i st') /\
     sameButLastIndex (snd (body i st)) (snd (body i st'))) ->
  forall xs st st', sameButLastIndex st st' ->
    fst (forEach body xs st) = fst (forEach body xs st') /\
    sameButLastIndex (snd (forEach body xs st)) (snd (forEach body xs st')).
Proof.
  intros Hbody. induction xs as [|i xs IH]; intros st st' Hst; [done|].
  rewrite !forEach_cons. destruct (Hbody i st st' Hst) as [Hfst Hsnd].
  destruct (body i st) as [[[]|e] st1], (body i st') as [[[]|e'] st1'];
    cbn [fst snd] in *; try done.
  by apply IH.
Qed.

End LastIndex.

(** X20. A pass of either renderer does not depend on where an earlier use
    left [lastIndex] of its pattern: started with any other value of
    [lastIndex], [markdownRenderTasks] and [markdownRenderHTags] return or
    throw the same, leave the same editor and make the same calls of
    [markText]. *)
Theorem passes_ignore_the_last_index Host lineCount getViewport getLine getModeName
    isReadOnly canRenderElement markText onHide onOptionChange taskRE headRE viewPort
    (st : RenderState Host) (lastIndex : nat) :
  let st' := {| rs_host := rs_host st; rs_lastIndex := lastIndex;
                rs_calls := rs_calls st |} in
  let tasks := markdownRenderTasks Host lineCount getViewport getLine getModeName
                 isReadOnly canRenderElement markText onHide onOptionChange taskRE
                 viewPort in
  let headings := markdownRenderHTags Host lineCount getViewport getLine getModeName
                    canRenderElement markText headRE viewPort in
  (fst (tasks st') = fst (tasks st) /\ sameButLastIndex (snd (tasks st')) (snd (tasks st))) /\
  (fst (headings st') = fst (headings st) /\
   sameButLastIndex (snd (headings st')) (snd (headings st))).
Proof.
  cbn zeta. unfold markdownRenderTasks, markdownRenderHTags, bind, get.
  cbn beta iota. cbn [rs_host].
  destruct (renderWindow _ _ _ _ _) as [fromLine toLine]. split.
  - apply forEach_lastIndex; [|by split].
    intros i s s'. apply renderTaskLine_lastIndex.
  - apply forEach_lastIndex; [|by split].
    intros i s s'. apply renderHeadingLine_lastIndex.
Qed.

Lemma searchFrom_matcher r s n i j e caps :
  searchFrom r s n i = Some (j, e, caps) -> re_matcher r s j = Some (e, caps).
Proof.
  revert i. induction n as [|n IH]; intros i; [done|]. cbn.
  destruct (re_matcher r s i) as [[e' caps']|] eqn:Hm; [|apply IH].
  intros [= <- <- <-]. done.
Qed.

Lemma regexpExec_matcher r s j e caps :
  fst (regexpExec r s 0) = Some (j, e, caps) -> re_matcher r s j = Some (e, caps).
Proof.
  unfold regexpExec. replace (if re_stateful r then 0%nat else 0%nat) with 0%nat
    by by destruct (re_stateful r).
  cbn [Nat.ltb Nat.leb]. destruct (re_sticky r).
  - destruct (re_matcher r s 0) as [[e' caps']|] eqn:Hm; [|done].
    cbn. intros [= <- <- <-]. done.
  - destruct (searchFrom r s _ 0) as [[[j' e'] caps']|] eqn:Hs; [|done].
    cbn. intros [= <- <- <-]. by eapply searchFrom_matcher.
Qed.

Lemma sampleTaskRE_group : hasFirstGroup sampleTaskRE.
Proof.
  intros s [[j e] caps] Hm. apply regexpExec_matcher in Hm. cbn in Hm.
  unfold sampleTaskMatcher in Hm. repeat case_match; try done.
  all: injection Hm as <- <-; by eexists.
Qed.

Lemma sampleHeadRE_group : hasFirstGroup sampleHeadRE.
Proof.
  intros s [[j e] caps] Hm. apply regexpExec_matcher in Hm. cbn in Hm.
  unfold sampleHeadMatcher in Hm. repeat case_match; try done.
  all: injection Hm as <- <-; by eexists.
Qed.

Lemma renderers_mark_every_eligible_line_witness :
  let st := {| rs_host := sampleNote; rs_lastIndex := 0; rs_calls := [] |} in
  rs_calls (snd (markdownRenderTasks (list string) (fun h => Z.of_nat (length h))
                   (fun _ => {| vp_from := 0; vp_to := 0 |}) docLine
                   (fun _ _ => "markdown") (fun _ => false) (fun _ _ _ _ => true)
                   linesMarkText linesRegister linesRegister sampleTaskRE false st)) =
    [{| mc_from := {| line := 1; ch := 0 |}; mc_to := {| line := 1; ch := 5 |};
        mc_replacedWith := Checkbox true false |};
     {| mc_from := {| line := 3; ch := 0 |}; mc_to := {| line := 3; ch := 5 |};
        mc_replacedWith := Checkbox false false |}] /\
  rs_calls (snd (markdownRenderHTags (list string) (fun h => Z.of_nat (length h))
                   (fun _ => {| vp_from := 0; vp_to := 0 |}) docLine
                   (fun _ _ => "markdown") (fun _ _ _ _ => true)
                   linesMarkText sampleHeadRE false st)) =
    [{| mc_from := {| line := 0; ch := 0 |}; mc_to := {| line := 0; ch := 2 |};
        mc_replacedWith := HeadingTag "h2" |}].
Proof.
  cbn zeta.
  destruct (renderers_mark_every_eligible_line (list string)
              (fun h => Z.of_nat (length h)) (fun _ => {| vp_from := 0; vp_to := 0 |})
              docLine (fun _ _ => "markdown") (fun _ => false) (fun _ _ _ _ => true)
              linesMarkText linesRegister linesRegister sampleTaskRE sampleHeadRE false
              {| rs_host := sampleNote; rs_lastIndex := 0; rs_calls := [] |})
    as [[_ Htasks] [_ Hheadings]].
  - split; [|split].
    + intros a b el h. exists O, h. split; [reflexivity|]. by repeat split.
    + intros textMarker h. exists h. split; [reflexivity|]. by repeat split.
    + intros textMarker h. exists h. split; [reflexivity|]. by repeat split.
  - exact sampleTaskRE_group.
  - exact sampleHeadRE_group.
  - rewrite Htasks, Hheadings. vm_compute. split; reflexivity.
Defined.
